(** * Zipcode_Generator: aggregation, boundary join, sampling and dissolve

    A shallow embedding of [src/app.py]: the function
    [create_full_geographic_data] (data preparation, per-ZIP aggregation,
    left join with the census boundaries) and the body of the
    "Generate Geographic Files" button (exports, sampling of at most five
    groups, dissolve).

    The program is written against pandas, geopandas and numpy; the
    operations it calls ([dropna], [astype(str)], [str.zfill], [groupby.agg],
    [drop_duplicates], [isin], [merge(how='left')], [unique],
    [np.random.choice(replace=False)], [dissolve]) are embedded here as
    functions on column-oriented tables, following their documented
    behaviour in pandas 2.x / geopandas 0.x-1.x. *)

From Stdlib Require Import ZArith List String Ascii Bool Lia Permutation.
From Stdlib Require Import DecimalString.
Import ListNotations.
Local Open Scope string_scope.
Local Open Scope list_scope.

(* ================================================================= *)
(** ** Exceptions *)

(** The Python exceptions that the modelled code can raise.
    [StopException] is what [st.stop()] raises to end the script run. *)
Inductive exn :=
| KeyError (label : string)
| TypeError
| ValueError
| StopException.

Inductive result (A : Type) :=
| Ok (a : A)
| Raise (e : exn).

Arguments Ok {A} a.
Arguments Raise {A} e.

Definition bind {A B} (m : result A) (k : A -> result B) : result B :=
  match m with
  | Ok a => k a
  | Raise e => Raise e
  end.

Notation "x <- m ;; k" := (bind m (fun x => k))
  (at level 61, m at next level, right associativity).

Fixpoint mapM {A B} (f : A -> result B) (l : list A) : result (list B) :=
  match l with
  | [] => Ok []
  | a :: l' => b <- f a ;; bs <- mapM f l' ;; Ok (b :: bs)
  end.

(* ================================================================= *)
(** ** Strings: [str(int)], [str(bool)] and [str.zfill] *)

(** A [string] is read as a Python [str], one [ascii] per character. *)

Definition str_of_int (z : Z) : string := NilZero.string_of_int (Z.to_int z).

Definition str_of_bool (b : bool) : string := if b then "True" else "False".

Fixpoint zeros (n : nat) : string :=
  match n with
  | O => EmptyString
  | S n' => String "0" (zeros n')
  end.

Definition is_sign (c : ascii) : bool :=
  (Ascii.eqb c "+" || Ascii.eqb c "-")%bool.

(** [str.zfill(width)]: a string at least [width] long is returned as it
    is; a shorter one is padded on the left with ['0'], the padding going
    after a leading sign.  [Series.str.zfill] applies it element-wise. *)
Definition zfill (width : nat) (s : string) : string :=
  if (width <=? String.length s)%nat then s
  else
    let fill := (width - String.length s)%nat in
    match s with
    | String c rest =>
        if is_sign c then String c (zeros fill ++ rest)%string
        else (zeros fill ++ s)%string
    | EmptyString => zeros fill
    end.

(* ================================================================= *)
(** ** Cells and columns *)

(** 64-bit two's complement wrap-around, for sums of [int64] columns. *)
Definition wrap64 (z : Z) : Z :=
  ((z + 2 ^ 63) mod 2 ^ 64 - 2 ^ 63)%Z.

Definition zsum (l : list Z) : Z := fold_left Z.add l 0%Z.

(** The [float64] operations the pipeline relies on.  Floating point is
    not interpreted: the type and its operations are an interface.
    - [float_isna]: the value is NaN (pandas' missing value);
    - [float_key]: the hash-table key of a value, as used by [unique],
      [isin] and [groupby] (equal for 0.0 and -0.0, one key for all NaNs);
    - [float_leb]: the order used to sort group keys;
    - [float_sum]: [groupby.sum] of a block, NaN skipped;
    - [float_str]: [str(x)], used by [astype(str)];
    - [float_of_int]: the conversion of an [int64] cell when its column is
      promoted to [float64] to make room for a missing value. *)
Class Float64Ops := {
  float : Type;
  float_isna : float -> bool;
  float_key : float -> Z;
  float_leb : float -> float -> bool;
  float_nan : float;
  float_sum : list float -> float;
  float_str : float -> string;
  float_of_int : Z -> float
}.

(** Geometries are opaque; [merge_geometries] is the union that
    [dissolve] takes over the geometries of one group. *)
Class GeometryOps := {
  geometry : Type;
  merge_geometries : list (option geometry) -> option geometry
}.

(** A cell of an [object] column: text, a Python [int], or missing (NaN). *)
Inductive obj :=
| OStr (s : string)
| OInt (z : Z)
| ONaN.

(** Hash-table keys of cells: what [unique], [isin], [drop_duplicates]
    and [groupby] compare.  Missing values share the key [HNaN]. *)
Inductive hkey :=
| HInt (z : Z)
| HFloat (k : Z)
| HBool (b : bool)
| HStr (s : string)
| HNaN.

Definition hkey_eq_dec (a b : hkey) : {a = b} + {a <> b}.
Proof.
  decide equality; try apply Z.eq_dec; try apply Bool.bool_dec;
    apply string_dec.
Defined.

Definition hkey_eqb (a b : hkey) : bool :=
  if hkey_eq_dec a b then true else false.

Definition hkey_isna (k : hkey) : bool :=
  match k with HNaN => true | _ => false end.

Section Model.
Context {F : Float64Ops} {G : GeometryOps}.

(** A column carries its dtype: [int64] and [bool] columns cannot hold a
    missing value, a [float64] column holds it as NaN, an [object] column
    as [ONaN]. *)
Inductive column :=
| Int64 (xs : list Z)
| Float64 (xs : list float)
| Bool (xs : list bool)
| Object (xs : list obj).

(** A [DataFrame]: its columns in order, each with its label.  All columns
    of a frame have the same length ([wf_frame]). *)
Definition frame := list (string * column).

(** A [GeoDataFrame]: the attribute columns and the ['geometry'] column. *)
Record geoframe := {
  data : frame;
  geometry_col : list (option geometry)
}.

Definition col_len (c : column) : nat :=
  match c with
  | Int64 xs => List.length xs
  | Float64 xs => List.length xs
  | Bool xs => List.length xs
  | Object xs => List.length xs
  end.

Definition nrows (df : frame) : nat :=
  match df with
  | [] => O
  | (_, c) :: _ => col_len c
  end.

Definition wf_frame (df : frame) : Prop :=
  forall l c, In (l, c) df -> col_len c = nrows df.

Definition columns (df : frame) : list string := map fst df.

Definition float_hkey (x : float) : hkey :=
  if float_isna x then HNaN else HFloat (float_key x).

Definition obj_hkey (o : obj) : hkey :=
  match o with
  | OStr s => HStr s
  | OInt z => HInt z
  | ONaN => HNaN
  end.

Definition col_hkeys (c : column) : list hkey :=
  match c with
  | Int64 xs => map HInt xs
  | Float64 xs => map float_hkey xs
  | Bool xs => map HBool xs
  | Object xs => map obj_hkey xs
  end.

(** [Series.isna()] *)
Definition col_isna (c : column) : list bool := map hkey_isna (col_hkeys c).

(** [pd.api.types.is_numeric_dtype]: true of integer, float and bool
    dtypes, false of [object]. *)
Definition is_numeric_dtype (c : column) : bool :=
  match c with
  | Object _ => false
  | _ => true
  end.

Definition str_of_obj (o : obj) : string :=
  match o with
  | OStr s => s
  | OInt z => str_of_int z
  | ONaN => "nan"
  end.

(** [Series.astype(str)] *)
Definition astype_str (c : column) : list string :=
  match c with
  | Int64 xs => map str_of_int xs
  | Float64 xs => map float_str xs
  | Bool xs => map str_of_bool xs
  | Object xs => map str_of_obj xs
  end.

Definition str_column (l : list string) : column := Object (map OStr l).

(** Boolean-mask selection, [xs[mask]]. *)
Fixpoint filter_mask {A} (mask : list bool) (xs : list A) : list A :=
  match mask, xs with
  | b :: mask', x :: xs' =>
      if b then x :: filter_mask mask' xs' else filter_mask mask' xs'
  | _, _ => []
  end.

Definition col_filter (mask : list bool) (c : column) : column :=
  match c with
  | Int64 xs => Int64 (filter_mask mask xs)
  | Float64 xs => Float64 (filter_mask mask xs)
  | Bool xs => Bool (filter_mask mask xs)
  | Object xs => Object (filter_mask mask xs)
  end.

Definition frame_filter (mask : list bool) (df : frame) : frame :=
  map (fun lc => (fst lc, col_filter mask (snd lc))) df.

Fixpoint map2 {A B C} (f : A -> B -> C) (l : list A) (m : list B) : list C :=
  match l, m with
  | a :: l', b :: m' => f a b :: map2 f l' m'
  | _, _ => []
  end.

(** [df[label]]: the column with that label, [KeyError] when there is none. *)
Fixpoint getitem (df : frame) (label : string) : result column :=
  match df with
  | [] => Raise (KeyError label)
  | (l, c) :: df' => if String.eqb l label then Ok c else getitem df' label
  end.

(** [df[label] = c]: replaces the column, or appends it when the label is new. *)
Fixpoint setitem (df : frame) (label : string) (c : column) : frame :=
  match df with
  | [] => [(label, c)]
  | (l, c') :: df' =>
      if String.eqb l label then (l, c) :: df'
      else (l, c') :: setitem df' label c
  end.

Definition has_column (df : frame) (label : string) : bool :=
  existsb (String.eqb label) (columns df).

(** [df.dropna(subset=...)]: keeps the rows with no missing value in the
    columns of [subset]. *)
Definition dropna (subset : list string) (df : frame) : result frame :=
  cs <- mapM (getitem df) subset ;;
  let mask :=
    fold_left (fun m c => map2 andb m (map negb (col_isna c)))
              cs (repeat true (nrows df)) in
  Ok (frame_filter mask df).

(** [df.rename(columns={old: new})] *)
Definition rename (old new : string) (df : frame) : frame :=
  map (fun lc => (if String.eqb (fst lc) old then new else fst lc, snd lc)) df.

(* ================================================================= *)
(** ** Grouping *)

(** First occurrences, in order of appearance, of the values of [l]
    compared by their hash key: [Series.unique()]. *)
Fixpoint unique_by {A} (key : A -> hkey) (l : list A) : list A :=
  match l with
  | [] => []
  | x :: l' =>
      x :: filter (fun y => negb (hkey_eqb (key y) (key x))) (unique_by key l')
  end.

Fixpoint insert_sorted {A} (leb : A -> A -> bool) (x : A) (l : list A) : list A :=
  match l with
  | [] => [x]
  | y :: l' => if leb x y then x :: l else y :: insert_sorted leb x l'
  end.

Definition isort {A} (leb : A -> A -> bool) (l : list A) : list A :=
  fold_right (insert_sorted leb) [] l.

(** Order of the group keys of an [object] column: numbers before text. *)
Definition obj_leb (a b : obj) : bool :=
  match a, b with
  | OInt x, OInt y => (x <=? y)%Z
  | OInt _, _ => true
  | OStr s, OStr t => String.leb s t
  | OStr _, OInt _ => false
  | OStr _, ONaN => true
  | ONaN, _ => false
  end.

(** The group keys of [groupby(..., sort=True, dropna=True)]: the distinct
    non-missing values of the column, sorted. *)
Definition groups_of {A} (key : A -> hkey) (leb : A -> A -> bool)
    (xs : list A) : list A :=
  isort leb (filter (fun x => negb (hkey_isna (key x))) (unique_by key xs)).

Definition col_groups (c : column) : column :=
  match c with
  | Int64 xs => Int64 (groups_of HInt Z.leb xs)
  | Float64 xs => Float64 (groups_of float_hkey float_leb xs)
  | Bool xs => Bool (groups_of HBool implb xs)
  | Object xs => Object (groups_of obj_hkey obj_leb xs)
  end.

(** [Series.unique()] *)
Definition col_unique (c : column) : column :=
  match c with
  | Int64 xs => Int64 (unique_by HInt xs)
  | Float64 xs => Float64 (unique_by float_hkey xs)
  | Bool xs => Bool (unique_by HBool xs)
  | Object xs => Object (unique_by obj_hkey xs)
  end.

(** The cells of [xs] in the rows whose key is [g]: one group's block. *)
Definition select {A} (ks : list hkey) (g : hkey) (xs : list A) : list A :=
  filter_mask (map (hkey_eqb g) ks) xs.

(* ================================================================= *)
(** ** Reductions: ['first'] and ['sum'] *)

Inductive aggfunc := First | Sum.

(** Python's [+] on the cells of an [object] column. *)
Definition obj_add (a b : obj) : result obj :=
  match a, b with
  | OStr s, OStr t => Ok (OStr (s ++ t)%string)
  | OInt x, OInt y => Ok (OInt (x + y))
  | _, _ => Raise TypeError
  end.

Definition obj_isna (o : obj) : bool :=
  match o with ONaN => true | _ => false end.

Fixpoint obj_sum_from (acc : obj) (l : list obj) : result obj :=
  match l with
  | [] => Ok acc
  | x :: l' =>
      if obj_isna x then obj_sum_from acc l'
      else acc' <- obj_add acc x ;; obj_sum_from acc' l'
  end.

(** [groupby.sum] of an [object] block: missing cells are skipped, the
    first cell present starts the sum, and a block with none sums to [0]. *)
Fixpoint obj_sum (l : list obj) : result obj :=
  match l with
  | [] => Ok (OInt 0)
  | x :: l' => if obj_isna x then obj_sum l' else obj_sum_from x l'
  end.

(** [groupby.first]: the first cell of the block that is not missing. *)
Definition obj_first (l : list obj) : obj :=
  match find (fun o => negb (obj_isna o)) l with
  | Some o => o
  | None => ONaN
  end.

Definition float_first (l : list float) : float :=
  match find (fun x => negb (float_isna x)) l with
  | Some x => x
  | None => float_nan
  end.

Definition count_true (l : list bool) : Z :=
  Z.of_nat (List.length (filter (fun b => b) l)).

(** One column reduced group by group.  [ks] are the keys of the rows,
    [gs] the keys of the groups, each of which has at least one row.  A sum
    of [bool] cells counts the [True] ones and has dtype [int64].  The
    program never asks for ['first'] on a numeric column (lines 54-56 turn
    those to ['sum']); the cases are there to make the function total. *)
Definition agg_column (f : aggfunc) (ks gs : list hkey) (c : column)
    : result column :=
  match f, c with
  | Sum, Int64 xs =>
      Ok (Int64 (map (fun g => wrap64 (zsum (select ks g xs))) gs))
  | Sum, Float64 xs =>
      Ok (Float64 (map (fun g => float_sum (select ks g xs)) gs))
  | Sum, Bool xs =>
      Ok (Int64 (map (fun g => count_true (select ks g xs)) gs))
  | Sum, Object xs =>
      os <- mapM (fun g => obj_sum (select ks g xs)) gs ;; Ok (Object os)
  | First, Int64 xs =>
      Ok (Int64 (map (fun g => hd 0%Z (select ks g xs)) gs))
  | First, Float64 xs =>
      Ok (Float64 (map (fun g => float_first (select ks g xs)) gs))
  | First, Bool xs =>
      Ok (Bool (map (fun g => hd false (select ks g xs)) gs))
  | First, Object xs =>
      Ok (Object (map (fun g => obj_first (select ks g xs)) gs))
  end.

(** A Python [dict] from labels to reductions, in insertion order. *)
Definition dict := list (string * aggfunc).

Fixpoint dict_set (d : dict) (k : string) (v : aggfunc) : dict :=
  match d with
  | [] => [(k, v)]
  | (k', v') :: d' =>
      if String.eqb k' k then (k', v) :: d' else (k', v') :: dict_set d' k v
  end.

(** [reset_index()]: the group keys become the first column; a column of
    that label already there is a [ValueError]. *)
Definition reset_index (label : string) (index : column) (cols : frame)
    : result frame :=
  if has_column cols label then Raise ValueError
  else Ok ((label, index) :: cols).

Definition agg_one (df : frame) (ks gs : list hkey) (e : string * aggfunc)
    : result (string * column) :=
  c <- getitem df (fst e) ;;
  r <- agg_column (snd e) ks gs c ;;
  Ok (fst e, r).

(** [df.groupby(by).agg(agg_dict).reset_index()] *)
Definition groupby_agg (by_ : string) (agg_dict : dict) (df : frame)
    : result frame :=
  kc <- getitem df by_ ;;
  let ks := col_hkeys kc in
  let index := col_groups kc in
  cols <- mapM (agg_one df ks (col_hkeys index)) agg_dict ;;
  reset_index by_ index cols.

(** Row keys of a frame: for each row the keys of its cells. *)
Definition row_keys (df : frame) : list (list hkey) :=
  fold_right (fun lc acc => map2 cons (col_hkeys (snd lc)) acc)
             (repeat [] (nrows df)) df.

Definition row_key_eq_dec : forall a b : list hkey, {a = b} + {a <> b} :=
  list_eq_dec hkey_eq_dec.

(** Mask of the rows whose key has not occurred in an earlier row. *)
Fixpoint first_mask {K} (eq_dec : forall a b : K, {a = b} + {a <> b})
    (seen : list K) (ks : list K) : list bool :=
  match ks with
  | [] => []
  | k :: ks' =>
      if in_dec eq_dec k seen then false :: first_mask eq_dec seen ks'
      else true :: first_mask eq_dec (k :: seen) ks'
  end.

(** [df.drop_duplicates()] *)
Definition drop_duplicates (df : frame) : frame :=
  frame_filter (first_mask row_key_eq_dec [] (row_keys df)) df.

(** [df[[l1, l2, ...]]] *)
Definition getitems (df : frame) (labels : list string) : result frame :=
  mapM (fun l => c <- getitem df l ;; Ok (l, c)) labels.

(* ================================================================= *)
(** ** [create_full_geographic_data], part 1: data preparation *)

(** [df[zipcode_column].astype(str).str.zfill(5)] *)
Definition normalize_zip (c : column) : list string :=
  map (zfill 5) (astype_str c).

(** Lines 44-46: copy, drop the rows with a missing ZIP code or grouping
    value, rewrite the ZIP column in its normalized form. *)
Definition clean (df : frame) (zipcode_column groupby_column : string)
    : result frame :=
  df_clean <- dropna [zipcode_column; groupby_column] df ;;
  z <- getitem df_clean zipcode_column ;;
  Ok (setitem df_clean zipcode_column (str_column (normalize_zip z))).

(** Lines 49-51. *)
Definition columns_to_aggregate (include_columns : list string)
    (groupby_column : string) : list string :=
  let l := filter (fun col => negb (String.eqb col groupby_column))
                  include_columns in
  if existsb (String.eqb groupby_column) l then l else l ++ [groupby_column].

(** Line 53: every column to aggregate but the ZIP column starts as ['first']. *)
Definition agg_dict_init (cols : list string) (zipcode_column : string) : dict :=
  fold_left (fun d col => dict_set d col First)
            (filter (fun col => negb (String.eqb col zipcode_column)) cols) [].

(** Lines 54-56: a column of numeric dtype is switched to ['sum']. *)
Fixpoint agg_dict_numeric (df_clean : frame) (cols : list string) (d : dict)
    : result dict :=
  match cols with
  | [] => Ok d
  | col :: rest =>
      c <- getitem df_clean col ;;
      agg_dict_numeric df_clean rest
        (if is_numeric_dtype c then dict_set d col Sum else d)
  end.

(** Lines 40-63.  [include_columns] is [None] when the caller leaves the
    parameter out; iterating it is then a [TypeError]. *)
Definition aggregate (df : frame) (zipcode_column groupby_column : string)
    (include_columns : option (list string)) : result frame :=
  if negb (has_column df zipcode_column) || negb (has_column df groupby_column)
  then Raise StopException
  else
    df_clean <- clean df zipcode_column groupby_column ;;
    inc <- match include_columns with
           | Some l => Ok l
           | None => Raise TypeError
           end ;;
    let cols := columns_to_aggregate inc groupby_column in
    agg_dict <- agg_dict_numeric df_clean cols
                  (agg_dict_init cols zipcode_column) ;;
    match agg_dict with
    | _ :: _ => groupby_agg zipcode_column agg_dict df_clean
    | [] =>
        sel <- getitems df_clean [zipcode_column; groupby_column] ;;
        Ok (drop_duplicates sel)
    end.

(* ================================================================= *)
(** ** [create_full_geographic_data], part 2: boundaries and merge *)

(** A field of the attribute table of the census shapefile, as
    [gpd.read_file] returns it: text ([object], a missing cell as [ONaN]),
    integer ([int64]) or real ([float64]). *)
Inductive field :=
| TextField (xs : list obj)
| IntField (xs : list Z)
| RealField (xs : list float).

Definition field_len (f : field) : nat :=
  match f with
  | TextField xs => List.length xs
  | IntField xs => List.length xs
  | RealField xs => List.length xs
  end.

Definition field_filter (mask : list bool) (f : field) : field :=
  match f with
  | TextField xs => TextField (filter_mask mask xs)
  | IntField xs => IntField (filter_mask mask xs)
  | RealField xs => RealField (filter_mask mask xs)
  end.

(** The census table [zcta_gdf]: the key ['ZCTA5CE20'], the further
    fields of its attribute table in order (for the TIGER/Line file:
    [GEOID20], [CLASSFP20], [MTFCC20], [FUNCSTAT20], [ALAND20], [AWATER20],
    [INTPTLAT20], [INTPTLON20]) and ['geometry'].  As in any shapefile the
    field names are distinct, none of them being ['ZCTA5CE20'] or
    ['geometry'], and all columns are equally long. *)
Record boundaries := {
  ZCTA5CE20 : column;
  boundary_fields : list (string * field);
  boundary_geometry : list (option geometry)
}.

(** [Series.isin(values)] *)
Definition isin (ks vals : list hkey) : list bool :=
  map (fun k => if in_dec hkey_eq_dec k vals then true else false) ks.

Definition repeat_rows {A} (counts : list nat) (xs : list A) : list A :=
  List.concat (map2 (fun n x => repeat x n) counts xs).

Definition col_repeat (counts : list nat) (c : column) : column :=
  match c with
  | Int64 xs => Int64 (repeat_rows counts xs)
  | Float64 xs => Float64 (repeat_rows counts xs)
  | Bool xs => Bool (repeat_rows counts xs)
  | Object xs => Object (repeat_rows counts xs)
  end.

(** The geometries a left row with key [k] is paired with: those of the
    right rows with that key, or one missing geometry when there is none. *)
Definition merge_block (rkeys : list string)
    (rgeom : list (option geometry)) (k : string) : list (option geometry) :=
  match filter_mask (map (String.eqb k) rkeys) rgeom with
  | [] => [None]
  | m => m
  end.

(** The same for the cells of a field: [None] is the cell of a left row
    without a matching right row. *)
Definition merge_cells {A} (rkeys : list string) (cells : list A)
    (k : string) : list (option A) :=
  match filter_mask (map (String.eqb k) rkeys) cells with
  | [] => [None]
  | m => map Some m
  end.

Definition all_some {A} (l : list (option A)) : bool :=
  forallb (fun o => match o with Some _ => true | None => false end) l.

Definition from_option {A} (d : A) (o : option A) : A :=
  match o with Some a => a | None => d end.

(** A field of the right table in the merged table: a left row without
    match gets a missing value, and an [int64] column that gets one
    becomes [float64]. *)
Definition field_merge (rkeys lkeys : list string) (f : field) : column :=
  match f with
  | TextField xs =>
      Object (map (from_option ONaN) (flat_map (merge_cells rkeys xs) lkeys))
  | IntField xs =>
      let cells := flat_map (merge_cells rkeys xs) lkeys in
      if all_some cells then Int64 (map (from_option 0%Z) cells)
      else Float64 (map (fun o => match o with
                                  | Some x => float_of_int x
                                  | None => float_nan
                                  end) cells)
  | RealField xs =>
      Float64 (map (from_option float_nan)
                   (flat_map (merge_cells rkeys xs) lkeys))
  end.

(** The labels that both tables have, the merge key apart: these get the
    suffixes ['_x'] (left) and ['_y'] (right). *)
Definition overlap (llabels rlabels : list string) : list string :=
  filter (fun l => existsb (String.eqb l) rlabels) llabels.

Definition with_suffix (to_rename : list string) (suffix l : string)
    : string :=
  if existsb (String.eqb l) to_rename then (l ++ suffix)%string else l.

(** The labels that occur a second time after the renaming although they
    did not before: [new[new.duplicated() & ~old.duplicated()]]. *)
Fixpoint caused_duplicates (seen_old seen_new old new : list string)
    : list string :=
  match old, new with
  | o :: old', n :: new' =>
      (if (existsb (String.eqb n) seen_new &&
           negb (existsb (String.eqb o) seen_old))%bool
       then [n] else [])
      ++ caused_duplicates (o :: seen_old) (n :: seen_new) old' new'
  | _, _ => []
  end.

(** The duplicate labels for which the merge raises [MergeError]. *)
Definition merge_duplicates (llabels rlabels : list string) : list string :=
  let to_rename := overlap llabels rlabels in
  caused_duplicates [] [] llabels (map (with_suffix to_rename "_x") llabels)
  ++ caused_duplicates [] [] rlabels (map (with_suffix to_rename "_y") rlabels).

(** The labels of the right table that take part in the renaming: its key
    is dropped in favour of the left one. *)
Definition right_labels (rfields : list (string * field)) : list string :=
  map fst rfields ++ ["geometry"].

(** [left.merge(right, on=key, how='left')]: left rows in order, each
    once per matching right row, and once with missing right cells when no
    right row matches; the left columns come first, then the fields of the
    right table; a label that both have gets the suffix ['_x'] on the left
    and ['_y'] on the right, and [MergeError] (a [ValueError]) is raised
    when that makes two labels equal. *)
Definition merge_left (lkeys : list string) (left : frame)
    (rkeys : list string) (rfields : list (string * field))
    (rgeom : list (option geometry)) : result geoframe :=
  let llabels := columns left in
  let rlabels := right_labels rfields in
  let to_rename := overlap llabels rlabels in
  match merge_duplicates llabels rlabels with
  | _ :: _ => Raise ValueError
  | [] =>
      let counts :=
        map (fun k => List.length (merge_block rkeys rgeom k)) lkeys in
      Ok {| data :=
              map (fun lc => (with_suffix to_rename "_x" (fst lc),
                              col_repeat counts (snd lc))) left
              ++ map (fun lf => (with_suffix to_rename "_y" (fst lf),
                                 field_merge rkeys lkeys (snd lf))) rfields;
            geometry_col := flat_map (merge_block rkeys rgeom) lkeys |}
  end.

(** Lines 67 and 90-102.  The merge refuses a key label that is not
    unique on the left, and [GeoDataFrame(..., geometry='geometry')] refuses
    a table whose own ['geometry'] column made the merge rename both. *)
Definition filter_and_merge (zip_data : frame) (zipcode_column : string)
    (zcta_gdf : boundaries) : result geoframe :=
  zc <- getitem zip_data zipcode_column ;;
  let unique_zipcodes := col_hkeys zc in
  let zip_data_merge := rename zipcode_column "ZCTA5CE20" zip_data in
  let zcta_keys := astype_str (ZCTA5CE20 zcta_gdf) in
  if negb (List.length (filter (String.eqb "ZCTA5CE20") (columns zip_data_merge))
           =? 1)%nat
  then Raise ValueError
  else
    lk <- getitem zip_data_merge "ZCTA5CE20" ;;
    let lkeys := astype_str lk in
    let zip_data_merge :=
      setitem zip_data_merge "ZCTA5CE20" (str_column lkeys) in
    let mask := isin (map HStr zcta_keys) unique_zipcodes in
    final_gdf <- merge_left lkeys zip_data_merge
                   (filter_mask mask zcta_keys)
                   (map (fun lf => (fst lf, field_filter mask (snd lf)))
                        (boundary_fields zcta_gdf))
                   (filter_mask mask (boundary_geometry zcta_gdf)) ;;
    if has_column zip_data_merge "geometry" then Raise ValueError
    else Ok final_gdf.

(** The whole function.  [provider] is the outcome of the download:
    [None] when it fails, which ends the run through [st.stop()]. *)
Definition create_full_geographic_data (df : frame)
    (zipcode_column groupby_column : string)
    (include_columns : option (list string))
    (provider : option boundaries) : result geoframe :=
  zip_data <- aggregate df zipcode_column groupby_column include_columns ;;
  zcta_gdf <- match provider with
              | Some b => Ok b
              | None => Raise StopException
              end ;;
  filter_and_merge zip_data zipcode_column zcta_gdf.

(* ================================================================= *)
(** ** The button handler: exports, sampling, dissolve *)

(** The serializers behind the three downloads: [GeoDataFrame.to_json],
    [DataFrame.to_csv(index=False)] and [create_zip_file] (shapefile
    components written to a temporary directory and zipped). *)
Class ExportOps := {
  to_json : geoframe -> string;
  to_csv : frame -> string;
  create_zip_file : geoframe -> string -> string
}.

Context {E : ExportOps}.

(** [xs[idx]] for a list of positions. *)
Definition take {A} (idx : list nat) (xs : list A) : list A :=
  flat_map (fun i => match nth_error xs i with
                     | Some x => [x]
                     | None => []
                     end) idx.

Definition col_take (idx : list nat) (c : column) : column :=
  match c with
  | Int64 xs => Int64 (take idx xs)
  | Float64 xs => Float64 (take idx xs)
  | Bool xs => Bool (take idx xs)
  | Object xs => Object (take idx xs)
  end.

(** [np.random.choice(a, size=size, replace=False)]: the generator draws a
    permutation [perm] of the positions of [a]; the sample is made of the
    entries at its first [size] positions. *)
Definition random_choice (perm : list nat) (a : column) (size : nat) : column :=
  col_take (firstn size perm) a.

(** Lines 200-203. *)
Definition sample (perm : list nat) (unique_groups : column) : column :=
  if (5 <? col_len unique_groups)%nat
  then random_choice perm unique_groups 5
  else unique_groups.

Definition geoframe_filter (mask : list bool) (gdf : geoframe) : geoframe :=
  {| data := frame_filter mask (data gdf);
     geometry_col := filter_mask mask (geometry_col gdf) |}.

(** [gdf.empty] *)
Definition gdf_empty (gdf : geoframe) : bool :=
  (List.length (geometry_col gdf) =? 0)%nat.

(** [gdf.dissolve(by=by_, aggfunc='sum').reset_index()]: the attribute
    columns other than [by_] are grouped by [by_] and each reduced with
    ['sum']; the geometries of a group are merged; the group keys come
    back as the first column. *)
Definition dissolve (by_ : string) (gdf : geoframe) : result geoframe :=
  kc <- getitem (data gdf) by_ ;;
  let agg_dict :=
    map (fun l => (l, Sum))
        (filter (fun l => negb (String.eqb l by_)) (columns (data gdf))) in
  aggregated_data <- groupby_agg by_ agg_dict (data gdf) ;;
  let ks := col_hkeys kc in
  let gs := col_hkeys (col_groups kc) in
  Ok {| data := aggregated_data;
        geometry_col :=
          map (fun g => merge_geometries (select ks g (geometry_col gdf))) gs |}.

Record visual := {
  sampled_groups : column;
  visual_gdf : geoframe
}.

(** Lines 199-212.  [None] stands for the warning shown when the sampled
    frame is empty. *)
Definition visualize (perm : list nat) (final_gdf : geoframe)
    (groupby_col : string) : result (option visual) :=
  gcol <- getitem (data final_gdf) groupby_col ;;
  let unique_groups := col_unique gcol in
  let sampled := sample perm unique_groups in
  let sampled_gdf :=
    geoframe_filter (isin (col_hkeys gcol) (col_hkeys sampled)) final_gdf in
  if gdf_empty sampled_gdf then Ok None
  else
    v <- dissolve groupby_col sampled_gdf ;;
    Ok (Some {| sampled_groups := sampled; visual_gdf := v |}).

Record downloads := {
  geojson_string : string;
  csv_string : string;
  shapefile_zip : string
}.

(** Lines 171-174. *)
Definition export (final_gdf : geoframe) : downloads :=
  {| geojson_string := to_json final_gdf;
     csv_string := to_csv (data final_gdf);
     shapefile_zip := create_zip_file final_gdf "output_shapefile.zip" |}.

(** What the page shows after the button is pressed: the download links,
    then the map or the exception that the visualization ran into (shown
    by the handler's [except] clause, after the links). *)
Record page := {
  page_downloads : downloads;
  page_visual : result (option visual)
}.

(** Lines 163-240.  [Ok None]: the frame is empty and nothing is shown. *)
Definition generate (df : frame) (zip_col groupby_col : string)
    (metric_cols : list string) (provider : option boundaries)
    (perm : list nat) : result (option page) :=
  final_gdf <- create_full_geographic_data df zip_col groupby_col
                 (Some metric_cols) provider ;;
  if gdf_empty final_gdf then Ok None
  else
    let links := export final_gdf in
    Ok (Some {| page_downloads := links;
                page_visual := visualize perm final_gdf groupby_col |}).

End Model.

From Stdlib Require Import NArith Sorting.Sorted DecimalZ DecimalPos.

(* ================================================================= *)
(** ** The selection widgets and the progress messages *)

(** Lines 155-159: the columns preselected in the multiselect,
    [[c for c in cols if c not in [zip_col, groupby_col]]]. *)
Definition default_metric_cols (cols : list string)
    (zip_col groupby_col : string) : list string :=
  filter (fun c => negb (existsb (String.eqb c) [zip_col; groupby_col])) cols.

Section Messages.
Context {F : Float64Ops} {G : GeometryOps}.



End Messages.

(* ================================================================= *)
(** ** [get_binary_file_downloader_html] *)

(** Bytes are read as a [string], one [ascii] per byte. *)

Definition b64_alphabet : string :=
  "ABCDEFGHIJKLMNOPQRSTUVWXYZabcdefghijklmnopqrstuvwxyz0123456789+/".

Definition b64_pad : ascii := "="%char.

Definition b64_char (i : N) : ascii :=
  match String.get (N.to_nat i) b64_alphabet with
  | Some c => c
  | None => b64_pad
  end.

(** The four 6-bit digits of a group of three bytes. *)
Definition b64_digit0 (x : N) : N := (x / 4)%N.
Definition b64_digit1 (x y : N) : N := ((x mod 4) * 16 + y / 16)%N.
Definition b64_digit2 (y z : N) : N := ((y mod 16) * 4 + z / 64)%N.
Definition b64_digit3 (z : N) : N := (z mod 64)%N.

(** [base64.b64encode(file_data).decode()]: three bytes give four
    characters of the standard alphabet; a last group of one or two bytes
    is completed with zero bits and padded with ['=']. *)
Fixpoint b64encode (s : string) : string :=
  match s with
  | EmptyString => EmptyString
  | String a EmptyString =>
      let x := N_of_ascii a in
      String (b64_char (b64_digit0 x))
        (String (b64_char (b64_digit1 x 0))
           (String b64_pad (String b64_pad EmptyString)))
  | String a (String b EmptyString) =>
      let x := N_of_ascii a in
      let y := N_of_ascii b in
      String (b64_char (b64_digit0 x))
        (String (b64_char (b64_digit1 x y))
           (String (b64_char (b64_digit2 y 0))
              (String b64_pad EmptyString)))
  | String a (String b (String c rest)) =>
      let x := N_of_ascii a in
      let y := N_of_ascii b in
      let z := N_of_ascii c in
      String (b64_char (b64_digit0 x))
        (String (b64_char (b64_digit1 x y))
           (String (b64_char (b64_digit2 y z))
              (String (b64_char (b64_digit3 z)) (b64encode rest))))
  end.

(** The double quote character. *)
Definition dquote : string := String (ascii_of_nat 34) EmptyString.

Definition href_prefix : string :=
  ("<a href=" ++ dquote ++ "data:application/octet-stream;base64,")%string.

(** Lines 106-110: the link, with the file as a base64 [data:] URI. *)
Definition get_binary_file_downloader_html
    (file_data file_label file_name : string) : string :=
  let b64 := b64encode file_data in
  (href_prefix ++ b64 ++ dquote ++ " download=" ++ dquote ++ file_name
     ++ dquote ++ ">" ++ file_label ++ "</a>")%string.

(* ================================================================= *)
(** ** [create_zip_file], file by file *)

(** The serializer [create_zip_file] of [ExportOps] stands for the bytes
    this function returns.  Here the function itself is followed through
    the temporary directory, to see which files end up in the archive. *)
Module Archive.
Section Archive.
Context {F : Float64Ops} {G : GeometryOps}.

(** A directory: file names with their contents. *)
Definition directory := list (string * string).

(** What [zf.write] is asked to add: a file of the directory, given by
    its content, or the archive file itself while it is being written. *)
Inductive source :=
| FileContent (content : string)
| ArchiveItself.

(** What the function takes from its libraries:
    - [to_file]: the components that the shapefile driver writes for
      [output.shp], each given by its extension ([".shp"], [".dbf"], ...)
      and its content;
    - [listdir_order]: the order in which [os.listdir] returns the names of
      a directory;
    - [zip_bytes]: the bytes of a closed archive with the given members
      (name in the archive, content). *)
Class ZipOps := {
  to_file : geoframe -> list (string * string);
  listdir_order : list string -> list string;
  zip_bytes : list (string * string) -> string
}.

Context {ZO : ZipOps}.

(** Writing a file: an existing file is replaced, a new one is added. *)
Fixpoint write (d : directory) (name content : string) : directory :=
  match d with
  | [] => [(name, content)]
  | (n, c) :: d' =>
      if String.eqb n name then (n, content) :: d'
      else (n, c) :: write d' name content
  end.

Fixpoint read (d : directory) (name : string) : string :=
  match d with
  | [] => EmptyString
  | (n, c) :: d' => if String.eqb n name then c else read d' name
  end.

(** Lines 115-116: [geodataframe.to_file(temp_dir/output.shp)] in the
    fresh temporary directory. *)
Definition shapefile_written (geodataframe : geoframe) : directory :=
  fold_left (fun d p => write d ("output" ++ fst p)%string (snd p))
            (to_file geodataframe) [].

(** Lines 118-122: the archive file is created in the same directory,
    then every file of the directory whose name starts with ["output."]
    is added under its bare name. *)
Definition zip_members (geodataframe : geoframe) (zip_file_name : string)
    : list (string * source) :=
  let temp_dir := write (shapefile_written geodataframe) zip_file_name
                        EmptyString in
  fold_left
    (fun members file =>
       if String.prefix "output." file
       then members ++
            [(file, if String.eqb file zip_file_name
                    then ArchiveItself
                    else FileContent (read temp_dir file))]
       else members)
    (listdir_order (map fst temp_dir)) [].

(** The members with their contents, when all of them are files of the
    directory other than the archive. *)
Fixpoint contents (members : list (string * source))
    : option (list (string * string)) :=
  match members with
  | [] => Some []
  | (n, FileContent c) :: members' =>
      option_map (cons (n, c)) (contents members')
  | (_, ArchiveItself) :: _ => None
  end.

(** Lines 112-126.  [None]: the archive was asked to add itself; the
    bytes it then holds depend on how much of it had reached the disk,
    which is left open. *)
Definition create_zip_file (geodataframe : geoframe) (zip_file_name : string)
    : option string :=
  option_map zip_bytes (contents (zip_members geodataframe zip_file_name)).

End Archive.
End Archive.

(* ================================================================= *)
(** ** The quantities the specification speaks of *)

Section Specification.
Context {F : Float64Ops}.

(** The records that survive cleaning: neither the postal code nor the
    grouping value is missing. *)
Definition surviving (z g : column) : list bool :=
  map2 (fun a b => negb a && negb b) (col_isna z) (col_isna g).

(** Their normalized postal codes, in row order. *)
Definition surviving_codes (z g : column) : list string :=
  map (zfill 5) (filter_mask (surviving z g) (astype_str z)).

(** The (postal code, grouping value) pairs of the surviving records. *)
Definition surviving_pairs (z g : column) : list (string * hkey) :=
  combine (surviving_codes z g) (filter_mask (surviving z g) (col_hkeys g)).

Definition pair_eq_dec (a b : string * hkey) : {a = b} + {a <> b}.
Proof. decide equality; [apply hkey_eq_dec | apply string_dec]. Defined.

(** The cleaned table [df_clean]: the surviving records, the postal-code
    column [zc] rewritten in normalized form. *)
Definition cleaned (df : frame) (zc : string) (z g : column) : frame :=
  setitem (frame_filter (surviving z g) df) zc
          (str_column (surviving_codes z g)).

(** The cells of a column in the records whose normalized code is [k]. *)
Definition block {A} (codes : list string) (k : string) (xs : list A) : list A :=
  filter_mask (map (String.eqb k) codes) xs.

(** The value a column has in the first record of a group ("first seen"). *)
Definition first_seen (block : list obj) : obj := hd ONaN block.

(** A column reduced per postal code the way the program does it: by sum
    for the numeric dtypes, by the first value present otherwise. *)
Definition reduced (codes keys : list string) (c : column) : column :=
  match c with
  | Int64 xs => Int64 (map (fun k => wrap64 (zsum (block codes k xs))) keys)
  | Float64 xs => Float64 (map (fun k => float_sum (block codes k xs)) keys)
  | Bool xs => Int64 (map (fun k => count_true (block codes k xs)) keys)
  | Object xs => Object (map (fun k => obj_first (block codes k xs)) keys)
  end.

(** The same with the first-seen value for the other columns, as the
    specification words it. *)
Definition reduced_first_seen (codes keys : list string) (c : column) : column :=
  match c with
  | Object xs => Object (map (fun k => first_seen (block codes k xs)) keys)
  | _ => reduced codes keys c
  end.

(** Text cells of a block, in row order, and their concatenation. *)
Fixpoint texts (l : list obj) : list string :=
  match l with
  | [] => []
  | OStr s :: l' => s :: texts l'
  | _ :: l' => texts l'
  end.

Fixpoint join (l : list string) : string :=
  match l with
  | [] => EmptyString
  | s :: l' => (s ++ join l')%string
  end.

(** The sum of a block of text cells: the texts present, concatenated in
    row order; [0] when there is none. *)
Definition text_sum (l : list obj) : obj :=
  match texts l with
  | [] => OInt 0
  | ts => OStr (join ts)
  end.

Definition is_text (o : obj) : bool :=
  match o with OInt _ => false | _ => true end.

(** A column whose cells, if it is an [object] column, are text or
    missing. *)
Definition text_column (c : column) : Prop :=
  match c with
  | Object xs => Forall (fun o => is_text o = true) xs
  | _ => True
  end.

(** A column summed group by group: [ks] are the keys of the rows, [gs]
    those of the groups. *)
Definition summed (ks gs : list hkey) (c : column) : column :=
  match c with
  | Int64 xs => Int64 (map (fun g => wrap64 (zsum (select ks g xs))) gs)
  | Float64 xs => Float64 (map (fun g => float_sum (select ks g xs)) gs)
  | Bool xs => Int64 (map (fun g => count_true (select ks g xs)) gs)
  | Object xs => Object (map (fun g => text_sum (select ks g xs)) gs)
  end.

(** The same with the first-seen value for the non-numeric columns, as
    the specification words it. *)
Definition summed_first_seen (ks gs : list hkey) (c : column) : column :=
  match c with
  | Object xs => Object (map (fun g => first_seen (select ks g xs)) gs)
  | _ => summed ks gs c
  end.

(** A dictionary lookup, for reading [agg_dict]. *)
Fixpoint dict_get (d : dict) (k : string) : option aggfunc :=
  match d with
  | [] => None
  | (k', v) :: d' => if String.eqb k' k then Some v else dict_get d' k
  end.

(** The dtype of a column of a frame is numeric. *)
Definition numeric_in (df : frame) (k : string) : bool :=
  match getitem df k with
  | Ok c => is_numeric_dtype c
  | Raise _ => false
  end.

(** The reduction that the per-column rule gives a column: ['sum'] for a
    numeric dtype, ['first'] otherwise. *)
Definition rule_of (df : frame) (k : string) : aggfunc :=
  if numeric_in df k then Sum else First.

(** An entry of [agg_dict] that [groupby(by_).agg] can carry out: the
    column exists, is not the grouping key, and is numeric when summed. *)
Definition entry_ok (df : frame) (by_ : string) (e : string * aggfunc) : Prop :=
  fst e <> by_ /\
  exists c, getitem df (fst e) = Ok c /\
            (snd e = Sum -> is_numeric_dtype c = true).

End Specification.

Section BoundarySpecification.
Context {F : Float64Ops} {G : GeometryOps}.



(** The invariant of a census table that the join relies on: its columns
    are equally long and no further field is labelled like the key. *)
Definition wf_boundaries (b : boundaries) : Prop :=
  col_len (ZCTA5CE20 b) = List.length (boundary_geometry b) /\
  (forall l f, In (l, f) (boundary_fields b) ->
               field_len f = List.length (boundary_geometry b)) /\
  ~ In "ZCTA5CE20" (map fst (boundary_fields b)).

(** The labels of the aggregated table as the merge sees them, and those
    among them that the census table has too. *)
Definition left_labels (zip_data : frame) (zc : string) : list string :=
  columns (rename zc "ZCTA5CE20" zip_data).

Definition clashing (zip_data : frame) (zc : string) (b : boundaries)
    : list string :=
  overlap (left_labels zip_data zc) (right_labels (boundary_fields b)).

(** The fields of the census table in the enriched table of a merge with
    left keys [keys]. *)
Definition census_columns (to_rename : list string) (b : boundaries)
    (keys : list string) : frame :=
  let mask := isin (map HStr (astype_str (ZCTA5CE20 b))) (map HStr keys) in
  map (fun lf =>
         (with_suffix to_rename "_y" (fst lf),
          field_merge (filter_mask mask (astype_str (ZCTA5CE20 b))) keys
                      (field_filter mask (snd lf))))
      (boundary_fields b).

(** The labels of the aggregated table as the merge sees them, when the
    grouping column is not the postal-code column: the key, then the
    retained columns and the grouping column. *)
Definition aggregated_labels (inc : list string) (zc gc : string)
    : list string :=
  "ZCTA5CE20" ::
    unique_by HStr (filter (fun col => negb (String.eqb col zc))
                           (columns_to_aggregate inc gc)).

End BoundarySpecification.

(* ================================================================= *)
(** ** Decimal digits and base64 decoding, for stating properties *)

Definition is_digit (c : ascii) : bool :=
  existsb (Ascii.eqb c) (list_ascii_of_string "0123456789").

(** Exactly five characters, all of them decimal digits. *)
Definition five_digits (s : string) : bool :=
  ((String.length s =? 5)%nat &&
   forallb is_digit (list_ascii_of_string s))%bool.

(** The integers [z], [z+1], ..., [z+n-1] all normalize to five digits. *)
Fixpoint five_digits_from (n : nat) (z : Z) : bool :=
  match n with
  | O => true
  | S n' => (five_digits (zfill 5 (str_of_int z)) &&
             five_digits_from n' (z + 1))%bool
  end.

(** [n] leading zeros in front of a decimal numeral. *)
Fixpoint lead0 (n : nat) (d : Decimal.uint) : Decimal.uint :=
  match n with
  | O => d
  | S n' => Decimal.D0 (lead0 n' d)
  end.

(** The integer that Python's [int(s)] reads from a decimal string. *)
Definition int_of_str (s : string) : option Z :=
  option_map Z.of_int (NilZero.int_of_string s).

Fixpoint index_of (c : ascii) (s : string) (i : N) : option N :=
  match s with
  | EmptyString => None
  | String d s' => if Ascii.eqb c d then Some i else index_of c s' (N.succ i)
  end.

(** The 6-bit digit that a character of the base64 alphabet stands for. *)
Definition b64_index (c : ascii) : option N := index_of c b64_alphabet 0%N.

Definition is_empty (s : string) : bool :=
  match s with EmptyString => true | _ => false end.

(** Standard base64 decoding: four characters give three bytes; padding
    is accepted in the last group only. *)
Fixpoint b64decode (s : string) : option string :=
  match s with
  | EmptyString => Some EmptyString
  | String c0 (String c1 (String c2 (String c3 rest))) =>
      match b64_index c0, b64_index c1 with
      | Some d0, Some d1 =>
          let x := ascii_of_N (d0 * 4 + d1 / 16) in
          if Ascii.eqb c2 b64_pad then
            if (Ascii.eqb c3 b64_pad && is_empty rest)%bool
            then Some (String x EmptyString)
            else None
          else
            match b64_index c2 with
            | Some d2 =>
                let y := ascii_of_N ((d1 mod 16) * 16 + d2 / 4) in
                if Ascii.eqb c3 b64_pad then
                  if is_empty rest
                  then Some (String x (String y EmptyString))
                  else None
                else
                  match b64_index c3 with
                  | Some d3 =>
                      let z := ascii_of_N ((d2 mod 4) * 64 + d3) in
                      option_map
                        (fun r => String x (String y (String z r)))
                        (b64decode rest)
                  | None => None
                  end
            | None => None
            end
      | _, _ => None
      end
  | _ => None
  end.

(** What is left of [s] after the prefix [p], if [s] starts with it. *)
Fixpoint strip_prefix (p s : string) : option string :=
  match p, s with
  | EmptyString, _ => Some s
  | String a p', String b s' =>
      if Ascii.eqb a b then strip_prefix p' s' else None
  | _, EmptyString => None
  end.

(** The characters of [s] before its first double quote. *)
Fixpoint until_quote (s : string) : string :=
  match s with
  | EmptyString => EmptyString
  | String c s' =>
      if Ascii.eqb c (ascii_of_nat 34) then EmptyString
      else String c (until_quote s')
  end.

(** The base64 payload of the [href] attribute of a download link. *)
Definition data_uri_payload (html : string) : option string :=
  option_map until_quote (strip_prefix href_prefix html).

(* ================================================================= *)
(** ** Instances and tables for the closed examples *)

(** For the examples, [float64] is cut down to NaN ([None]) and the
    integer-valued floats, and geometries are tags: natural numbers, merged
    by addition, [0] standing for the empty geometry that the union of no
    polygon gives. *)
Definition example_float_sum (l : list (option Z)) : option Z :=
  Some (fold_left Z.add (map (from_option 0%Z) l) 0%Z).

Definition example_float_str (x : option Z) : string :=
  match x with
  | Some z => (str_of_int z ++ ".0")%string
  | None => "nan"
  end.

Definition example_float_leb (a b : option Z) : bool :=
  match a, b with
  | Some x, Some y => (x <=? y)%Z
  | Some _, None => true
  | None, Some _ => false
  | None, None => true
  end.

#[export] Instance example_floats : Float64Ops | 100 := {|
  float := option Z;
  float_isna := fun x => match x with Some _ => false | None => true end;
  float_key := from_option 0%Z;
  float_leb := example_float_leb;
  float_nan := None;
  float_sum := example_float_sum;
  float_str := example_float_str;
  float_of_int := Some
|}.

Definition some_geometries (l : list (option nat)) : list nat :=
  flat_map (fun o => match o with Some g => [g] | None => [] end) l.

#[export] Instance example_geometries : GeometryOps | 100 := {|
  geometry := nat;
  merge_geometries := fun l => Some (fold_left Nat.add (some_geometries l) O)
|}.

Definition feature_count (gdf : geoframe) : string :=
  (str_of_int (Z.of_nat (List.length (geometry_col gdf))) ++ " features")%string.

(** Stand-ins for the serializers: the number of features, the header
    line, and the archive name with the number of features. *)
#[export] Instance example_exports : ExportOps | 100 := {|
  to_json := feature_count;
  to_csv := fun df => join (map (fun lc => (fst lc ++ ";")%string) df);
  create_zip_file := fun gdf name => (name ++ ": " ++ feature_count gdf)%string
|}.

Section ExampleTables.
Context {F : Float64Ops}.

(** The end-to-end scenario of the specification. *)
Definition scenario_df : frame :=
  [("zip", Object [OStr "501"; OStr "00544"; OStr "90210"]);
   ("state", Object [OStr "NY"; OStr "NY"; OStr "CA"]);
   ("pop", Int64 [100; 50; 200]%Z)].

(** Rows [{zip:"00501", x:3}] and [{zip:"501", x:4}]. *)
Definition two_formats_df : frame :=
  [("zip", Object [OStr "00501"; OStr "501"]);
   ("x", Int64 [3; 4]%Z)].

(** One postal code, twice; the first record has no name. *)
Definition missing_name_df : frame :=
  [("zip", Object [OStr "00501"; OStr "501"]);
   ("state", Object [OStr "NY"; OStr "NY"]);
   ("name", Object [ONaN; OStr "B"])].

(** One postal code under two grouping values. *)
Definition two_states_df : frame :=
  [("zip", Object [OStr "501"; OStr "501"]);
   ("state", Object [OStr "NY"; OStr "NJ"])].

(** A six-digit code in an integer column. *)
Definition long_code_column : column := Int64 [123456%Z].

End ExampleTables.

(** The aggregated table of the scenario, a boundary table that knows two
    of its three codes, and one that knows none. *)
Definition scenario_zip_data : frame :=
  [("zip", Object [OStr "00501"; OStr "00544"; OStr "90210"]);
   ("pop", Int64 [100; 50; 200]%Z);
   ("state", Object [OStr "NY"; OStr "NY"; OStr "CA"])].

Definition scenario_boundaries : boundaries :=
  {| ZCTA5CE20 := Object [OStr "00501"; OStr "90210"; OStr "12345"];
     boundary_fields :=
       [("GEOID20", TextField [OStr "00501"; OStr "90210"; OStr "12345"]);
        ("ALAND20", IntField [700; 800; 900]%Z)];
     boundary_geometry := [Some 1; Some 2; Some 3]%nat |}.

Definition no_boundaries : boundaries :=
  {| ZCTA5CE20 := Object [];
     boundary_fields := [("GEOID20", TextField []); ("ALAND20", IntField [])];
     boundary_geometry := [] |}.

(** Eight distinct grouping values and a permutation of their positions. *)
Definition eight_groups : column :=
  Object [OStr "a"; OStr "b"; OStr "c"; OStr "d";
          OStr "e"; OStr "f"; OStr "g"; OStr "h"].

Definition three_groups : column := Object [OStr "a"; OStr "b"; OStr "c"].

Definition reversed_positions : list nat := rev (seq 0 8).

(** The enriched table of the scenario and the page that the button
    handler builds from the scenario. *)
Definition scenario_final_gdf : geoframe :=
  {| data :=
       [("ZCTA5CE20", Object [OStr "00501"; OStr "00544"; OStr "90210"]);
        ("pop", Int64 [100; 50; 200]%Z);
        ("state", Object [OStr "NY"; OStr "NY"; OStr "CA"]);
        ("GEOID20", Object [OStr "00501"; ONaN; OStr "90210"]);
        ("ALAND20", Float64 [Some 700; None; Some 800]%Z)];
     geometry_col := [Some 1; None; Some 2]%nat |}.

Definition scenario_visual : visual :=
  {| sampled_groups := Object [OStr "NY"; OStr "CA"];
     visual_gdf :=
       {| data :=
            [("state", Object [OStr "CA"; OStr "NY"]);
             ("ZCTA5CE20", Object [OStr "90210"; OStr "0050100544"]);
             ("pop", Int64 [200; 150]%Z);
             ("GEOID20", Object [OStr "90210"; OStr "00501"]);
             ("ALAND20", Float64 [Some 800; Some 700]%Z)];
          geometry_col := [Some 2; Some 1]%nat |} |}.

Definition scenario_page : page :=
  {| page_downloads :=
       {| geojson_string := "3 features";
          csv_string := "ZCTA5CE20;pop;state;GEOID20;ALAND20;";
          shapefile_zip := "output_shapefile.zip: 3 features" |};
     page_visual := Ok (Some scenario_visual) |}.

(** The page built from the scenario when the postal-code column is also
    chosen as the grouping column. *)
Definition scenario_zip_page : page :=
  {| page_downloads :=
       {| geojson_string := "3 features";
          csv_string := "ZCTA5CE20;pop;GEOID20;ALAND20;";
          shapefile_zip := "output_shapefile.zip: 3 features" |};
     page_visual := Raise (KeyError "zip") |}.

(** Stand-ins for the shapefile driver, the directory listing and the
    archiver: three components, a listing in reverse order, and the
    member names as the archive's bytes. *)
#[export] Instance example_zip
  : Archive.ZipOps (F := example_floats) (G := example_geometries) | 100 := {|
  Archive.to_file := fun gdf =>
    [(".shp", feature_count gdf); (".shx", "index"); (".dbf", "attributes")];
  Archive.listdir_order := @rev string;
  Archive.zip_bytes := fun members =>
    join (map (fun m => (fst m ++ ";")%string) members)
|}.

(** An upload in which every record misses its postal code or its
    grouping value, and one with a column labelled like the key of the
    census table. *)
Definition all_missing_df : frame (F := example_floats) :=
  [("zip", Object [ONaN; OStr "501"]);
   ("state", Object [OStr "NY"; ONaN]);
   ("pop", Int64 [1; 2]%Z)].

Definition reserved_label_df : frame (F := example_floats) :=
  [("zip", Object [OStr "501"; OStr "90210"]);
   ("state", Object [OStr "NY"; OStr "CA"]);
   ("ZCTA5CE20", Int64 [1; 2]%Z)].

(** An aggregated table whose postal-code column is labelled like a field
    of the census table, and one with two labels that the suffix ['_x']
    makes equal. *)
Definition geoid_zip_data : frame (F := example_floats) :=
  [("GEOID20", Object [OStr "00501"; OStr "00544"]);
   ("pop", Int64 [100; 50]%Z)].

Definition suffix_clash_zip_data : frame (F := example_floats) :=
  [("zip", Object [OStr "00501"; OStr "00544"]);
   ("ALAND20", Int64 [1; 2]%Z);
   ("ALAND20_x", Int64 [3; 4]%Z)].

(* ================================================================= *)
(** * Properties *)

(** ** Normalization of postal codes *)

Lemma zeros_length (n : nat) : String.length (zeros n) = n.
Proof. induction n; simpl; congruence. Qed.

Lemma append_length (s t : string) :
  String.length (s ++ t)%string = (String.length s + String.length t)%nat.
Proof. induction s; simpl; congruence. Qed.

Lemma zfill_length (w : nat) (s : string) :
  String.length (zfill w s) = Nat.max w (String.length s).
Proof.
  unfold zfill.
  destruct (Nat.leb_spec w (String.length s)) as [Hle | Hlt].
  - lia.
  - destruct s as [| c rest].
    + rewrite zeros_length. simpl in *. lia.
    + destruct (is_sign c); simpl;
        rewrite append_length, zeros_length; simpl in *; lia.
Qed.

Lemma zfill_long (w : nat) (s : string) :
  (w <= String.length s)%nat -> zfill w s = s.
Proof.
  intros H. unfold zfill.
  destruct (Nat.leb_spec w (String.length s)); [reflexivity | lia].
Qed.


(* ================================================================= *)
(** ** Masks, first occurrences and sorting *)

Section ListFacts.
Context {A B : Type}.

Lemma filter_mask_map (f : A -> B) (m : list bool) (xs : list A) :
  filter_mask m (map f xs) = map f (filter_mask m xs).
Proof.
  revert xs. induction m as [| b m IH]; intros [| x xs]; simpl; auto.
  destruct b; simpl; now rewrite IH.
Qed.

Lemma filter_mask_In (m : list bool) (xs : list A) (x : A) :
  In x (filter_mask m xs) -> In x xs.
Proof.
  revert xs. induction m as [| b m IH]; intros [| y xs]; simpl; try tauto.
  destruct b; simpl; intros H; [destruct H |]; auto.
Qed.

Lemma filter_mask_pred (p : A -> bool) (f : A -> B) (l : list A) :
  filter_mask (map p l) (map f l) = map f (filter p l).
Proof.
  induction l as [| a l IH]; simpl; auto.
  destruct (p a); simpl; now rewrite IH.
Qed.

Lemma filter_mask_length (m : list bool) (xs : list A) :
  List.length m = List.length xs ->
  List.length (filter_mask m xs) = List.length (filter (fun b => b) m).
Proof.
  revert xs. induction m as [| b m IH]; intros [| x xs] H; simpl in *;
    try discriminate; auto.
  destruct b; simpl; rewrite IH; auto.
Qed.

Lemma filter_mask_nil (m : list bool) : filter_mask m (@nil A) = [].
Proof. destruct m; reflexivity. Qed.

Lemma map2_length {C} (f : A -> B -> C) (l : list A) (m : list B) :
  List.length (map2 f l m) = Nat.min (List.length l) (List.length m).
Proof.
  revert m. induction l as [| a l IH]; intros [| b m]; simpl; auto.
Qed.

Lemma insert_sorted_perm (leb : A -> A -> bool) (x : A) (l : list A) :
  Permutation (insert_sorted leb x l) (x :: l).
Proof.
  induction l as [| y l IH]; simpl; auto.
  destruct (leb x y); auto.
  rewrite IH. apply perm_swap.
Qed.

Lemma isort_perm (leb : A -> A -> bool) (l : list A) :
  Permutation (isort leb l) l.
Proof.
  induction l as [| x l IH]; simpl; auto.
  rewrite insert_sorted_perm. now constructor.
Qed.

Lemma unique_by_In (key : A -> hkey) (l : list A) (x : A) :
  In x (unique_by key l) -> In x l.
Proof.
  induction l as [| y l IH]; simpl; auto.
  intros [H | H]; auto.
  apply filter_In in H. tauto.
Qed.

Lemma hkey_eqb_eq (a b : hkey) : hkey_eqb a b = true <-> a = b.
Proof.
  unfold hkey_eqb. destruct (hkey_eq_dec a b); split; auto; discriminate.
Qed.

Lemma hkey_eqb_refl (a : hkey) : hkey_eqb a a = true.
Proof. now apply hkey_eqb_eq. Qed.

Lemma hkey_eqb_neq (a b : hkey) : hkey_eqb a b = false <-> a <> b.
Proof.
  unfold hkey_eqb. destruct (hkey_eq_dec a b); split; auto;
    try discriminate; tauto.
Qed.

Lemma unique_by_keys_In (key : A -> hkey) (l : list A) (h : hkey) :
  In h (map key (unique_by key l)) <-> In h (map key l).
Proof.
  induction l as [| y l IH]; simpl; [tauto |].
  split.
  - intros [H | H]; auto.
    apply in_map_iff in H. destruct H as (x & Hx & Hin).
    apply filter_In in Hin. right. apply IH. apply in_map_iff. exists x. tauto.
  - intros [H | H]; auto.
    destruct (hkey_eq_dec h (key y)) as [-> | Hne]; auto.
    right. apply IH in H. apply in_map_iff in H. destruct H as (x & Hx & Hin).
    apply in_map_iff. exists x. split; auto.
    apply filter_In. split; auto.
    apply negb_true_iff, hkey_eqb_neq. congruence.
Qed.

Lemma NoDup_map_filter (key : A -> hkey) (p : A -> bool) (l : list A) :
  NoDup (map key l) -> NoDup (map key (filter p l)).
Proof.
  induction l as [| x l IH]; simpl; auto.
  intros H. inversion H as [| ? ? Hn Hd]; subst.
  destruct (p x); simpl; auto.
  constructor; auto.
  intros Hin. apply Hn.
  apply in_map_iff in Hin. destruct Hin as (y & Hy & Hin).
  apply filter_In in Hin. apply in_map_iff. exists y. tauto.
Qed.

Lemma unique_by_keys_NoDup (key : A -> hkey) (l : list A) :
  NoDup (map key (unique_by key l)).
Proof.
  induction l as [| y l IH]; simpl; [constructor |].
  constructor.
  - intros Hin. apply in_map_iff in Hin. destruct Hin as (x & Hx & Hin).
    apply filter_In in Hin. destruct Hin as [_ Hne].
    apply negb_true_iff, hkey_eqb_neq in Hne. congruence.
  - now apply NoDup_map_filter.
Qed.

Lemma groups_of_perm (key : A -> hkey) (leb : A -> A -> bool) (xs : list A) :
  Permutation (groups_of key leb xs)
    (filter (fun x => negb (hkey_isna (key x))) (unique_by key xs)).
Proof. apply isort_perm. Qed.

Lemma groups_of_keys_NoDup (key : A -> hkey) (leb : A -> A -> bool)
    (xs : list A) :
  NoDup (map key (groups_of key leb xs)).
Proof.
  eapply Permutation_NoDup.
  - apply Permutation_map. symmetry. apply groups_of_perm.
  - apply NoDup_map_filter, unique_by_keys_NoDup.
Qed.

Lemma groups_of_keys_In (key : A -> hkey) (leb : A -> A -> bool)
    (xs : list A) (h : hkey) :
  In h (map key (groups_of key leb xs)) <->
  In h (map key xs) /\ h <> HNaN.
Proof.
  split.
  - intros H.
    apply (Permutation_in _ (Permutation_map key (groups_of_perm key leb xs)))
      in H.
    apply in_map_iff in H. destruct H as (x & <- & Hin).
    apply filter_In in Hin. destruct Hin as [Hin Hna].
    split; [apply in_map, (unique_by_In _ _ _ Hin) |].
    intros Heq. rewrite Heq in Hna. discriminate.
  - intros [H Hna].
    apply (Permutation_in _
             (Permutation_sym
                (Permutation_map key (groups_of_perm key leb xs)))).
    apply unique_by_keys_In in H.
    apply in_map_iff in H. destruct H as (x & <- & Hin).
    apply in_map, filter_In. split; auto.
    destruct (key x); simpl; congruence.
Qed.

Lemma groups_of_In (key : A -> hkey) (leb : A -> A -> bool)
    (xs : list A) (x : A) :
  In x (groups_of key leb xs) -> In x xs.
Proof.
  intros H. apply (Permutation_in _ (groups_of_perm key leb xs)) in H.
  apply filter_In in H. apply unique_by_In with key. tauto.
Qed.

Lemma first_mask_spec (dec : forall a b : A, {a = b} + {a <> b})
    (seen l : list A) :
  NoDup (filter_mask (first_mask dec seen l) l) /\
  (forall k, In k (filter_mask (first_mask dec seen l) l) <->
             In k l /\ ~ In k seen).
Proof.
  revert seen. induction l as [| a l IH]; simpl; intros seen.
  - split; [constructor | tauto].
  - destruct (in_dec dec a seen) as [Hin | Hnin]; simpl.
    + destruct (IH seen) as [Hnd Hiff]. split; auto.
      intros k. rewrite Hiff. split; [tauto |].
      intros [[-> | H] Hk]; tauto.
    + destruct (IH (a :: seen)) as [Hnd Hiff]. split.
      * constructor; auto. rewrite Hiff. simpl. tauto.
      * intros k. rewrite Hiff. simpl. split.
        -- intros [-> | [H1 H2]]; tauto.
        -- intros [[-> | H] Hk]; auto.
           destruct (dec a k) as [-> | Hne]; auto. right. tauto.
Qed.

Lemma first_mask_map_inj (decA : forall a b : A, {a = b} + {a <> b})
    (decB : forall a b : B, {a = b} + {a <> b}) (f : A -> B)
    (seen l : list A) :
  (forall x y, f x = f y -> x = y) ->
  first_mask decB (map f seen) (map f l) = first_mask decA seen l.
Proof.
  intros Hinj. revert seen. induction l as [| a l IH]; simpl; intros seen; auto.
  destruct (in_dec decB (f a) (map f seen)) as [Hin | Hnin];
    destruct (in_dec decA a seen) as [Hin' | Hnin'].
  - now rewrite IH.
  - exfalso. apply in_map_iff in Hin. destruct Hin as (x & Hx & Hin).
    apply Hinj in Hx. now subst.
  - exfalso. apply Hnin. now apply in_map.
  - f_equal. apply (IH (a :: seen)).
Qed.

Lemma map2_map_map {C D} (h : B -> C -> D) (f : A -> B) (g : A -> C)
    (l : list A) :
  map2 h (map f l) (map g l) = map (fun x => h (f x) (g x)) l.
Proof. induction l as [| a l IH]; simpl; congruence. Qed.

Lemma repeat_map (b : B) (l : list A) :
  repeat b (List.length l) = map (fun _ => b) l.
Proof. induction l as [| a l IH]; simpl; congruence. Qed.

End ListFacts.

(* ================================================================= *)
(** ** Frames: lookup, assignment, masks *)

Section FrameFacts.
Context {F : Float64Ops}.

Lemma has_column_getitem (df : frame) (l : string) :
  has_column df l = true <-> exists c, getitem df l = Ok c.
Proof.
  unfold has_column, columns.
  induction df as [| [l' c'] df IH]; simpl.
  - split; [discriminate | intros [c H]; discriminate].
  - rewrite String.eqb_sym. destruct (String.eqb l' l); simpl.
    + split; eauto.
    + exact IH.
Qed.

Lemma getitem_In (df : frame) (l : string) (c : column) :
  getitem df l = Ok c -> In (l, c) df.
Proof.
  induction df as [| [l' c'] df IH]; simpl; [discriminate |].
  destruct (String.eqb_spec l' l) as [-> | Hne].
  - intros H. inversion H. auto.
  - auto.
Qed.

Lemma getitem_frame_filter (m : list bool) (df : frame) (l : string) :
  getitem (frame_filter m df) l =
  (c <- getitem df l ;; Ok (col_filter m c)).
Proof.
  induction df as [| [l' c'] df IH]; simpl; auto.
  destruct (String.eqb l' l); simpl; auto.
Qed.

Lemma getitem_setitem_same (df : frame) (l : string) (c : column) :
  getitem (setitem df l c) l = Ok c.
Proof.
  induction df as [| [l' c'] df IH]; simpl.
  - now rewrite String.eqb_refl.
  - destruct (String.eqb l' l) eqn:He; simpl; rewrite He; auto.
Qed.

Lemma getitem_setitem_other (df : frame) (l l' : string) (c : column) :
  l' <> l -> getitem (setitem df l c) l' = getitem df l'.
Proof.
  intros Hne. induction df as [| [k c'] df IH]; simpl.
  - destruct (String.eqb_spec l l'); congruence.
  - destruct (String.eqb_spec k l) as [-> | Hkl]; simpl.
    + destruct (String.eqb_spec l l'); congruence.
    + destruct (String.eqb k l'); auto.
Qed.

Lemma columns_frame_filter (m : list bool) (df : frame) :
  columns (frame_filter m df) = columns df.
Proof. unfold columns, frame_filter. rewrite map_map. reflexivity. Qed.

Lemma has_column_setitem (df : frame) (l k : string) (c : column) :
  has_column df k = true -> has_column (setitem df l c) k = true.
Proof.
  rewrite !has_column_getitem. intros [c' H].
  destruct (String.eqb_spec k l) as [-> | Hne].
  - exists c. apply getitem_setitem_same.
  - exists c'. now rewrite getitem_setitem_other.
Qed.

Lemma has_column_frame_filter (m : list bool) (df : frame) (k : string) :
  has_column (frame_filter m df) k = has_column df k.
Proof. unfold has_column. now rewrite columns_frame_filter. Qed.

Lemma astype_str_filter (m : list bool) (c : column) :
  astype_str (col_filter m c) = filter_mask m (astype_str c).
Proof. destruct c; simpl; now rewrite filter_mask_map. Qed.

Lemma col_hkeys_filter (m : list bool) (c : column) :
  col_hkeys (col_filter m c) = filter_mask m (col_hkeys c).
Proof. destruct c; simpl; now rewrite filter_mask_map. Qed.

Lemma is_numeric_dtype_filter (m : list bool) (c : column) :
  is_numeric_dtype (col_filter m c) = is_numeric_dtype c.
Proof. destruct c; reflexivity. Qed.

Lemma col_len_hkeys (c : column) : List.length (col_hkeys c) = col_len c.
Proof. destruct c; simpl; apply length_map. Qed.

Lemma col_len_astype_str (c : column) :
  List.length (astype_str c) = col_len c.
Proof. destruct c; simpl; apply length_map. Qed.

Lemma col_len_isna (c : column) : List.length (col_isna c) = col_len c.
Proof. unfold col_isna. now rewrite length_map, col_len_hkeys. Qed.

Lemma map2_andb_true (n : nat) (m : list bool) :
  List.length m = n -> map2 andb (repeat true n) m = m.
Proof.
  revert n. induction m as [| b m IH]; intros [| n] H; simpl in *;
    try discriminate; auto.
  f_equal. apply IH. congruence.
Qed.

Lemma map2_negb_andb (a b : list bool) :
  map2 andb (map negb a) (map negb b) =
  map2 (fun x y => negb x && negb y) a b.
Proof.
  revert b. induction a as [| x a IH]; intros [| y b]; simpl; auto.
  now rewrite IH.
Qed.

(** Lines 44-46 on a frame that has both columns. *)
Lemma clean_ok (df : frame) (zc gc : string) (z g : column) :
  wf_frame df ->
  getitem df zc = Ok z ->
  getitem df gc = Ok g ->
  clean df zc gc = Ok (cleaned df zc z g).
Proof.
  intros Hwf Hz Hg. unfold clean, dropna. simpl.
  rewrite Hz, Hg. simpl.
  rewrite map2_andb_true.
  2:{ rewrite length_map, col_len_isna. apply (Hwf zc), getitem_In, Hz. }
  rewrite map2_negb_andb. fold (surviving z g).
  rewrite getitem_frame_filter, Hz. simpl.
  unfold normalize_zip, surviving_codes. now rewrite astype_str_filter.
Qed.

Lemma cleaned_zip (df : frame) (zc : string) (z g : column) :
  getitem (cleaned df zc z g) zc = Ok (str_column (surviving_codes z g)).
Proof. apply getitem_setitem_same. Qed.

Lemma cleaned_other (df : frame) (zc k : string) (z g : column) :
  k <> zc ->
  getitem (cleaned df zc z g) k =
  (c <- getitem df k ;; Ok (col_filter (surviving z g) c)).
Proof.
  intros Hne. unfold cleaned.
  now rewrite getitem_setitem_other, getitem_frame_filter.
Qed.

Lemma cleaned_has_column (df : frame) (zc k : string) (z g : column) :
  has_column df k = true -> has_column (cleaned df zc z g) k = true.
Proof.
  intros H. apply has_column_setitem. now rewrite has_column_frame_filter.
Qed.

Lemma cleaned_zip_not_numeric (df : frame) (zc : string) (z g : column) :
  numeric_in (cleaned df zc z g) zc = false.
Proof. unfold numeric_in. now rewrite cleaned_zip. Qed.

Lemma wf_frame_forallb (df : frame) :
  forallb (fun lc => Nat.eqb (col_len (snd lc)) (nrows df)) df = true ->
  wf_frame df.
Proof.
  intros H l c Hin. rewrite forallb_forall in H.
  apply Nat.eqb_eq. apply (H (l, c) Hin).
Qed.

End FrameFacts.

(* ================================================================= *)
(** ** The aggregation dictionary and [groupby.agg] *)

Section AggregatorFacts.
Context {F : Float64Ops}.

Lemma mapM_ok {A B} (f : A -> result B) (l : list A) :
  (forall a, In a l -> exists b, f a = Ok b) ->
  exists bs, mapM f l = Ok bs.
Proof.
  induction l as [| a l IH]; simpl; intros H; [eauto |].
  destruct (H a) as [b Hb]; auto. rewrite Hb. simpl.
  destruct IH as [bs Hbs]; auto. rewrite Hbs. simpl. eauto.
Qed.

Lemma mapM_Forall2 {A B} (f : A -> result B) (l : list A) (bs : list B) :
  mapM f l = Ok bs -> Forall2 (fun a b => f a = Ok b) l bs.
Proof.
  revert bs. induction l as [| a l IH]; simpl; intros bs H.
  - inversion H. constructor.
  - destruct (f a) as [b |] eqn:Hb; simpl in H; [| discriminate].
    destruct (mapM f l) as [bs' |] eqn:Hbs; simpl in H; [| discriminate].
    inversion H; subst. constructor; auto.
Qed.

Lemma mapM_length {A B} (f : A -> result B) (l : list A) (bs : list B) :
  mapM f l = Ok bs -> List.length bs = List.length l.
Proof.
  intros H. apply mapM_Forall2 in H. symmetry.
  eapply Forall2_length; eauto.
Qed.

Lemma dict_get_set (d : dict) (k k' : string) (v : aggfunc) :
  dict_get (dict_set d k v) k' =
  if String.eqb k k' then Some v else dict_get d k'.
Proof.
  induction d as [| [k0 v0] d IH]; simpl; auto.
  destruct (String.eqb_spec k0 k) as [-> | Hne]; simpl.
  - destruct (String.eqb k k'); auto.
  - rewrite IH. destruct (String.eqb_spec k0 k'); auto.
    subst. destruct (String.eqb_spec k k'); congruence.
Qed.

Lemma dict_set_Forall (P : string * aggfunc -> Prop) (d : dict)
    (k : string) (v : aggfunc) :
  Forall P d -> P (k, v) -> Forall P (dict_set d k v).
Proof.
  intros Hd Hk. induction d as [| [k0 v0] d IH]; simpl.
  - constructor; auto.
  - inversion Hd; subst.
    destruct (String.eqb_spec k0 k) as [-> | Hne]; constructor; auto.
Qed.

Lemma dict_set_nonempty (d : dict) (k : string) (v : aggfunc) :
  dict_set d k v <> [].
Proof. destruct d as [| [k0 v0] d]; simpl; [| destruct (String.eqb k0 k)]; discriminate. Qed.

Lemma fold_first_Forall (P : string * aggfunc -> Prop) (l : list string)
    (d : dict) :
  Forall P d -> (forall col, In col l -> P (col, First)) ->
  Forall P (fold_left (fun d col => dict_set d col First) l d).
Proof.
  revert d. induction l as [| col l IH]; simpl; intros d Hd Hl; auto.
  apply IH; auto. apply dict_set_Forall; auto.
Qed.

Lemma fold_first_get (l : list string) (d : dict) (k : string) :
  dict_get (fold_left (fun d col => dict_set d col First) l d) k =
  if existsb (String.eqb k) l then Some First else dict_get d k.
Proof.
  revert d. induction l as [| col l IH]; simpl; intros d; auto.
  rewrite IH, dict_get_set, (String.eqb_sym k col).
  destruct (String.eqb col k); simpl; auto.
  destruct (existsb (String.eqb k) l); auto.
Qed.

Lemma fold_first_nonempty (l : list string) (d : dict) :
  (d <> [] \/ l <> []) ->
  fold_left (fun d col => dict_set d col First) l d <> [].
Proof.
  revert d. induction l as [| col l IH]; simpl; intros d H.
  - destruct H; congruence.
  - apply IH. left. apply dict_set_nonempty.
Qed.

Lemma existsb_filter_neq (k zc : string) (l : list string) :
  existsb (String.eqb k) (filter (fun col => negb (String.eqb col zc)) l) =
  existsb (String.eqb k) l && negb (String.eqb k zc).
Proof.
  induction l as [| c l IH]; simpl; auto.
  destruct (String.eqb_spec c zc) as [-> | Hne]; simpl.
  - rewrite IH. destruct (String.eqb_spec k zc); simpl; auto.
    now rewrite !andb_false_r.
  - rewrite IH. destruct (String.eqb_spec k c) as [-> | Hkc]; simpl; auto.
    destruct (String.eqb_spec c zc); simpl; congruence.
Qed.

(** Line 53. *)
Lemma agg_dict_init_get (cols : list string) (zc k : string) :
  dict_get (agg_dict_init cols zc) k =
  if existsb (String.eqb k) cols && negb (String.eqb k zc)
  then Some First else None.
Proof.
  unfold agg_dict_init. rewrite fold_first_get, existsb_filter_neq.
  reflexivity.
Qed.

(** Lines 54-56. *)
Lemma agg_dict_numeric_get (df : frame) (cols : list string) :
  (forall col, In col cols -> has_column df col = true) ->
  forall d, exists d',
    agg_dict_numeric df cols d = Ok d' /\
    (d <> [] -> d' <> []) /\
    (forall k, dict_get d' k =
               if existsb (String.eqb k) cols && numeric_in df k
               then Some Sum else dict_get d k) /\
    (forall P : string * aggfunc -> Prop,
       Forall P d ->
       (forall col, In col cols -> numeric_in df col = true -> P (col, Sum)) ->
       Forall P d').
Proof.
  induction cols as [| col cols IH]; simpl; intros Hcols d.
  - exists d. repeat split; auto.
  - destruct (proj1 (has_column_getitem df col)) as [c Hc]; auto.
    rewrite Hc. simpl.
    destruct (IH (fun x Hx => Hcols x (or_intror Hx))
                 (if is_numeric_dtype c then dict_set d col Sum else d))
      as (d' & Hd' & Hne & Hget & HP).
    exists d'. split; [exact Hd' |]. split; [| split].
    + intros Hd. apply Hne. destruct (is_numeric_dtype c); auto.
      apply dict_set_nonempty.
    + intros k. rewrite Hget.
      destruct (String.eqb_spec k col) as [-> | Hk]; simpl.
      * unfold numeric_in at 1 2. rewrite Hc.
        destruct (is_numeric_dtype c); simpl.
        -- destruct (existsb _ cols); auto.
           now rewrite dict_get_set, String.eqb_refl.
        -- now rewrite andb_false_r.
      * destruct (existsb (String.eqb k) cols && numeric_in df k); auto.
        destruct (is_numeric_dtype c); auto.
        rewrite dict_get_set. destruct (String.eqb_spec col k); congruence.
    + intros P Hd Hsum. apply HP; auto.
      destruct (is_numeric_dtype c) eqn:Hn; auto.
      apply dict_set_Forall; auto. apply Hsum; auto.
      unfold numeric_in. now rewrite Hc.
Qed.

Lemma agg_column_len (f : aggfunc) (ks gs : list hkey) (c r : column) :
  agg_column f ks gs c = Ok r -> col_len r = List.length gs.
Proof.
  destruct f, c; simpl; intros H; try (inversion H; subst; simpl;
    now rewrite length_map).
  destruct (mapM _ gs) as [os |] eqn:Hos; simpl in H; [| discriminate].
  inversion H; subst. simpl. eapply mapM_length; eauto.
Qed.

Lemma agg_column_ok (f : aggfunc) (ks gs : list hkey) (c : column) :
  (f = Sum -> is_numeric_dtype c = true) ->
  exists r, agg_column f ks gs c = Ok r.
Proof.
  destruct f, c; simpl; intros H; eauto.
  specialize (H eq_refl). discriminate.
Qed.

(** The column that [groupby.agg] produces under a label is the one the
    dictionary prescribes for it. *)
Lemma mapM_agg_one_get (df : frame) (ks gs : list hkey) (d : dict)
    (cols : frame) (k : string) :
  mapM (agg_one df ks gs) d = Ok cols ->
  getitem cols k =
  match dict_get d k with
  | Some f => c <- getitem df k ;; agg_column f ks gs c
  | None => Raise (KeyError k)
  end.
Proof.
  revert cols. induction d as [| [k0 v0] d IH]; simpl; intros cols H.
  - inversion H. reflexivity.
  - unfold agg_one at 1 in H. simpl in H.
    destruct (getitem df k0) as [c |] eqn:Hc; simpl in H; [| discriminate].
    destruct (agg_column v0 ks gs c) as [r |] eqn:Hr; simpl in H;
      [| discriminate].
    destruct (mapM (agg_one df ks gs) d) as [cols' |] eqn:Hm; simpl in H;
      [| discriminate].
    inversion H; subst. simpl.
    destruct (String.eqb_spec k0 k) as [-> | Hne].
    + rewrite Hc. simpl. now rewrite Hr.
    + now apply IH.
Qed.

Lemma mapM_agg_one_labels (df : frame) (ks gs : list hkey) (d : dict)
    (cols : frame) :
  mapM (agg_one df ks gs) d = Ok cols -> columns cols = map fst d.
Proof.
  revert cols. induction d as [| [k0 v0] d IH]; simpl; intros cols H.
  - inversion H. reflexivity.
  - unfold agg_one at 1 in H. simpl in H.
    destruct (getitem df k0) as [c |]; simpl in H; [| discriminate].
    destruct (agg_column v0 ks gs c) as [r |]; simpl in H; [| discriminate].
    destruct (mapM (agg_one df ks gs) d) as [cols' |]; simpl in H;
      [| discriminate].
    inversion H; subst. simpl. f_equal. now apply IH.
Qed.

Lemma mapM_agg_one_len (df : frame) (ks gs : list hkey) (d : dict)
    (cols : frame) :
  mapM (agg_one df ks gs) d = Ok cols ->
  forall l c, In (l, c) cols -> col_len c = List.length gs.
Proof.
  revert cols. induction d as [| [k0 v0] d IH]; simpl; intros cols H l c Hin.
  - inversion H; subst. destruct Hin.
  - unfold agg_one at 1 in H. simpl in H.
    destruct (getitem df k0) as [c0 |]; simpl in H; [| discriminate].
    destruct (agg_column v0 ks gs c0) as [r |] eqn:Hr; simpl in H;
      [| discriminate].
    destruct (mapM (agg_one df ks gs) d) as [cols' |]; simpl in H;
      [| discriminate].
    inversion H; subst. destruct Hin as [Heq | Hin].
    + inversion Heq; subst. eapply agg_column_len; eauto.
    + eapply IH; eauto.
Qed.

(** [groupby(by_).agg(d).reset_index()] goes through when every entry of
    the dictionary can be carried out. *)
Lemma groupby_agg_ok (df : frame) (by_ : string) (kc : column) (d : dict) :
  getitem df by_ = Ok kc ->
  Forall (entry_ok df by_) d ->
  exists cols,
    mapM (agg_one df (col_hkeys kc) (col_hkeys (col_groups kc))) d = Ok cols /\
    groupby_agg by_ d df = Ok ((by_, col_groups kc) :: cols).
Proof.
  intros Hk Hd. unfold groupby_agg. rewrite Hk. simpl.
  destruct (mapM_ok (agg_one df (col_hkeys kc) (col_hkeys (col_groups kc))) d)
    as [cols Hcols].
  { intros [k v] Hin. rewrite Forall_forall in Hd.
    destruct (Hd _ Hin) as (_ & c & Hc & Hnum). simpl in *.
    destruct (agg_column_ok v (col_hkeys kc) (col_hkeys (col_groups kc)) c Hnum)
      as [r Hr].
    exists (k, r). unfold agg_one. simpl. rewrite Hc. simpl. now rewrite Hr. }
  exists cols. split; auto. rewrite Hcols. simpl.
  unfold reset_index.
  replace (has_column cols by_) with false; auto.
  symmetry. apply not_true_is_false. unfold has_column.
  rewrite (mapM_agg_one_labels _ _ _ _ _ Hcols).
  intros Hex. apply existsb_exists in Hex. destruct Hex as (x & Hin & Heq).
  apply String.eqb_eq in Heq. subst x.
  apply in_map_iff in Hin. destruct Hin as (e & He & Hin).
  rewrite Forall_forall in Hd. destruct (Hd _ Hin) as [Hne _]. congruence.
Qed.

(** The groups of a column of strings. *)
Lemma groups_of_strings (codes : list string) :
  exists keys,
    groups_of obj_hkey obj_leb (map OStr codes) = map OStr keys /\
    NoDup keys /\ (forall k, In k keys <-> In k codes).
Proof.
  set (gs := groups_of obj_hkey obj_leb (map OStr codes)).
  assert (Hall : forall o, In o gs -> exists s, o = OStr s /\ In s codes).
  { intros o Ho. apply groups_of_In in Ho. apply in_map_iff in Ho.
    destruct Ho as (s & <- & Hs). eauto. }
  assert (Hgs : gs = map OStr (map str_of_obj gs)).
  { clearbody gs. induction gs as [| o gs IH]; simpl; auto.
    destruct (Hall o) as (s & -> & _); simpl; auto.
    f_equal. apply IH. intros; apply Hall; simpl; auto. }
  exists (map str_of_obj gs). split; [exact Hgs |]. split.
  - apply (NoDup_map_inv HStr).
    replace (map HStr (map str_of_obj gs)) with (map obj_hkey gs).
    + apply groups_of_keys_NoDup.
    + rewrite Hgs at 1. now rewrite !map_map.
  - intros k.
    assert (Hk : In k (map str_of_obj gs) <-> In (HStr k) (map obj_hkey gs)).
    { rewrite Hgs at 2. rewrite !map_map. simpl.
      rewrite <- (map_map str_of_obj HStr).
      split; [apply in_map |].
      intros H. apply in_map_iff in H. destruct H as (x & Hx & Hin).
      inversion Hx; subst. exact Hin. }
    rewrite Hk. unfold gs. rewrite groups_of_keys_In, map_map. simpl.
    split.
    + intros [H _]. apply in_map_iff in H. destruct H as (x & Hx & Hin).
      inversion Hx; subst. exact Hin.
    + intros H. split; [| discriminate].
      apply in_map_iff. eauto.
Qed.

Lemma distinct_count (keys codes : list string) :
  NoDup keys -> (forall k, In k keys <-> In k codes) ->
  List.length keys = List.length (nodup string_dec codes).
Proof.
  intros Hnd Hin. apply Permutation_length, NoDup_Permutation; auto.
  - apply NoDup_nodup.
  - intros k. rewrite nodup_In. apply Hin.
Qed.

Lemma columns_to_aggregate_In (inc : list string) (gc c : string) :
  In c (columns_to_aggregate inc gc) -> In c inc \/ c = gc.
Proof.
  unfold columns_to_aggregate.
  destruct (existsb _ _); intros H.
  - apply filter_In in H. tauto.
  - apply in_app_iff in H. destruct H as [H | [H | []]]; auto.
    apply filter_In in H. tauto.
Qed.

Lemma columns_to_aggregate_group (inc : list string) (gc : string) :
  In gc (columns_to_aggregate inc gc).
Proof.
  unfold columns_to_aggregate.
  destruct (existsb _ _) eqn:He.
  - apply existsb_exists in He. destruct He as (x & Hx & Heq).
    apply String.eqb_eq in Heq. now subst.
  - apply in_app_iff. right. simpl. auto.
Qed.

Lemma existsb_eqb_In (k : string) (l : list string) :
  existsb (String.eqb k) l = true <-> In k l.
Proof.
  rewrite existsb_exists. split.
  - intros (x & Hx & Heq). apply String.eqb_eq in Heq. now subst.
  - intros H. exists k. split; auto. apply String.eqb_refl.
Qed.

(** Lines 40-51 on a table that has both columns: the checks pass and
    the cleaned table is handed to the dictionary construction. *)
Lemma aggregate_unfold (df : frame) (zc gc : string) (inc : list string)
    (z g : column) :
  wf_frame df ->
  getitem df zc = Ok z ->
  getitem df gc = Ok g ->
  aggregate df zc gc (Some inc) =
  (agg_dict <- agg_dict_numeric (cleaned df zc z g)
                 (columns_to_aggregate inc gc)
                 (agg_dict_init (columns_to_aggregate inc gc) zc) ;;
   match agg_dict with
   | _ :: _ => groupby_agg zc agg_dict (cleaned df zc z g)
   | [] =>
       sel <- getitems (cleaned df zc z g) [zc; gc] ;;
       Ok (drop_duplicates sel)
   end).
Proof.
  intros Hwf Hz Hg.
  assert (Hhz : has_column df zc = true) by (apply has_column_getitem; eauto).
  assert (Hhg : has_column df gc = true) by (apply has_column_getitem; eauto).
  unfold aggregate. rewrite Hhz, Hhg. simpl.
  rewrite (clean_ok df zc gc z g Hwf Hz Hg). reflexivity.
Qed.

(** Lines 40-63 on a well-formed call: the dictionary holds, for every
    column to aggregate other than the postal-code column, the reduction
    that its dtype prescribes; the table is grouped by postal code, except
    that an empty dictionary (which needs the grouping column to be the
    postal-code column) leads to [drop_duplicates]. *)
Lemma aggregate_cases (df : frame) (zc gc : string) (inc : list string)
    (z g : column) :
  wf_frame df ->
  getitem df zc = Ok z ->
  getitem df gc = Ok g ->
  (forall c, In c inc -> has_column df c = true) ->
  exists d,
    (forall k, dict_get d k =
       if existsb (String.eqb k) (columns_to_aggregate inc gc)
          && negb (String.eqb k zc)
       then Some (rule_of (cleaned df zc z g) k) else None) /\
    ((exists cols,
        mapM (agg_one (cleaned df zc z g)
                (map HStr (surviving_codes z g))
                (col_hkeys (col_groups (str_column (surviving_codes z g)))))
             d = Ok cols /\
        aggregate df zc gc (Some inc) =
        Ok ((zc, col_groups (str_column (surviving_codes z g))) :: cols))
     \/
     (gc = zc /\ d = [] /\
      aggregate df zc gc (Some inc) =
      Ok (drop_duplicates
            [(zc, str_column (surviving_codes z g));
             (zc, str_column (surviving_codes z g))]))).
Proof.
  intros Hwf Hz Hg Hinc.
  set (dfc := cleaned df zc z g).
  set (cta := columns_to_aggregate inc gc).
  assert (Hhz : has_column df zc = true) by (apply has_column_getitem; eauto).
  assert (Hhg : has_column df gc = true) by (apply has_column_getitem; eauto).
  assert (Hcta : forall col, In col cta -> has_column dfc col = true).
  { intros col Hin. apply cleaned_has_column.
    apply columns_to_aggregate_In in Hin. destruct Hin as [H | ->]; auto. }
  destruct (agg_dict_numeric_get dfc cta Hcta (agg_dict_init cta zc))
    as (d & Hd & Hne & Hget & HP).
  assert (Hok : Forall (entry_ok dfc zc) d).
  { apply HP.
    - unfold agg_dict_init. apply fold_first_Forall; [constructor |].
      intros col Hin. apply filter_In in Hin. destruct Hin as [Hin Hneq].
      apply negb_true_iff in Hneq.
      split; simpl; [destruct (String.eqb_spec col zc); congruence |].
      apply Hcta, has_column_getitem in Hin. destruct Hin as [c Hc].
      exists c. split; auto. discriminate.
    - intros col Hin Hnum. split; simpl.
      + intros ->. unfold dfc in Hnum.
        rewrite cleaned_zip_not_numeric in Hnum. discriminate.
      + unfold numeric_in in Hnum.
        destruct (getitem dfc col) as [c |]; [| discriminate]. eauto. }
  exists d. split.
  { intros k. rewrite Hget, agg_dict_init_get. fold cta. unfold rule_of.
    destruct (existsb (String.eqb k) cta); simpl; auto.
    destruct (String.eqb_spec k zc) as [-> | Hk]; simpl.
    - unfold dfc. now rewrite cleaned_zip_not_numeric.
    - destruct (numeric_in dfc k); auto. }
  assert (Hagg : aggregate df zc gc (Some inc) =
                 match d with
                 | _ :: _ => groupby_agg zc d dfc
                 | [] => sel <- getitems dfc [zc; gc] ;; Ok (drop_duplicates sel)
                 end).
  { rewrite (aggregate_unfold df zc gc inc z g Hwf Hz Hg).
    fold dfc. fold cta. rewrite Hd. reflexivity. }
  assert (Hzc : getitem dfc zc = Ok (str_column (surviving_codes z g)))
    by apply cleaned_zip.
  destruct d as [| e d].
  - right.
    assert (Heq : gc = zc).
    { destruct (string_dec gc zc) as [| Hneq]; auto.
      exfalso. apply Hne; auto. unfold agg_dict_init.
      apply fold_first_nonempty. right.
      intros Hnil.
      assert (Hin : In gc (filter (fun col => negb (String.eqb col zc)) cta)).
      { apply filter_In. split; [apply columns_to_aggregate_group |].
        destruct (String.eqb_spec gc zc); simpl; congruence. }
      rewrite Hnil in Hin. destruct Hin. }
    split; auto. split; auto.
    rewrite Hagg. unfold getitems. simpl. rewrite Heq, Hzc. reflexivity.
  - left.
    destruct (groupby_agg_ok dfc zc _ (e :: d) Hzc Hok) as (cols & Hcols & Hgb).
    exists cols. split.
    + unfold str_column in Hcols. simpl in Hcols. rewrite map_map in Hcols.
      exact Hcols.
    + rewrite Hagg. exact Hgb.
Qed.

End AggregatorFacts.

(* ================================================================= *)
(** ** The aggregator: one row per postal code *)

Section AggregatorCount.
Context {F : Float64Ops}.

(** [drop_duplicates] on the table that carries the normalized codes twice
    (the fallback of lines 60-61, reached when the grouping column is the
    postal-code column). *)
Lemma drop_duplicates_codes (zc : string) (codes : list string) :
  exists keys,
    drop_duplicates [(zc, str_column codes); (zc, str_column codes)] =
    [(zc, str_column keys); (zc, str_column keys)] /\
    NoDup keys /\ (forall k, In k keys <-> In k codes).
Proof.
  exists (filter_mask (first_mask string_dec [] codes) codes).
  destruct (first_mask_spec string_dec [] codes) as [Hnd Hiff].
  split; [| split; auto; intros k; rewrite Hiff; simpl; tauto].
  unfold drop_duplicates, row_keys, frame_filter, str_column. simpl.
  rewrite !length_map, !map_map, (repeat_map [] codes).
  rewrite !map2_map_map.
  assert (Hm : first_mask row_key_eq_dec []
                 (map (fun x : string => [obj_hkey (OStr x); obj_hkey (OStr x)])
                      codes) = first_mask string_dec [] codes).
  { apply (first_mask_map_inj string_dec row_key_eq_dec
             (fun s => [HStr s; HStr s]) [] codes).
    intros x y H. now inversion H. }
  rewrite Hm. now rewrite !filter_mask_map.
Qed.

(** C1. For every table that has the postal-code column and the grouping
    column, and every retain-list of columns of the table, the aggregation
    step succeeds and its output has exactly one row per distinct
    normalized postal code among the records whose postal code and
    grouping value are both present: the key column lists those codes
    without repetition, every column has that many cells, and the row
    count is the number of distinct surviving codes. *)
Theorem aggregate_one_row_per_code (df : frame) (zc gc : string)
    (inc : list string) (z g : column) :
  wf_frame df ->
  getitem df zc = Ok z ->
  getitem df gc = Ok g ->
  (forall c, In c inc -> has_column df c = true) ->
  exists zip_data keys,
    aggregate df zc gc (Some inc) = Ok zip_data /\
    getitem zip_data zc = Ok (str_column keys) /\
    NoDup keys /\
    (forall k, In k keys <-> In k (surviving_codes z g)) /\
    wf_frame zip_data /\
    nrows zip_data = List.length (nodup string_dec (surviving_codes z g)).
Proof.
  intros Hwf Hz Hg Hinc.
  destruct (aggregate_cases df zc gc inc z g Hwf Hz Hg Hinc)
    as (d & _ & [(cols & Hcols & Hagg) | (Heq & Hd & Hagg)]).
  - destruct (groups_of_strings (surviving_codes z g)) as (keys & Hk & Hnd & Hin).
    exists ((zc, str_column keys) :: cols), keys.
    assert (Hidx : col_groups (str_column (surviving_codes z g)) =
                   str_column keys).
    { unfold str_column. simpl. now rewrite Hk. }
    rewrite Hidx in *.
    split; [exact Hagg |]. split; [simpl; now rewrite String.eqb_refl |].
    split; [exact Hnd |]. split; [exact Hin |]. split.
    + intros l c [H | H].
      * inversion H; subst. reflexivity.
      * rewrite (mapM_agg_one_len _ _ _ _ _ Hcols l c H).
        unfold str_column. simpl. now rewrite !length_map.
    + simpl. rewrite length_map. now apply distinct_count.
  - destruct (drop_duplicates_codes zc (surviving_codes z g))
      as (keys & Hdd & Hnd & Hin).
    exists [(zc, str_column keys); (zc, str_column keys)], keys.
    rewrite Hdd in Hagg.
    split; [exact Hagg |]. split; [simpl; now rewrite String.eqb_refl |].
    split; [exact Hnd |]. split; [exact Hin |]. split.
    + intros l c [H | [H | []]]; inversion H; subst; reflexivity.
    + simpl. rewrite length_map. now apply distinct_count.
Qed.

End AggregatorCount.

Lemma aggregate_one_row_per_code_witness :
  exists zip_data keys,
    aggregate scenario_df "zip" "state" (Some ["pop"]) = Ok zip_data /\
    getitem zip_data "zip" = Ok (str_column keys) /\
    NoDup keys /\
    (forall k, In k keys <->
       In k (surviving_codes
               (Object [OStr "501"; OStr "00544"; OStr "90210"])
               (Object [OStr "NY"; OStr "NY"; OStr "CA"]))) /\
    wf_frame zip_data /\
    nrows zip_data =
    List.length
      (nodup string_dec
         (surviving_codes
            (Object [OStr "501"; OStr "00544"; OStr "90210"])
            (Object [OStr "NY"; OStr "NY"; OStr "CA"]))).
Proof.
  apply (aggregate_one_row_per_code (F := example_floats)
           scenario_df "zip" "state" ["pop"]).
  - apply wf_frame_forallb. reflexivity.
  - reflexivity.
  - reflexivity.
  - intros c [<- | []]. reflexivity.
Defined.

(** The end-to-end scenario: three aggregated rows, [00501] and [00544]
    staying apart. *)
Example scenario_aggregated :
  aggregate (F := example_floats) scenario_df "zip" "state" (Some ["pop"]) =
  Ok [("zip", Object [OStr "00501"; OStr "00544"; OStr "90210"]);
      ("pop", Int64 [100; 50; 200]%Z);
      ("state", Object [OStr "NY"; OStr "NY"; OStr "CA"])].
Proof. reflexivity. Qed.

(* ================================================================= *)
(** ** The aggregator: the per-column reduction rule *)

Section ReductionRule.
Context {F : Float64Ops}.

Lemma hkey_eqb_HStr (k s : string) :
  hkey_eqb (HStr k) (HStr s) = String.eqb k s.
Proof.
  destruct (String.eqb_spec k s) as [-> | Hne].
  - apply hkey_eqb_refl.
  - apply hkey_eqb_neq. congruence.
Qed.

Lemma select_block {A} (codes : list string) (k : string) (xs : list A) :
  select (map HStr codes) (HStr k) xs = block codes k xs.
Proof.
  unfold select, block. rewrite map_map. f_equal.
  apply map_ext. intros s. apply hkey_eqb_HStr.
Qed.

(** [agg_column] under the rule of the column's dtype, read per code. *)
Lemma agg_column_reduced (codes keys : list string) (c : column) :
  agg_column (if is_numeric_dtype c then Sum else First)
             (map HStr codes) (map HStr keys) c =
  Ok (reduced codes keys c).
Proof.
  destruct c; simpl; rewrite map_map; do 2 f_equal;
    apply map_ext; intros k; now rewrite select_block.
Qed.

Lemma wrap64_in_range (z : Z) :
  (- 2 ^ 63 <= z < 2 ^ 63)%Z -> wrap64 z = z.
Proof.
  intros H. unfold wrap64. rewrite Z.mod_small; lia.
Qed.

Lemma obj_first_present (l : list obj) :
  Forall (fun o => obj_isna o = false) l -> obj_first l = first_seen l.
Proof.
  unfold obj_first, first_seen. intros H.
  destruct H as [| o l Ho _]; simpl; auto.
  now rewrite Ho.
Qed.

Lemma obj_first_head (o : obj) (l : list obj) :
  obj_isna o = false -> obj_first (o :: l) = o.
Proof. unfold obj_first. simpl. now intros ->. Qed.

(** After cleaning, the grouping column holds no missing value. *)
Lemma surviving_present {A} (p : A -> bool) (ma : list bool) (xs : list A) :
  Forall (fun x => p x = false)
         (filter_mask (map2 (fun a b => negb a && negb b) ma (map p xs)) xs).
Proof.
  revert ma. induction xs as [| x xs IH]; intros [| a ma]; simpl;
    try constructor.
  destruct a; simpl; auto.
  destruct (p x) eqn:Hp; simpl; auto.
Qed.

Lemma Forall_filter_mask {A} (P : A -> Prop) (m : list bool) (xs : list A) :
  Forall P xs -> Forall P (filter_mask m xs).
Proof.
  intros H. apply Forall_forall. intros x Hin.
  rewrite Forall_forall in H. eapply H, filter_mask_In, Hin.
Qed.

(** C2 (amended). The reduction of every retained column is fixed by the
    dtype of the whole column, before grouping: a column of numeric dtype
    is summed within each postal-code group (64-bit sum for [int64], count
    of [True] for [bool], NaN skipped for [float64]; rows [{zip:"00501",
    x:3}] and [{zip:"501", x:4}] give one row with [x = 7]) and every other
    retained column is reduced to the first value of the group that is not
    missing (missing when the group has none).  For the grouping column,
    whose missing values were dropped, that is the first-seen value. *)
Theorem aggregate_reduction_rule (df : frame) (zc gc : string)
    (inc : list string) (z g : column) :
  wf_frame df ->
  getitem df zc = Ok z ->
  getitem df gc = Ok g ->
  (forall c, In c inc -> has_column df c = true) ->
  exists zip_data keys,
    aggregate df zc gc (Some inc) = Ok zip_data /\
    getitem zip_data zc = Ok (str_column keys) /\
    (forall col c,
       In col (columns_to_aggregate inc gc) -> col <> zc ->
       getitem df col = Ok c ->
       getitem zip_data col =
       Ok (reduced (surviving_codes z g) keys
                   (col_filter (surviving z g) c))) /\
    (gc <> zc ->
     forall xs, g = Object xs ->
       getitem zip_data gc =
       Ok (reduced_first_seen (surviving_codes z g) keys
                              (col_filter (surviving z g) g))) /\
    aggregate two_formats_df "zip" "x" (Some []) =
    Ok [("zip", Object [OStr "00501"]); ("x", Int64 [7%Z])].
Proof.
  intros Hwf Hz Hg Hinc.
  assert (Hex : aggregate two_formats_df "zip" "x" (Some []) =
                Ok [("zip", Object [OStr "00501"]); ("x", Int64 [7%Z])])
    by reflexivity.
  destruct (aggregate_cases df zc gc inc z g Hwf Hz Hg Hinc)
    as (d & Hget & [(cols & Hcols & Hagg) | (Heq & Hd & Hagg)]).
  - destruct (groups_of_strings (surviving_codes z g))
      as (keys & Hk & Hnd & Hin).
    exists ((zc, str_column keys) :: cols), keys.
    assert (Hidx : col_groups (str_column (surviving_codes z g)) =
                   str_column keys).
    { unfold str_column. simpl. now rewrite Hk. }
    rewrite Hidx in *.
    assert (Hrule : forall col c,
              In col (columns_to_aggregate inc gc) -> col <> zc ->
              getitem df col = Ok c ->
              getitem ((zc, str_column keys) :: cols) col =
              Ok (reduced (surviving_codes z g) keys
                          (col_filter (surviving z g) c))).
    { intros col c Hcol Hne Hc. simpl.
      destruct (String.eqb_spec zc col) as [-> | _]; [congruence |].
      rewrite (mapM_agg_one_get _ _ _ _ _ col Hcols), Hget.
      apply existsb_eqb_In in Hcol. rewrite Hcol.
      destruct (String.eqb_spec col zc) as [-> | _]; [congruence |]. simpl.
      unfold rule_of, numeric_in.
      rewrite (cleaned_other df zc col z g Hne), Hc. simpl.
      unfold str_column. simpl. rewrite map_map.
      apply (agg_column_reduced (surviving_codes z g) keys
               (col_filter (surviving z g) c)). }
    split; [exact Hagg |]. split; [simpl; now rewrite String.eqb_refl |].
    split; [exact Hrule |]. split; [| exact Hex].
    intros Hne xs ->.
    rewrite (Hrule gc (Object xs) (columns_to_aggregate_group inc gc) Hne Hg).
    simpl. do 2 f_equal. apply map_ext. intros k.
    apply obj_first_present. apply Forall_filter_mask.
    unfold surviving, col_isna. simpl.
    rewrite (map_map obj_hkey hkey_isna).
    rewrite (map_ext (fun x => hkey_isna (obj_hkey x)) obj_isna)
      by (intros []; reflexivity).
    apply surviving_present.
  - destruct (drop_duplicates_codes zc (surviving_codes z g))
      as (keys & Hdd & Hnd & Hin).
    exists [(zc, str_column keys); (zc, str_column keys)], keys.
    rewrite Hdd in Hagg.
    split; [exact Hagg |]. split; [simpl; now rewrite String.eqb_refl |].
    split; [| split; [congruence | exact Hex]].
    intros col c Hcol Hne _. exfalso.
    specialize (Hget col). rewrite Hd in Hget.
    apply existsb_eqb_In in Hcol. rewrite Hcol in Hget.
    destruct (String.eqb_spec col zc); [congruence | discriminate].
Qed.

End ReductionRule.

Lemma aggregate_reduction_rule_witness :
  exists zip_data keys,
    aggregate missing_name_df "zip" "state" (Some ["name"]) = Ok zip_data /\
    getitem zip_data "zip" = Ok (str_column keys) /\
    (forall col c,
       In col (columns_to_aggregate ["name"] "state") -> col <> "zip" ->
       getitem missing_name_df col = Ok c ->
       getitem zip_data col =
       Ok (reduced
             (surviving_codes (Object [OStr "00501"; OStr "501"])
                              (Object [OStr "NY"; OStr "NY"]))
             keys
             (col_filter
                (surviving (Object [OStr "00501"; OStr "501"])
                           (Object [OStr "NY"; OStr "NY"])) c))) /\
    ("state" <> "zip" ->
     forall xs, Object [OStr "NY"; OStr "NY"] = Object xs ->
       getitem zip_data "state" =
       Ok (reduced_first_seen
             (surviving_codes (Object [OStr "00501"; OStr "501"])
                              (Object [OStr "NY"; OStr "NY"]))
             keys
             (col_filter
                (surviving (Object [OStr "00501"; OStr "501"])
                           (Object [OStr "NY"; OStr "NY"]))
                (Object [OStr "NY"; OStr "NY"])))) /\
    aggregate two_formats_df "zip" "x" (Some []) =
    Ok [("zip", Object [OStr "00501"]); ("x", Int64 [7%Z])].
Proof.
  apply (aggregate_reduction_rule (F := example_floats)
           missing_name_df "zip" "state" ["name"]).
  - apply wf_frame_forallb. reflexivity.
  - reflexivity.
  - reflexivity.
  - intros c [<- | []]. reflexivity.
Defined.

(** C2 as stated fails where a group starts with a missing value: for the
    records [{zip:"00501", state:"NY", name:NaN}] and [{zip:"501",
    state:"NY", name:"B"}] the aggregated name is ["B"], while the
    first-seen value of the group is the missing one. *)
Lemma first_seen_counterexample :
  aggregate (F := example_floats) missing_name_df "zip" "state"
            (Some ["name"]) =
  Ok [("zip", Object [OStr "00501"]);
      ("name", Object [OStr "B"]);
      ("state", Object [OStr "NY"])] /\
  reduced_first_seen (F := example_floats)
    ["00501"; "00501"] ["00501"] (Object [ONaN; OStr "B"]) = Object [ONaN] /\
  getitem (F := example_floats)
          [("zip", Object [OStr "00501"]);
           ("name", Object [OStr "B"]);
           ("state", Object [OStr "NY"])] "name" <>
  Ok (reduced_first_seen ["00501"; "00501"] ["00501"]
                         (Object [ONaN; OStr "B"])).
Proof.
  split; [reflexivity |]. split; [reflexivity |].
  simpl. intros H. inversion H.
Qed.

(* ================================================================= *)
(** ** Normalized postal codes *)

Section Normalization.
Context {F : Float64Ops}.



(** C9 (amended). The normalized code of a value is its string form
    padded with zeros on the left up to five characters: it has
    [max 5 n] characters when the string form has [n], so exactly five
    when the string form has at most five, and more otherwise; two records
    carry the same code exactly when their zero-padded string forms are
    equal. *)
Theorem normalized_code_shape (c : column) (i j : nat) (a b : string) :
  nth_error (astype_str c) i = Some a ->
  nth_error (astype_str c) j = Some b ->
  nth_error (normalize_zip c) i = Some (zfill 5 a) /\
  String.length (zfill 5 a) = Nat.max 5 (String.length a) /\
  ((String.length a <= 5)%nat -> String.length (zfill 5 a) = 5%nat) /\
  ((5 < String.length a)%nat -> zfill 5 a = a) /\
  (nth_error (normalize_zip c) i = nth_error (normalize_zip c) j <->
   zfill 5 a = zfill 5 b).
Proof.
  intros Ha Hb. unfold normalize_zip.
  rewrite !nth_error_map, Ha, Hb. simpl.
  split; [reflexivity |]. split; [apply zfill_length |].
  split; [intros H; rewrite zfill_length; lia |].
  split; [intros H; apply zfill_long; lia |].
  split; congruence.
Qed.

End Normalization.

Lemma normalized_code_shape_witness :
  nth_error (normalize_zip (F := example_floats)
               (Object [OStr "501"; OStr "00501"])) 0 =
  Some (zfill 5 "501") /\
  String.length (zfill 5 "501") = Nat.max 5 (String.length "501") /\
  ((String.length "501" <= 5)%nat -> String.length (zfill 5 "501") = 5%nat) /\
  ((5 < String.length "501")%nat -> zfill 5 "501" = "501") /\
  (nth_error (normalize_zip (F := example_floats)
                (Object [OStr "501"; OStr "00501"])) 0 =
   nth_error (normalize_zip (F := example_floats)
                (Object [OStr "501"; OStr "00501"])) 1 <->
   zfill 5 "501" = zfill 5 "00501").
Proof.
  apply (normalized_code_shape (F := example_floats)
           (Object [OStr "501"; OStr "00501"]) 0 1 "501" "00501");
    reflexivity.
Defined.

(** C9 as stated fails on a value whose string form is longer than five
    characters: the integer [123456] is normalized to ["123456"]. *)
Lemma long_code_counterexample :
  normalize_zip (F := example_floats) long_code_column = ["123456"] /\
  ~ (forall s, In s (normalize_zip (F := example_floats) long_code_column) ->
               String.length s = 5%nat).
Proof.
  split; [reflexivity |].
  intros H. specialize (H "123456" (or_introl eq_refl)). discriminate.
Qed.

(* ================================================================= *)
(** ** The aggregator: empty and missing retain-list *)

Section RetainList.
Context {F : Float64Ops}.

#[local] Arguments agg_column : simpl never.

(** C5 (amended). With an empty retain-list and a grouping column other
    than the postal-code column, the aggregator emits one row per distinct
    postal code, holding the postal code and the grouping column only, the
    latter reduced by the per-column rule.  The distinct-pair fallback is
    taken only when the grouping column is the postal-code column, where
    it yields one row per distinct postal code, the code appearing twice. *)
Theorem empty_retain_list (df : frame) (zc gc : string) (z g : column) :
  wf_frame df ->
  getitem df zc = Ok z ->
  getitem df gc = Ok g ->
  exists keys,
    NoDup keys /\
    (forall k, In k keys <-> In k (surviving_codes z g)) /\
    (gc <> zc ->
     aggregate df zc gc (Some []) =
     Ok [(zc, str_column keys);
         (gc, reduced (surviving_codes z g) keys
                      (col_filter (surviving z g) g))]) /\
    (gc = zc ->
     aggregate df zc gc (Some []) =
     Ok [(zc, str_column keys); (zc, str_column keys)]).
Proof.
  intros Hwf Hz Hg.
  rewrite (aggregate_unfold df zc gc [] z g Hwf Hz Hg).
  change (columns_to_aggregate [] gc) with [gc].
  unfold agg_dict_init. simpl.
  destruct (String.eqb_spec gc zc) as [-> | Hne]; simpl.
  - destruct (drop_duplicates_codes zc (surviving_codes z g))
      as (keys & Hdd & Hnd & Hin).
    exists keys. split; [exact Hnd |]. split; [exact Hin |].
    split; [congruence |]. intros _.
    rewrite cleaned_zip. simpl. unfold getitems. simpl.
    rewrite cleaned_zip. simpl. now rewrite Hdd.
  - destruct (groups_of_strings (surviving_codes z g))
      as (keys & Hk & Hnd & Hin).
    exists keys. split; [exact Hnd |]. split; [exact Hin |].
    split; [| congruence]. intros _.
    rewrite (cleaned_other df zc gc z g Hne), Hg. simpl.
    set (c := col_filter (surviving z g) g).
    assert (Hr := agg_column_reduced (surviving_codes z g) keys c).
    destruct (is_numeric_dtype c); simpl; rewrite ?String.eqb_refl;
      unfold groupby_agg; rewrite cleaned_zip; simpl;
      unfold agg_one at 1; simpl;
      rewrite (cleaned_other df zc gc z g Hne), Hg; simpl; fold c;
      rewrite Hk, !map_map; simpl;
      change (map (fun x : string => HStr x)) with (map HStr);
      rewrite Hr; simpl;
      unfold reset_index, has_column; simpl;
      (destruct (String.eqb_spec zc gc); [congruence | reflexivity]).
Qed.

(** C10. Called without a retain-list, the function raises before it
    aggregates anything: [TypeError] once the two required columns have
    been found (the retain-list is iterated unconditionally), and the stop
    of the script when one of them is not in the table. *)
Theorem missing_retain_list_raises (df : frame) (zc gc : string)
    (provider : option boundaries) :
  aggregate df zc gc None =
  Raise (if has_column df zc && has_column df gc
         then TypeError else StopException) /\
  create_full_geographic_data df zc gc None provider =
  Raise (if has_column df zc && has_column df gc
         then TypeError else StopException).
Proof.
  assert (H : aggregate df zc gc None =
              Raise (if has_column df zc && has_column df gc
                     then TypeError else StopException)).
  { unfold aggregate.
    destruct (has_column df zc) eqn:Hz; simpl; auto.
    destruct (has_column df gc) eqn:Hg; simpl; auto.
    apply has_column_getitem in Hz, Hg.
    destruct Hz as [z Hz]. destruct Hg as [g Hg].
    unfold clean, dropna. simpl. rewrite Hz, Hg. simpl.
    rewrite getitem_frame_filter, Hz. reflexivity. }
  split; [exact H |].
  unfold create_full_geographic_data. now rewrite H.
Qed.

End RetainList.

Lemma empty_retain_list_witness :
  exists keys,
    NoDup keys /\
    (forall k, In k keys <->
       In k (surviving_codes (Object [OStr "501"; OStr "501"])
                             (Object [OStr "NY"; OStr "NJ"]))) /\
    ("state" <> "zip" ->
     aggregate two_states_df "zip" "state" (Some []) =
     Ok [("zip", str_column keys);
         ("state",
          reduced (surviving_codes (Object [OStr "501"; OStr "501"])
                                   (Object [OStr "NY"; OStr "NJ"]))
                  keys
                  (col_filter (surviving (Object [OStr "501"; OStr "501"])
                                         (Object [OStr "NY"; OStr "NJ"]))
                              (Object [OStr "NY"; OStr "NJ"])))]) /\
    ("state" = "zip" ->
     aggregate two_states_df "zip" "state" (Some []) =
     Ok [("zip", str_column keys); ("zip", str_column keys)]).
Proof.
  apply (empty_retain_list (F := example_floats) two_states_df "zip" "state").
  - apply wf_frame_forallb. reflexivity.
  - reflexivity.
  - reflexivity.
Defined.

(** C5 as stated fails when one postal code occurs under two grouping
    values: the records [{zip:"501", state:"NY"}] and [{zip:"501",
    state:"NJ"}] make two distinct (postal code, grouping value) pairs, and
    the aggregator emits a single row. *)
Lemma distinct_pairs_counterexample :
  aggregate (F := example_floats) two_states_df "zip" "state" (Some []) =
  Ok [("zip", Object [OStr "00501"]); ("state", Object [OStr "NY"])] /\
  nrows (F := example_floats)
        [("zip", Object [OStr "00501"]); ("state", Object [OStr "NY"])] = 1%nat /\
  List.length
    (nodup pair_eq_dec
       (surviving_pairs (F := example_floats)
          (Object [OStr "501"; OStr "501"])
          (Object [OStr "NY"; OStr "NJ"]))) = 2%nat.
Proof. repeat split; reflexivity. Qed.

(* ================================================================= *)
(** ** The geometry join *)

Section GeometryJoin.
Context {F : Float64Ops} {G : GeometryOps}.

Lemma select_isin {A} (ks vals : list hkey) (g : hkey) (xs : list A) :
  In g vals ->
  select (filter_mask (isin ks vals) ks) g (filter_mask (isin ks vals) xs) =
  select ks g xs.
Proof.
  intros Hg. unfold select. revert xs.
  induction ks as [| k ks IH]; intros xs; simpl.
  - reflexivity.
  - destruct xs as [| x xs].
    + destruct (in_dec hkey_eq_dec k vals); simpl;
        rewrite ?filter_mask_nil; reflexivity.
    + destruct (in_dec hkey_eq_dec k vals) as [Hin | Hnin]; simpl.
      * destruct (hkey_eqb g k); simpl; now rewrite IH.
      * replace (hkey_eqb g k) with false; [apply IH |].
        symmetry. apply hkey_eqb_neq. congruence.
Qed.

Lemma block_isin {A} (rkeys : list string) (vals : list hkey) (k : string)
    (xs : list A) :
  In (HStr k) vals ->
  block (filter_mask (isin (map HStr rkeys) vals) rkeys) k
        (filter_mask (isin (map HStr rkeys) vals) xs) =
  block rkeys k xs.
Proof.
  intros Hk. rewrite <- !select_block, <- filter_mask_map.
  now apply select_isin.
Qed.







Lemma setitem_same (df : frame) (l : string) (c : column) :
  getitem df l = Ok c -> setitem df l c = df.
Proof.
  induction df as [| [l' c'] df IH]; simpl; [discriminate |].
  destruct (String.eqb l' l); intros H.
  - now inversion H.
  - f_equal. now apply IH.
Qed.

Lemma rename_has_new (df : frame) (old new : string) (c : column) :
  getitem df old = Ok c -> In new (columns (rename old new df)).
Proof.
  induction df as [| [l c'] df IH]; simpl; [discriminate |].
  destruct (String.eqb l old); auto.
Qed.

Lemma getitem_rename_unique (df : frame) (old new : string) (c : column) :
  getitem df old = Ok c ->
  List.length (filter (String.eqb new) (columns (rename old new df))) = 1%nat ->
  getitem (rename old new df) new = Ok c.
Proof.
  induction df as [| [l c'] df IH]; simpl; [discriminate |].
  destruct (String.eqb_spec l old) as [-> | Hne]; simpl.
  - rewrite String.eqb_refl. auto.
  - intros Hc. destruct (String.eqb_spec new l) as [<- | Hnl]; simpl.
    + intros Hlen. exfalso.
      pose proof (rename_has_new df old new c Hc) as Hin.
      assert (Hf : In new (filter (String.eqb new) (columns (rename old new df)))).
      { apply filter_In. split; auto. apply String.eqb_refl. }
      destruct (filter _ _); [destruct Hf | discriminate].
    + intros Hlen. destruct (String.eqb_spec l new); [congruence |].
      now apply IH.
Qed.

Lemma rename_In (df : frame) (old new l : string) (c : column) :
  In (l, c) (rename old new df) -> exists l', In (l', c) df.
Proof.
  unfold rename. intros H. apply in_map_iff in H.
  destruct H as ([l' c'] & Heq & Hin). inversion Heq; subst. eauto.
Qed.


Lemma str_column_hkeys (keys : list string) :
  col_hkeys (str_column keys) = map HStr keys.
Proof. unfold str_column. simpl. now rewrite map_map. Qed.

Lemma astype_str_str_column (keys : list string) :
  astype_str (str_column keys) = keys.
Proof. unfold str_column. simpl. rewrite map_map. apply map_id. Qed.

Lemma right_labels_filter (mask : list bool) (fields : list (string * field)) :
  right_labels (map (fun lf => (fst lf, field_filter mask (snd lf))) fields) =
  right_labels fields.
Proof. unfold right_labels. now rewrite map_map. Qed.

(** Lines 90-102 on a table keyed by its postal-code column, once the
    labels pass: the table is merged with the filtered boundaries, its own
    columns first, then the fields of the census table. *)
Lemma filter_and_merge_unfold (zip_data : frame) (zc : string)
    (zcta_gdf : boundaries) (keys : list string) :
  getitem zip_data zc = Ok (str_column keys) ->
  List.length (filter (String.eqb "ZCTA5CE20")
                 (columns (rename zc "ZCTA5CE20" zip_data))) = 1%nat ->
  has_column (rename zc "ZCTA5CE20" zip_data) "geometry" = false ->
  merge_duplicates (left_labels zip_data zc)
                   (right_labels (boundary_fields zcta_gdf)) = [] ->
  filter_and_merge zip_data zc zcta_gdf =
  Ok {| data :=
          map (fun lc =>
                 (with_suffix (clashing zip_data zc zcta_gdf) "_x" (fst lc),
                  col_repeat
                    (map (fun k =>
                            List.length
                              (merge_block
                                 (filter_mask
                                    (isin (map HStr (astype_str (ZCTA5CE20 zcta_gdf)))
                                          (map HStr keys))
                                    (astype_str (ZCTA5CE20 zcta_gdf)))
                                 (filter_mask
                                    (isin (map HStr (astype_str (ZCTA5CE20 zcta_gdf)))
                                          (map HStr keys))
                                    (boundary_geometry zcta_gdf)) k)) keys)
                    (snd lc)))
              (rename zc "ZCTA5CE20" zip_data)
          ++ census_columns (clashing zip_data zc zcta_gdf) zcta_gdf keys;
        geometry_col :=
          flat_map
            (merge_block
               (filter_mask
                  (isin (map HStr (astype_str (ZCTA5CE20 zcta_gdf)))
                        (map HStr keys))
                  (astype_str (ZCTA5CE20 zcta_gdf)))
               (filter_mask
                  (isin (map HStr (astype_str (ZCTA5CE20 zcta_gdf)))
                        (map HStr keys))
                  (boundary_geometry zcta_gdf))) keys |}.
Proof.
  intros Hz Hlab Hgeo Hdup.
  assert (Hlk : getitem (rename zc "ZCTA5CE20" zip_data) "ZCTA5CE20" =
                Ok (str_column keys))
    by now apply getitem_rename_unique.
  unfold filter_and_merge. rewrite Hz. cbn [bind].
  rewrite Hlab. cbn [Nat.eqb negb]. rewrite Hlk. cbn [bind].
  rewrite astype_str_str_column, (setitem_same _ _ _ Hlk), Hgeo.
  rewrite str_column_hkeys.
  unfold merge_left. rewrite right_labels_filter.
  unfold left_labels in Hdup. rewrite Hdup. cbn [bind].
  unfold census_columns, clashing, left_labels. now rewrite map_map.
Qed.





End GeometryJoin.

Lemma NoDup_by_nodup (l : list string) : nodup string_dec l = l -> NoDup l.
Proof. intros H. rewrite <- H. apply NoDup_nodup. Qed.


(** The scenario joined with its boundaries: the code without a boundary
    keeps its row, with no geometry and no census attribute (the integer
    field becoming [float64]); with a provider that returns nothing, every
    row is kept without geometry. *)
Example scenario_joined :
  filter_and_merge scenario_zip_data "zip" scenario_boundaries =
  Ok scenario_final_gdf /\
  filter_and_merge scenario_zip_data "zip" no_boundaries =
  Ok {| data :=
          [("ZCTA5CE20", Object [OStr "00501"; OStr "00544"; OStr "90210"]);
           ("pop", Int64 [100; 50; 200]%Z);
           ("state", Object [OStr "NY"; OStr "NY"; OStr "CA"]);
           ("GEOID20", Object [ONaN; ONaN; ONaN]);
           ("ALAND20", Float64 [None; None; None])];
        geometry_col := [None; None; None] |}.
Proof. split; reflexivity. Qed.

(* ================================================================= *)
(** ** The sampler *)

Section Sampler.
Context {F : Float64Ops}.

Lemma take_map {A B} (f : A -> B) (idx : list nat) (l : list A) :
  take idx (map f l) = map f (take idx l).
Proof.
  unfold take. induction idx as [| i idx IH]; simpl; auto.
  rewrite map_app, IH, nth_error_map.
  destruct (nth_error l i); reflexivity.
Qed.

Lemma col_hkeys_take (idx : list nat) (c : column) :
  col_hkeys (col_take idx c) = take idx (col_hkeys c).
Proof. destruct c; simpl; now rewrite take_map. Qed.

Lemma take_In {A} (idx : list nat) (l : list A) (x : A) :
  In x (take idx l) -> exists i, In i idx /\ nth_error l i = Some x.
Proof.
  unfold take. intros H. apply in_flat_map in H.
  destruct H as (i & Hi & Hx). exists i. split; auto.
  destruct (nth_error l i); simpl in Hx; [| tauto].
  destruct Hx as [-> | []]. reflexivity.
Qed.

Lemma take_length {A} (idx : list nat) (l : list A) :
  Forall (fun i => i < List.length l)%nat idx ->
  List.length (take idx l) = List.length idx.
Proof.
  unfold take. induction 1 as [| i idx Hi _ IH]; simpl; auto.
  rewrite length_app, IH.
  destruct (nth_error l i) eqn:Hn; simpl; auto.
  apply nth_error_None in Hn. lia.
Qed.

Lemma take_NoDup {A} (idx : list nat) (l : list A) :
  NoDup l -> NoDup idx -> NoDup (take idx l).
Proof.
  intros Hl Hidx. induction Hidx as [| i idx Hi Hidx IH]; simpl.
  - constructor.
  - change (take (i :: idx) l) with
      ((match nth_error l i with Some x => [x] | None => [] end)
         ++ take idx l).
    destruct (nth_error l i) as [x |] eqn:Hn; simpl; auto.
    constructor; auto.
    intros Hin. apply take_In in Hin. destruct Hin as (j & Hj & Hnj).
    apply Hi. replace i with j; auto.
    rewrite NoDup_nth_error in Hl. symmetry. apply Hl.
    + apply nth_error_Some. congruence.
    + congruence.
Qed.

Lemma take_seq_app {A} (pre l : list A) :
  take (seq (List.length pre) (List.length l)) (pre ++ l) = l.
Proof.
  revert pre. induction l as [| x l IH]; intros pre; simpl; auto.
  change (take (List.length pre :: seq (S (List.length pre)) (List.length l))
               (pre ++ x :: l))
    with ((match nth_error (pre ++ x :: l) (List.length pre) with
           | Some y => [y] | None => [] end)
            ++ take (seq (S (List.length pre)) (List.length l)) (pre ++ x :: l)).
  rewrite nth_error_app2, Nat.sub_diag by lia. simpl. f_equal.
  specialize (IH (pre ++ [x])).
  rewrite length_app, Nat.add_1_r, <- app_assoc in IH. exact IH.
Qed.

Lemma take_all {A} (l : list A) : take (seq 0 (List.length l)) l = l.
Proof. apply (take_seq_app [] l). Qed.

Lemma col_take_all (c : column) : col_take (seq 0 (col_len c)) c = c.
Proof. destruct c; simpl; now rewrite take_all. Qed.

Lemma col_len_take (idx : list nat) (c : column) :
  Forall (fun i => i < col_len c)%nat idx ->
  col_len (col_take idx c) = List.length idx.
Proof. destruct c; simpl; apply take_length. Qed.

(** [unique()] returns pairwise distinct values. *)
Lemma col_unique_NoDup (c : column) : NoDup (col_hkeys (col_unique c)).
Proof. destruct c; simpl; apply unique_by_keys_NoDup. Qed.

Lemma col_unique_In (c : column) (h : hkey) :
  In h (col_hkeys (col_unique c)) <-> In h (col_hkeys c).
Proof. destruct c; simpl; apply unique_by_keys_In. Qed.

(** The positions that [sample] reads. *)
Lemma sample_positions (perm : list nat) (u : column) :
  Permutation perm (seq 0 (col_len u)) ->
  exists idx,
    sample perm u = col_take idx u /\
    NoDup idx /\
    Forall (fun i => i < col_len u)%nat idx /\
    List.length idx = Nat.min 5 (col_len u).
Proof.
  intros Hperm. unfold sample, random_choice.
  assert (Hlen : List.length perm = col_len u).
  { rewrite (Permutation_length Hperm). apply length_seq. }
  assert (Hnd : NoDup perm).
  { eapply Permutation_NoDup; [symmetry; exact Hperm | apply seq_NoDup]. }
  assert (Hlt : Forall (fun i => i < col_len u)%nat perm).
  { apply Forall_forall. intros i Hi.
    apply (Permutation_in _ Hperm), in_seq in Hi. lia. }
  destruct (Nat.ltb_spec 5 (col_len u)) as [Hgt | Hle].
  - exists (firstn 5 perm). split; [reflexivity |]. split; [| split].
    + rewrite <- (firstn_skipn 5 perm) in Hnd.
      now apply NoDup_app_remove_r in Hnd.
    + apply Forall_forall. intros i Hi. rewrite Forall_forall in Hlt.
      apply Hlt. rewrite <- (firstn_skipn 5 perm). apply in_app_iff. auto.
    + rewrite length_firstn. lia.
  - exists (seq 0 (col_len u)). split; [now rewrite col_take_all |].
    split; [apply seq_NoDup |]. split.
    + apply Forall_forall. intros i Hi. apply in_seq in Hi. lia.
    + rewrite length_seq. lia.
Qed.

(** The sample of pairwise distinct values holds pairwise distinct values
    of the array. *)
Lemma sample_keys (perm : list nat) (u : column) :
  NoDup (col_hkeys u) ->
  Permutation perm (seq 0 (col_len u)) ->
  NoDup (col_hkeys (sample perm u)) /\
  incl (col_hkeys (sample perm u)) (col_hkeys u).
Proof.
  intros Hu Hperm.
  destruct (sample_positions perm u Hperm) as (idx & Hs & Hnd & _ & _).
  rewrite Hs, col_hkeys_take. split.
  - now apply take_NoDup.
  - intros h Hh. apply take_In in Hh. destruct Hh as (i & _ & Hi).
    eapply nth_error_In, Hi.
Qed.

(** C7. For every array of pairwise distinct grouping values: with at
    most five values the sampler returns the array itself; with more it
    returns exactly five values.  In both cases the values returned are
    entries of the array at distinct positions, hence members of the
    original set, without duplicates. *)
Theorem sample_at_most_five (perm : list nat) (u : column) :
  NoDup (col_hkeys u) ->
  Permutation perm (seq 0 (col_len u)) ->
  ((col_len u <= 5)%nat -> sample perm u = u) /\
  ((5 < col_len u)%nat -> col_len (sample perm u) = 5%nat) /\
  NoDup (col_hkeys (sample perm u)) /\
  incl (col_hkeys (sample perm u)) (col_hkeys u) /\
  (exists idx, sample perm u = col_take idx u /\ NoDup idx /\
               Forall (fun i => i < col_len u)%nat idx).
Proof.
  intros Hu Hperm.
  destruct (sample_positions perm u Hperm) as (idx & Hs & Hnd & Hlt & Hlen).
  destruct (sample_keys perm u Hu Hperm) as [Hsnd Hsincl].
  split; [| split; [| split; [| split]]]; auto.
  - intros Hle. unfold sample.
    destruct (Nat.ltb_spec 5 (col_len u)); [lia | reflexivity].
  - intros Hgt. rewrite Hs, col_len_take by exact Hlt. lia.
  - eauto.
Qed.

End Sampler.

Lemma sample_at_most_five_witness :
  ((col_len eight_groups <= 5)%nat ->
   sample reversed_positions eight_groups = eight_groups) /\
  ((5 < col_len eight_groups)%nat ->
   col_len (sample reversed_positions eight_groups) = 5%nat) /\
  NoDup (col_hkeys (sample reversed_positions eight_groups)) /\
  incl (col_hkeys (sample reversed_positions eight_groups))
       (col_hkeys eight_groups) /\
  (exists idx, sample reversed_positions eight_groups =
               col_take idx eight_groups /\ NoDup idx /\
               Forall (fun i => i < col_len eight_groups)%nat idx).
Proof.
  apply (sample_at_most_five (F := example_floats)
           reversed_positions eight_groups).
  - apply (NoDup_map_inv (fun h => match h with HStr s => s | _ => EmptyString end)).
    apply NoDup_by_nodup. reflexivity.
  - apply Permutation_sym, Permutation_rev.
Defined.

(** Three groups come back as they are; of eight, five distinct ones. *)
Example sample_three_and_eight :
  sample (F := example_floats) [2; 0; 1]%nat three_groups = three_groups /\
  sample (F := example_floats) reversed_positions eight_groups =
  Object [OStr "h"; OStr "g"; OStr "f"; OStr "e"; OStr "d"].
Proof. split; reflexivity. Qed.

(* ================================================================= *)
(** ** Sampling and dissolving *)

Section Dissolve.
Context {F : Float64Ops} {G : GeometryOps}.

Lemma string_append_assoc (a b c : string) :
  ((a ++ b) ++ c)%string = (a ++ (b ++ c))%string.
Proof. induction a; simpl; congruence. Qed.

Lemma obj_sum_from_text (acc : string) (l : list obj) :
  Forall (fun o => is_text o = true) l ->
  obj_sum_from (OStr acc) l = Ok (OStr (acc ++ join (texts l))%string).
Proof.
  intros H. revert acc.
  induction H as [| o l Ho _ IH]; intros acc; simpl.
  - f_equal. f_equal. induction acc; simpl; congruence.
  - destruct o; simpl in *; try discriminate; auto.
    rewrite IH. now rewrite string_append_assoc.
Qed.

(** Summing a block of text concatenates it. *)
Lemma obj_sum_text (l : list obj) :
  Forall (fun o => is_text o = true) l -> obj_sum l = Ok (text_sum l).
Proof.
  unfold text_sum. induction 1 as [| o l Ho Hl IH]; simpl; auto.
  destruct o; simpl in *; try discriminate; auto.
  now apply obj_sum_from_text.
Qed.

Lemma mapM_Ok {A B} (h : A -> B) (l : list A) :
  mapM (fun a => Ok (h a)) l = Ok (map h l).
Proof. induction l as [| a l IH]; simpl; auto. now rewrite IH. Qed.

Lemma mapM_ext_in {A B} (f g : A -> result B) (l : list A) :
  (forall a, In a l -> f a = g a) -> mapM f l = mapM g l.
Proof.
  induction l as [| a l IH]; simpl; intros H; auto.
  rewrite H, IH; auto.
Qed.

Lemma agg_column_summed (ks gs : list hkey) (c : column) :
  text_column c -> agg_column Sum ks gs c = Ok (summed ks gs c).
Proof.
  destruct c; simpl; auto. intros Ht.
  rewrite (mapM_ext_in _ (fun g => Ok (text_sum (select ks g xs)))).
  - now rewrite mapM_Ok.
  - intros g _. apply obj_sum_text. now apply Forall_filter_mask.
Qed.

Lemma text_column_filter (m : list bool) (c : column) :
  text_column c -> text_column (col_filter m c).
Proof. destruct c; simpl; auto. apply Forall_filter_mask. Qed.

(** Reducing the rows kept by [isin] gives, for a kept group, what
    reducing all the rows gives. *)
Lemma agg_column_isin (f : aggfunc) (ks vals gs : list hkey) (c : column) :
  incl gs vals ->
  agg_column f (filter_mask (isin ks vals) ks) gs
             (col_filter (isin ks vals) c) =
  agg_column f ks gs c.
Proof.
  intros Hgs.
  destruct f, c; simpl;
    try (do 2 f_equal; apply map_ext_in; intros g Hg;
         rewrite select_isin; auto).
  erewrite mapM_ext_in; [reflexivity |].
  intros g Hg. simpl. rewrite select_isin; auto.
Qed.

Lemma isin_filter_In (ks vals : list hkey) (h : hkey) :
  In h (filter_mask (isin ks vals) ks) <-> In h ks /\ In h vals.
Proof.
  induction ks as [| k ks IH]; simpl; [tauto |].
  destruct (in_dec hkey_eq_dec k vals) as [Hin | Hnin]; simpl;
    rewrite IH; split.
  - intros [-> | [H1 H2]]; auto.
  - intros [[-> | H1] H2]; auto.
  - tauto.
  - intros [[-> | H1] H2]; tauto.
Qed.

Lemma col_groups_keys_NoDup (c : column) : NoDup (col_hkeys (col_groups c)).
Proof. destruct c; simpl; apply groups_of_keys_NoDup. Qed.

Lemma col_groups_keys_In (c : column) (h : hkey) :
  In h (col_hkeys (col_groups c)) <-> In h (col_hkeys c) /\ h <> HNaN.
Proof. destruct c; simpl; apply groups_of_keys_In. Qed.

Lemma dict_get_all_sum (by_ k : string) (labels : list string) :
  dict_get (map (fun l => (l, Sum))
                (filter (fun l => negb (String.eqb l by_)) labels)) k =
  if existsb (String.eqb k) labels && negb (String.eqb k by_)
  then Some Sum else None.
Proof.
  induction labels as [| l labels IH]; simpl; auto.
  destruct (String.eqb_spec l by_) as [-> | Hne]; simpl.
  - rewrite IH. destruct (String.eqb_spec k by_) as [-> | Hk]; simpl.
    + now rewrite !andb_false_r.
    + reflexivity.
  - rewrite IH. rewrite (String.eqb_sym k l).
    destruct (String.eqb_spec l k) as [-> | Hlk]; simpl; auto.
    destruct (String.eqb_spec k by_); simpl; congruence.
Qed.

(** What a successful [dissolve] returns. *)
Lemma dissolve_inv (by_ : string) (gdf v : geoframe) (kc : column) :
  getitem (data gdf) by_ = Ok kc ->
  dissolve by_ gdf = Ok v ->
  exists cols,
    mapM (agg_one (data gdf) (col_hkeys kc) (col_hkeys (col_groups kc)))
         (map (fun l => (l, Sum))
              (filter (fun l => negb (String.eqb l by_)) (columns (data gdf))))
    = Ok cols /\
    v = {| data := (by_, col_groups kc) :: cols;
           geometry_col :=
             map (fun g => merge_geometries
                             (select (col_hkeys kc) g (geometry_col gdf)))
                 (col_hkeys (col_groups kc)) |}.
Proof.
  intros Hk. unfold dissolve, groupby_agg. rewrite Hk. cbn [bind].
  destruct (mapM _ _) as [cols |] eqn:Hcols; cbn [bind]; [| discriminate].
  unfold reset_index. destruct (has_column cols by_); cbn [bind];
    [discriminate |].
  intros H. inversion H. eauto.
Qed.

End Dissolve.

Section DissolveRows.
Context {F : Float64Ops} {G : GeometryOps}.

#[local] Arguments agg_column : simpl never.

Lemma has_column_existsb (df : frame) (k : string) (c : column) :
  getitem df k = Ok c -> existsb (String.eqb k) (columns df) = true.
Proof.
  intros H. change (has_column df k = true).
  apply has_column_getitem. eauto.
Qed.

Lemma frame_filter_In (m : list bool) (df : frame) (l : string) (c : column) :
  In (l, c) (frame_filter m df) ->
  exists c', In (l, c') df /\ c = col_filter m c'.
Proof.
  unfold frame_filter. intros H. apply in_map_iff in H.
  destruct H as ([l' c'] & Heq & Hin). inversion Heq; subst. eauto.
Qed.

(** [dissolve] goes through on a table whose [object] columns hold text. *)
Lemma dissolve_ok (by_ : string) (gdf : geoframe) (kc : column) :
  getitem (data gdf) by_ = Ok kc ->
  (forall l c, In (l, c) (data gdf) -> text_column c) ->
  exists v, dissolve by_ gdf = Ok v.
Proof.
  intros Hk Htext. unfold dissolve, groupby_agg. rewrite Hk. cbn [bind].
  set (d := map (fun l => (l, Sum))
                (filter (fun l => negb (String.eqb l by_)) (columns (data gdf)))).
  destruct (mapM_ok (agg_one (data gdf) (col_hkeys kc)
                             (col_hkeys (col_groups kc))) d) as [cols Hcols].
  { intros [l f] Hin. unfold d in Hin. apply in_map_iff in Hin.
    destruct Hin as (l' & Heq & Hin). inversion Heq; subst l' f.
    apply filter_In in Hin. destruct Hin as [Hin _].
    assert (Hh : has_column (data gdf) l = true).
    { unfold has_column. apply existsb_exists. exists l.
      split; auto. apply String.eqb_refl. }
    apply has_column_getitem in Hh. destruct Hh as [c Hc].
    exists (l, summed (col_hkeys kc) (col_hkeys (col_groups kc)) c).
    unfold agg_one. simpl. rewrite Hc. cbn [bind].
    rewrite agg_column_summed; [reflexivity |].
    eapply Htext, getitem_In, Hc. }
  rewrite Hcols. cbn [bind]. unfold reset_index.
  replace (has_column cols by_) with false; [cbn [bind]; eauto |].
  symmetry. apply not_true_is_false. unfold has_column.
  rewrite (mapM_agg_one_labels _ _ _ _ _ Hcols).
  intros Hex. apply existsb_exists in Hex. destruct Hex as (x & Hin & Heq).
  apply String.eqb_eq in Heq. subst x. unfold d in Hin.
  rewrite map_map in Hin. simpl in Hin. rewrite map_id in Hin.
  apply filter_In in Hin. destruct Hin as [_ Hne].
  rewrite String.eqb_refl in Hne. discriminate.
Qed.

(** C6 (amended). On an enriched table whose grouping column has no
    missing value and whose [object] columns hold text, the dissolve step
    produces exactly one row per sampled grouping value, and every
    attribute of a row, numeric or not, is the sum of that attribute over
    the enriched rows of the group: numeric attributes are added up and
    text attributes are concatenated in row order. *)
Theorem dissolve_one_row_per_sampled_group (perm : list nat)
    (final_gdf : geoframe) (by_ : string) (kc : column) :
  getitem (data final_gdf) by_ = Ok kc ->
  ~ In HNaN (col_hkeys kc) ->
  Permutation perm (seq 0 (col_len (col_unique kc))) ->
  (forall l c, In (l, c) (data final_gdf) -> text_column c) ->
  List.length (geometry_col final_gdf) = col_len kc ->
  (0 < col_len kc)%nat ->
  exists vis index,
    visualize perm final_gdf by_ = Ok (Some vis) /\
    sampled_groups vis = sample perm (col_unique kc) /\
    getitem (data (visual_gdf vis)) by_ = Ok index /\
    NoDup (col_hkeys index) /\
    (forall h, In h (col_hkeys index) <->
               In h (col_hkeys (sampled_groups vis))) /\
    nrows (data (visual_gdf vis)) = col_len (sampled_groups vis) /\
    List.length (geometry_col (visual_gdf vis)) =
    col_len (sampled_groups vis) /\
    (forall col c,
       col <> by_ -> getitem (data final_gdf) col = Ok c ->
       getitem (data (visual_gdf vis)) col =
       Ok (summed (col_hkeys kc) (col_hkeys index) c)).
Proof.
  intros Hk Hnan Hperm Htext Hgeo Hpos.
  set (u := col_unique kc) in *.
  set (s := sample perm u).
  set (m := isin (col_hkeys kc) (col_hkeys s)).
  destruct (sample_keys perm u (col_unique_NoDup kc) Hperm)
    as [Hsnd Hsincl].
  destruct (sample_positions perm u Hperm) as (idx & Hs & _ & Hlt & Hlen).
  assert (Hin_s : forall h, In h (col_hkeys s) ->
                            In h (col_hkeys kc) /\ h <> HNaN).
  { intros h Hh. apply Hsincl in Hh.
    apply (proj1 (col_unique_In kc h)) in Hh. split; [exact Hh |].
    intros ->. contradiction. }
  assert (Hk' : getitem (data (geoframe_filter m final_gdf)) by_ =
                Ok (col_filter m kc)).
  { simpl. now rewrite getitem_frame_filter, Hk. }
  destruct (dissolve_ok by_ (geoframe_filter m final_gdf) _ Hk') as [v Hv].
  { intros l c Hin. simpl in Hin. apply frame_filter_In in Hin.
    destruct Hin as (c' & Hin & ->). eapply text_column_filter, Htext, Hin. }
  destruct (dissolve_inv by_ _ v _ Hk' Hv) as (cols & Hcols & Hveq).
  set (index := col_groups (col_filter m kc)) in *.
  assert (Hiff : forall h, In h (col_hkeys index) <-> In h (col_hkeys s)).
  { intros h. unfold index. rewrite col_groups_keys_In, col_hkeys_filter.
    unfold m. rewrite isin_filter_In. split; [tauto |].
    intros Hh. destruct (Hin_s h Hh). tauto. }
  assert (Hcount : col_len index = col_len s).
  { rewrite <- !col_len_hkeys. apply Permutation_length.
    apply NoDup_Permutation; auto. apply col_groups_keys_NoDup. }
  assert (Hne : gdf_empty (geoframe_filter m final_gdf) = false).
  { unfold gdf_empty. simpl. apply Nat.eqb_neq.
    assert (Hsl : col_len s = Nat.min 5 (col_len u)).
    { unfold s. rewrite Hs, col_len_take; auto. }
    assert (Hul : (0 < col_len u)%nat).
    { rewrite <- col_len_hkeys in Hpos.
      destruct (col_hkeys kc) as [| h ks] eqn:Hks; simpl in Hpos; [lia |].
      assert (Hh : In h (col_hkeys u)).
      { apply col_unique_In. rewrite Hks. simpl. auto. }
      rewrite <- col_len_hkeys. destruct (col_hkeys u); [destruct Hh |].
      simpl. lia. }
    assert (Hex : exists h, In h (col_hkeys s)).
    { assert (Hsp : (0 < List.length (col_hkeys s))%nat)
        by (rewrite col_len_hkeys; lia).
      destruct (col_hkeys s) as [| h l]; [simpl in Hsp; lia |].
      exists h. simpl. auto. }
    destruct Hex as [h Hh].
    assert (Hf : In h (filter_mask m (col_hkeys kc))).
    { apply isin_filter_In. split; auto. now apply Hin_s. }
    assert (Hml : List.length m = col_len kc).
    { unfold m, isin. now rewrite length_map, col_len_hkeys. }
    rewrite filter_mask_length by congruence.
    rewrite <- (filter_mask_length m (col_hkeys kc))
      by (rewrite col_len_hkeys; exact Hml).
    destruct (filter_mask m (col_hkeys kc)); [destruct Hf | discriminate]. }
  exists {| sampled_groups := s; visual_gdf := v |}, index.
  split.
  { unfold visualize. rewrite Hk. cbn [bind]. fold u. fold s. fold m.
    rewrite Hne, Hv. reflexivity. }
  split; [reflexivity |]. rewrite Hveq. simpl.
  split; [now rewrite String.eqb_refl |].
  split; [apply col_groups_keys_NoDup |].
  split; [exact Hiff |]. split; [exact Hcount |].
  split; [now rewrite length_map, col_len_hkeys |].
  intros col c Hcol Hc.
  destruct (String.eqb_spec by_ col) as [-> | _]; [congruence |].
  rewrite (mapM_agg_one_get _ _ _ _ _ col Hcols), dict_get_all_sum.
  change (data (geoframe_filter m final_gdf))
    with (frame_filter m (data final_gdf)).
  rewrite columns_frame_filter, (has_column_existsb _ _ _ Hc).
  destruct (String.eqb_spec col by_) as [-> | _]; [congruence |]. simpl.
  rewrite getitem_frame_filter, Hc. cbn [bind].
  rewrite col_hkeys_filter. unfold m.
  rewrite agg_column_isin.
  - apply agg_column_summed. eapply Htext, getitem_In, Hc.
  - intros h Hh. now apply Hiff.
Qed.

End DissolveRows.

Lemma dissolve_one_row_per_sampled_group_witness :
  exists vis index,
    visualize [0; 1]%nat scenario_final_gdf "state" = Ok (Some vis) /\
    sampled_groups vis =
    sample [0; 1]%nat
           (col_unique (Object [OStr "NY"; OStr "NY"; OStr "CA"])) /\
    getitem (data (visual_gdf vis)) "state" = Ok index /\
    NoDup (col_hkeys index) /\
    (forall h, In h (col_hkeys index) <->
               In h (col_hkeys (sampled_groups vis))) /\
    nrows (data (visual_gdf vis)) = col_len (sampled_groups vis) /\
    List.length (geometry_col (visual_gdf vis)) =
    col_len (sampled_groups vis) /\
    (forall col c,
       col <> "state" -> getitem (data scenario_final_gdf) col = Ok c ->
       getitem (data (visual_gdf vis)) col =
       Ok (summed (col_hkeys (Object [OStr "NY"; OStr "NY"; OStr "CA"]))
                  (col_hkeys index) c)).
Proof.
  apply (dissolve_one_row_per_sampled_group (F := example_floats)
           (G := example_geometries)
           [0; 1]%nat scenario_final_gdf "state"
           (Object [OStr "NY"; OStr "NY"; OStr "CA"])).
  - reflexivity.
  - simpl. intuition discriminate.
  - apply Permutation_refl.
  - intros l c [H | [H | [H | [H | [H | []]]]]]; inversion H; simpl;
      repeat constructor.
  - reflexivity.
  - simpl. lia.
Defined.

(** C6 as stated fails on the text attributes: dissolving the scenario by
    state gives the NY row the postal code ["0050100544"], the sum of the
    codes of its two enriched rows, where the first-seen value is
    ["00501"]. *)
Lemma dissolve_text_counterexample :
  visualize [0; 1]%nat scenario_final_gdf "state" =
  Ok (Some scenario_visual) /\
  summed_first_seen (F := example_floats)
    [HStr "NY"; HStr "NY"; HStr "CA"] [HStr "CA"; HStr "NY"]
    (Object [OStr "00501"; OStr "00544"; OStr "90210"]) =
  Object [OStr "90210"; OStr "00501"] /\
  getitem (data (visual_gdf scenario_visual)) "ZCTA5CE20" <>
  Ok (summed_first_seen
        [HStr "NY"; HStr "NY"; HStr "CA"] [HStr "CA"; HStr "NY"]
        (Object [OStr "00501"; OStr "00544"; OStr "90210"])).
Proof.
  split; [reflexivity |]. split; [reflexivity |].
  simpl. intros H. inversion H.
Qed.

(* ================================================================= *)
(** ** The exports *)

Section Exports.
Context {F : Float64Ops} {G : GeometryOps} {E : ExportOps}.

(** C8. Whenever the pipeline returns a non-empty enriched table, the
    page is built whatever the sampler draws, and its three downloads are
    the serializations of that full table: they are the same for every
    permutation drawn by the sampler, hence for every selection of groups,
    and they are there also when the visualization fails.  Sampling and
    dissolving only feed the visual part of the page. *)
Theorem exports_ignore_sampling (df : frame) (zc gc : string)
    (cols : list string) (provider : option boundaries)
    (final_gdf : geoframe) :
  create_full_geographic_data df zc gc (Some cols) provider = Ok final_gdf ->
  gdf_empty final_gdf = false ->
  forall perm, exists pg,
    generate df zc gc cols provider perm = Ok (Some pg) /\
    geojson_string (page_downloads pg) = to_json final_gdf /\
    csv_string (page_downloads pg) = to_csv (data final_gdf) /\
    shapefile_zip (page_downloads pg) =
    create_zip_file final_gdf "output_shapefile.zip" /\
    page_visual pg = visualize perm final_gdf gc.
Proof.
  intros Hfull Hne perm. unfold generate.
  rewrite Hfull. cbn [bind]. rewrite Hne.
  eexists. split; [reflexivity |]. repeat split.
Qed.

End Exports.

Lemma exports_ignore_sampling_witness :
  exists pg,
    generate scenario_df "zip" "state" ["pop"]
             (Some scenario_boundaries) [1; 0]%nat = Ok (Some pg) /\
    geojson_string (page_downloads pg) = to_json scenario_final_gdf /\
    csv_string (page_downloads pg) = to_csv (data scenario_final_gdf) /\
    shapefile_zip (page_downloads pg) =
    create_zip_file scenario_final_gdf "output_shapefile.zip" /\
    page_visual pg = visualize [1; 0]%nat scenario_final_gdf "state".
Proof.
  apply (exports_ignore_sampling (F := example_floats)
           (G := example_geometries) (E := example_exports)
           scenario_df "zip" "state" ["pop"] (Some scenario_boundaries)
           scenario_final_gdf); reflexivity.
Defined.

(** The scenario end to end: the enriched table keeps its three rows, the
    downloads describe all three, and the map shows the two dissolved
    states. *)
Example scenario_end_to_end :
  create_full_geographic_data scenario_df "zip" "state" (Some ["pop"])
    (Some scenario_boundaries) = Ok scenario_final_gdf /\
  generate scenario_df "zip" "state" ["pop"] (Some scenario_boundaries)
           [0; 1]%nat = Ok (Some scenario_page).
Proof. split; reflexivity. Qed.

(* ================================================================= *)
(** * Further properties of the code *)

(** ** Data preparation and aggregation *)

Section AggregatorMore.
Context {F : Float64Ops}.

Lemma getitem_missing (df : frame) (l : string) :
  has_column df l = false -> getitem df l = Raise (KeyError l).
Proof.
  unfold has_column, columns.
  induction df as [| [l' c'] df IH]; simpl; auto.
  rewrite String.eqb_sym. destruct (String.eqb l' l); simpl; auto.
  discriminate.
Qed.

Lemma columns_setitem (df : frame) (l : string) (c : column) :
  has_column df l = true -> columns (setitem df l c) = columns df.
Proof.
  unfold has_column, columns.
  induction df as [| [l' c'] df IH]; simpl; [discriminate |].
  rewrite String.eqb_sym. destruct (String.eqb l' l); simpl; auto.
  intros H. now rewrite IH.
Qed.

Lemma cleaned_columns (df : frame) (zc : string) (z g : column) :
  has_column df zc = true -> columns (cleaned df zc z g) = columns df.
Proof.
  intros H. unfold cleaned.
  rewrite columns_setitem, columns_frame_filter; auto.
  now rewrite has_column_frame_filter.
Qed.

Lemma filter_mask_length_le {A} (m : list bool) (xs : list A) :
  (List.length (filter_mask m xs) <= List.length xs)%nat.
Proof.
  revert xs. induction m as [| b m IH]; intros [| x xs]; simpl; try lia.
  destruct b; simpl; specialize (IH xs); lia.
Qed.

Lemma col_len_filter (m : list bool) (c : column) :
  List.length m = col_len c ->
  col_len (col_filter m c) = List.length (filter (fun b => b) m).
Proof. destruct c; simpl; apply filter_mask_length. Qed.

Lemma surviving_length (z g : column) :
  col_len z = col_len g -> List.length (surviving z g) = col_len z.
Proof.
  intros H. unfold surviving. rewrite map2_length, !col_len_isna. lia.
Qed.

Lemma col_filter_present (m : list bool) (c : column) :
  ~ In HNaN (col_hkeys (col_filter m c)) <->
  ~ In HNaN (filter_mask m (col_hkeys c)).
Proof. now rewrite col_hkeys_filter. Qed.

Lemma surviving_no_nan_right (ka kb : list hkey) :
  ~ In HNaN (filter_mask
               (map2 (fun a b => negb a && negb b)
                     (map hkey_isna ka) (map hkey_isna kb)) kb).
Proof.
  revert ka. induction kb as [| k kb IH]; intros [| a ka]; simpl; auto.
  destruct (hkey_isna a); simpl; auto.
  destruct k; simpl; auto; intros [H | H]; try discriminate;
    now apply (IH ka).
Qed.

Lemma nth_error_map2 {A B C} (f : A -> B -> C) (l : list A) (m : list B)
    (i : nat) :
  nth_error (map2 f l m) i =
  match nth_error l i, nth_error m i with
  | Some a, Some b => Some (f a b)
  | _, _ => None
  end.
Proof.
  revert m i. induction l as [| a l IH]; intros [| b m] [| i]; simpl; auto.
  destruct (nth_error l i); reflexivity.
Qed.

(** A record survives exactly when neither of its two cells is missing. *)
Lemma surviving_nth (z g : column) (i : nat) :
  nth_error (surviving z g) i = Some true <->
  exists a b, nth_error (col_hkeys z) i = Some a /\
              nth_error (col_hkeys g) i = Some b /\
              a <> HNaN /\ b <> HNaN.
Proof.
  unfold surviving, col_isna. rewrite nth_error_map2, !nth_error_map.
  destruct (nth_error (col_hkeys z) i) as [a |],
           (nth_error (col_hkeys g) i) as [b |]; simpl.
  - split.
    + intros H. inversion H as [H']. apply andb_true_iff in H'.
      destruct H' as [Ha Hb]. exists a, b.
      repeat split; auto; intros ->; discriminate.
    + intros (a' & b' & Ha & Hb & Hna & Hnb).
      inversion Ha; inversion Hb; subst.
      destruct a', b'; simpl; congruence.
  - split; [discriminate | intros (a' & b' & _ & Hb & _); discriminate].
  - split; [discriminate | intros (a' & b' & Ha & _); discriminate].
  - split; [discriminate | intros (a' & b' & Ha & _); discriminate].
Qed.

(** X1. Lines 44-46 keep the table in shape and keep the right records:
    on a well-formed table that has both columns, cleaning succeeds and
    keeps the labels and their order; a record is kept exactly when neither
    its postal code nor its grouping value is missing; every column other
    than the postal-code column is the input column restricted to the kept
    records, in their order, and the postal-code column holds their
    normalized codes; all columns stay equally long, there are as many
    rows as kept records, and no missing value is left in the grouping
    column. *)
Theorem clean_keeps_shape (df : frame) (zc gc : string) (z g : column) :
  wf_frame df ->
  getitem df zc = Ok z ->
  getitem df gc = Ok g ->
  exists df_clean,
    clean df zc gc = Ok df_clean /\
    columns df_clean = columns df /\
    (forall i, nth_error (surviving z g) i = Some true <->
       exists a b, nth_error (col_hkeys z) i = Some a /\
                   nth_error (col_hkeys g) i = Some b /\
                   a <> HNaN /\ b <> HNaN) /\
    getitem df_clean zc =
    Ok (str_column (map (zfill 5)
                        (filter_mask (surviving z g) (astype_str z)))) /\
    (forall l c, l <> zc -> getitem df l = Ok c ->
                 getitem df_clean l = Ok (col_filter (surviving z g) c)) /\
    wf_frame df_clean /\
    nrows df_clean = List.length (filter (fun b => b) (surviving z g)) /\
    (nrows df_clean <= nrows df)%nat /\
    (forall c, getitem df_clean gc = Ok c -> ~ In HNaN (col_hkeys c)).
Proof.
  intros Hwf Hz Hg.
  assert (Hhz : has_column df zc = true) by (apply has_column_getitem; eauto).
  assert (Hlz : col_len z = nrows df) by (eapply Hwf, getitem_In, Hz).
  assert (Hlg : col_len g = nrows df) by (eapply Hwf, getitem_In, Hg).
  assert (Hsl : List.length (surviving z g) = nrows df).
  { rewrite surviving_length; congruence. }
  assert (Hcount : forall l c, In (l, c) (cleaned df zc z g) ->
            col_len c = List.length (filter (fun b => b) (surviving z g))).
  { intros l c Hin.
    destruct (String.eqb_spec l zc) as [-> | Hne].
    - assert (Hc : c = str_column (surviving_codes z g) \/
                   exists c', In (zc, c') (frame_filter (surviving z g) df) /\
                              c = c').
      { unfold cleaned in Hin. revert Hin.
        generalize (frame_filter (surviving z g) df).
        intros fr. induction fr as [| [l' c'] fr IH]; simpl.
        - intros [H | []]. inversion H. auto.
        - destruct (String.eqb_spec l' zc) as [-> | Hl'].
          + intros [H | H]; [inversion H; auto |]. right. eauto.
          + intros [H | H]; [inversion H; subst; contradiction |].
            destruct (IH H) as [-> | (c'' & Hc'' & ->)]; auto.
            right. exists c''. auto. }
      destruct Hc as [-> | (c' & Hc' & ->)].
      + unfold str_column, surviving_codes. simpl.
        rewrite !length_map, filter_mask_length; auto.
        rewrite col_len_astype_str. congruence.
      + apply frame_filter_In in Hc'. destruct Hc' as (c0 & Hc0 & ->).
        rewrite col_len_filter; auto.
        rewrite (Hwf _ _ Hc0). exact Hsl.
    - assert (Hin' : In (l, c) (frame_filter (surviving z g) df)).
      { unfold cleaned in Hin. revert Hin.
        generalize (frame_filter (surviving z g) df).
        intros fr. induction fr as [| [l' c'] fr IH]; simpl.
        - intros [H | []]. inversion H. congruence.
        - destruct (String.eqb_spec l' zc) as [-> | Hl'].
          + intros [H | H]; [inversion H; congruence | auto].
          + intros [H | H]; auto. }
      apply frame_filter_In in Hin'. destruct Hin' as (c0 & Hc0 & ->).
      rewrite col_len_filter; auto.
      rewrite (Hwf _ _ Hc0). exact Hsl. }
  assert (Hrows : nrows (cleaned df zc z g) =
                  List.length (filter (fun b => b) (surviving z g))).
  { destruct (cleaned df zc z g) as [| [l c] fr] eqn:Hfr.
    - exfalso. apply (f_equal columns) in Hfr.
      rewrite cleaned_columns in Hfr by exact Hhz.
      destruct df; [discriminate Hz | discriminate Hfr].
    - simpl. apply (Hcount l c). simpl. auto. }
  exists (cleaned df zc z g).
  split; [now apply clean_ok |]. split; [now apply cleaned_columns |].
  split; [intros i; apply surviving_nth |].
  split; [apply cleaned_zip |].
  split; [intros l c Hl Hc; now rewrite (cleaned_other df zc l z g Hl), Hc |].
  split; [| split; [exact Hrows | split]].
  - intros l c Hin. rewrite Hrows. eapply Hcount, Hin.
  - rewrite Hrows, <- Hsl. apply filter_length_le.
  - intros c Hc.
    destruct (String.eqb_spec gc zc) as [-> | Hne].
    + rewrite cleaned_zip in Hc. inversion Hc; subst c.
      unfold str_column. simpl. rewrite map_map. simpl.
      intros H. apply in_map_iff in H. destruct H as (s & Hs & _).
      discriminate.
    + rewrite (cleaned_other df zc gc z g Hne), Hg in Hc. simpl in Hc.
      inversion Hc; subst c. rewrite col_hkeys_filter.
      unfold surviving, col_isna. apply surviving_no_nan_right.
Qed.

End AggregatorMore.

Section AggregatorErrors.
Context {F : Float64Ops} {G : GeometryOps}.

Lemma agg_dict_numeric_missing (df : frame) (cols : list string) :
  (exists c, In c cols /\ has_column df c = false) ->
  exists l, In l cols /\ has_column df l = false /\
            forall d, agg_dict_numeric df cols d = Raise (KeyError l).
Proof.
  induction cols as [| col cols IH]; intros (c & Hin & Hc).
  - destruct Hin.
  - destruct (has_column df col) eqn:Hcol.
    + destruct IH as (l & Hl & Hml & Hraise).
      { destruct Hin as [-> | Hin]; [congruence | eauto]. }
      exists l. split; [simpl; auto |]. split; auto.
      intros d. simpl.
      apply has_column_getitem in Hcol. destruct Hcol as [c' Hc'].
      rewrite Hc'. simpl. apply Hraise.
    + exists col. split; [simpl; auto |]. split; auto.
      intros d. simpl. now rewrite getitem_missing.
Qed.

(** X2. A retained column that the table does not have is reported by
    name: when both required columns are there and the retain-list names a
    column that is not in the table, the function raises [KeyError] for
    such a column, before it groups anything and whether or not the
    boundaries can be downloaded. *)
Theorem missing_retained_column_raises (df : frame) (zc gc : string)
    (inc : list string) (z g : column) :
  wf_frame df ->
  getitem df zc = Ok z ->
  getitem df gc = Ok g ->
  (exists c, In c inc /\ has_column df c = false) ->
  exists l,
    In l inc /\ has_column df l = false /\
    aggregate df zc gc (Some inc) = Raise (KeyError l) /\
    forall provider,
      create_full_geographic_data df zc gc (Some inc) provider =
      Raise (KeyError l).
Proof.
  intros Hwf Hz Hg (c & Hc & Hmiss).
  assert (Hhz : has_column df zc = true) by (apply has_column_getitem; eauto).
  assert (Hhg : has_column df gc = true) by (apply has_column_getitem; eauto).
  assert (Hsame : forall k, has_column (cleaned df zc z g) k = has_column df k).
  { intros k. unfold has_column. now rewrite cleaned_columns. }
  destruct (agg_dict_numeric_missing (cleaned df zc z g)
              (columns_to_aggregate inc gc))
    as (l & Hl & Hml & Hraise).
  { exists c. split; [| now rewrite Hsame].
    unfold columns_to_aggregate.
    assert (Hf : In c (filter (fun col => negb (String.eqb col gc)) inc)).
    { apply filter_In. split; auto.
      destruct (String.eqb_spec c gc); [congruence | reflexivity]. }
    destruct (existsb _ _); auto. apply in_app_iff. auto. }
  rewrite Hsame in Hml.
  assert (Hagg : aggregate df zc gc (Some inc) = Raise (KeyError l)).
  { rewrite (aggregate_unfold df zc gc inc z g Hwf Hz Hg), Hraise.
    reflexivity. }
  exists l. split; [| split; [exact Hml | split; [exact Hagg |]]].
  - apply columns_to_aggregate_In in Hl. destruct Hl as [Hl | ->]; auto.
    congruence.
  - intros provider. unfold create_full_geographic_data. now rewrite Hagg.
Qed.

End AggregatorErrors.

Section AggregatorShape.
Context {F : Float64Ops}.

Lemma dict_set_keys_same (d : dict) (k : string) (v : aggfunc) :
  In k (map fst d) -> map fst (dict_set d k v) = map fst d.
Proof.
  induction d as [| [k0 v0] d IH]; simpl; [tauto |].
  destruct (String.eqb_spec k0 k) as [-> | Hne]; simpl; auto.
  intros [H | H]; [congruence |]. now rewrite IH.
Qed.

Lemma dict_set_keys_new (d : dict) (k : string) (v : aggfunc) :
  ~ In k (map fst d) -> map fst (dict_set d k v) = map fst d ++ [k].
Proof.
  induction d as [| [k0 v0] d IH]; simpl; auto.
  intros H. destruct (String.eqb_spec k0 k) as [-> | Hne]; simpl.
  - tauto.
  - rewrite IH; tauto.
Qed.

Lemma filter_filter_keys (p q : string -> bool) (l : list string) :
  filter p (filter q l) = filter (fun k => p k && q k) l.
Proof.
  induction l as [| x l IH]; simpl; auto.
  destruct (q x); simpl; rewrite ?andb_false_r, ?andb_true_r;
    [destruct (p x); simpl |]; now rewrite IH.
Qed.

(** The keys of the dictionary of line 53: the columns to aggregate other
    than the postal-code column, each once, in order of first mention. *)
Lemma fold_first_keys (l : list string) (d : dict) :
  map fst (fold_left (fun d col => dict_set d col First) l d) =
  map fst d ++
  filter (fun k => negb (existsb (String.eqb k) (map fst d)))
         (unique_by HStr l).
Proof.
  revert d. induction l as [| col l IH]; intros d; simpl.
  - now rewrite app_nil_r.
  - rewrite IH.
    destruct (existsb (String.eqb col) (map fst d)) eqn:Hex; simpl.
    + pose proof Hex as Hex'. apply existsb_eqb_In in Hex.
      rewrite dict_set_keys_same by exact Hex.
      f_equal. rewrite filter_filter_keys. apply filter_ext_in.
      intros k _.
      destruct (existsb (String.eqb k) (map fst d)) eqn:Hk; simpl; auto.
      rewrite hkey_eqb_HStr.
      destruct (String.eqb_spec k col) as [-> | Hne]; simpl; auto.
      congruence.
    + assert (Hn : ~ In col (map fst d)).
      { intros H. apply existsb_eqb_In in H. congruence. }
      rewrite dict_set_keys_new by exact Hn.
      rewrite <- app_assoc. simpl. do 2 f_equal.
      rewrite filter_filter_keys. apply filter_ext_in.
      intros k _. rewrite existsb_app. simpl. rewrite orb_false_r.
      rewrite hkey_eqb_HStr.
      destruct (existsb (String.eqb k) (map fst d)); simpl; auto.
Qed.

End AggregatorShape.

Section AggregatorGrouped.
Context {F : Float64Ops}.

Lemma agg_dict_numeric_keys (df : frame) (cols : list string) :
  forall d d',
    agg_dict_numeric df cols d = Ok d' ->
    (forall col, In col cols -> numeric_in df col = true ->
                 In col (map fst d)) ->
    map fst d' = map fst d.
Proof.
  induction cols as [| col cols IH]; simpl; intros d d' H Hnum.
  - now inversion H.
  - destruct (getitem df col) as [c |] eqn:Hc; cbn [bind] in H;
      [| discriminate].
    destruct (is_numeric_dtype c) eqn:Hn.
    + assert (Hin : In col (map fst d)).
      { apply Hnum; auto. unfold numeric_in. now rewrite Hc. }
      rewrite (IH _ _ H).
      * now apply dict_set_keys_same.
      * intros col' Hin' Hn'. rewrite dict_set_keys_same by exact Hin.
        apply Hnum; auto.
    + apply (IH _ _ H). intros col' Hin' Hn'. apply Hnum; auto.
Qed.

Lemma filter_map_comm {A B} (p : B -> bool) (f : A -> B) (l : list A) :
  filter p (map f l) = map f (filter (fun x => p (f x)) l).
Proof.
  induction l as [| x l IH]; simpl; auto.
  destruct (p (f x)); simpl; now rewrite IH.
Qed.

Lemma unique_by_map_OStr (l : list string) :
  unique_by obj_hkey (map OStr l) = map OStr (unique_by HStr l).
Proof.
  induction l as [| s l IH]; simpl; auto.
  now rewrite IH, filter_map_comm.
Qed.

Lemma isort_map_OStr (l : list string) :
  isort obj_leb (map OStr l) = map OStr (isort String.leb l).
Proof.
  induction l as [| s l IH]; simpl; auto.
  rewrite IH. generalize (isort String.leb l). intros m.
  induction m as [| t m IHm]; simpl; auto.
  destruct (String.leb s t); simpl; auto. now rewrite IHm.
Qed.

(** The groups of a column of strings: its distinct values in ascending
    order. *)
Lemma groups_of_strings_sorted (codes : list string) :
  groups_of obj_hkey obj_leb (map OStr codes) =
  map OStr (isort String.leb (unique_by HStr codes)).
Proof.
  unfold groups_of. rewrite unique_by_map_OStr, filter_map_comm. simpl.
  rewrite <- isort_map_OStr. f_equal. f_equal.
  induction (unique_by HStr codes) as [| s l IH]; simpl; congruence.
Qed.

Lemma unique_by_strings_NoDup (l : list string) : NoDup (unique_by HStr l).
Proof.
  apply (NoDup_map_inv HStr). apply unique_by_keys_NoDup.
Qed.

Lemma unique_by_strings_In (l : list string) (s : string) :
  In s (unique_by HStr l) <-> In s l.
Proof.
  split; [apply unique_by_In |].
  intros H. apply (in_map HStr) in H. apply unique_by_keys_In in H.
  apply in_map_iff in H. destruct H as (x & Hx & Hin).
  inversion Hx; subst. exact Hin.
Qed.

Lemma sorted_codes_NoDup (codes : list string) :
  NoDup (isort String.leb (unique_by HStr codes)).
Proof.
  eapply Permutation_NoDup; [symmetry; apply isort_perm |].
  apply unique_by_strings_NoDup.
Qed.

Lemma sorted_codes_In (codes : list string) (k : string) :
  In k (isort String.leb (unique_by HStr codes)) <-> In k codes.
Proof.
  split; intros H.
  - apply (Permutation_in _ (isort_perm String.leb _)) in H.
    exact (proj1 (unique_by_strings_In _ _) H).
  - apply (Permutation_in _ (Permutation_sym (isort_perm String.leb _))).
    exact (proj2 (unique_by_strings_In _ _) H).
Qed.

(** Lines 40-63 when some column to aggregate is not the postal-code
    column: the table is grouped, the key column holds the distinct
    normalized codes in ascending order, and the other columns are those
    of the dictionary of line 53, each reduced by the rule of its dtype. *)
Lemma aggregate_grouped_some (df : frame) (zc gc : string)
    (inc : list string) (z g : column) :
  wf_frame df ->
  getitem df zc = Ok z ->
  getitem df gc = Ok g ->
  (forall c, In c inc -> has_column df c = true) ->
  (exists col, In col (columns_to_aggregate inc gc) /\ col <> zc) ->
  exists cols,
    aggregate df zc gc (Some inc) =
    Ok ((zc, str_column (isort String.leb
                           (unique_by HStr (surviving_codes z g)))) :: cols) /\
    columns cols = map fst (agg_dict_init (columns_to_aggregate inc gc) zc) /\
    (forall l c, In (l, c) cols ->
       col_len c =
       List.length (isort String.leb (unique_by HStr (surviving_codes z g)))) /\
    (forall col c,
       In col (columns_to_aggregate inc gc) -> col <> zc ->
       getitem df col = Ok c ->
       getitem cols col =
       Ok (reduced (surviving_codes z g)
                   (isort String.leb (unique_by HStr (surviving_codes z g)))
                   (col_filter (surviving z g) c))).
Proof.
  intros Hwf Hz Hg Hinc (col0 & Hcol0 & Hne).
  set (dfc := cleaned df zc z g).
  set (cta := columns_to_aggregate inc gc) in *.
  set (codes := surviving_codes z g).
  set (keys := isort String.leb (unique_by HStr codes)).
  assert (Hhg : has_column df gc = true) by (apply has_column_getitem; eauto).
  assert (Hcta : forall col, In col cta -> has_column dfc col = true).
  { intros col Hin. apply cleaned_has_column.
    apply columns_to_aggregate_In in Hin. destruct Hin as [H | ->]; auto. }
  destruct (agg_dict_numeric_get dfc cta Hcta (agg_dict_init cta zc))
    as (d & Hd & Hnonempty & Hget & HP).
  assert (Hok : Forall (entry_ok dfc zc) d).
  { apply HP.
    - unfold agg_dict_init. apply fold_first_Forall; [constructor |].
      intros col Hin. apply filter_In in Hin. destruct Hin as [Hin Hneq].
      apply negb_true_iff in Hneq.
      split; simpl; [destruct (String.eqb_spec col zc); congruence |].
      apply Hcta, has_column_getitem in Hin. destruct Hin as [c Hc].
      exists c. split; auto. discriminate.
    - intros col Hin Hnum. split; simpl.
      + intros ->. unfold dfc in Hnum.
        rewrite cleaned_zip_not_numeric in Hnum. discriminate.
      + unfold numeric_in in Hnum.
        destruct (getitem dfc col) as [c |]; [| discriminate]. eauto. }
  assert (Hkeys : map fst d = map fst (agg_dict_init cta zc)).
  { apply (agg_dict_numeric_keys dfc cta _ _ Hd).
    intros col Hin Hnum.
    assert (Hg' := agg_dict_init_get cta zc col).
    apply existsb_eqb_In in Hin. rewrite Hin in Hg'.
    destruct (String.eqb_spec col zc) as [-> | Hcz].
    - unfold dfc in Hnum. rewrite cleaned_zip_not_numeric in Hnum.
      discriminate.
    - simpl in Hg'. clear - Hg'.
      induction (agg_dict_init cta zc) as [| [k v] l IH]; simpl in *;
        [discriminate |].
      destruct (String.eqb_spec k col); auto. }
  assert (Hzc : getitem dfc zc = Ok (str_column codes)) by apply cleaned_zip.
  assert (Hd_ne : d <> []).
  { apply Hnonempty. unfold agg_dict_init. apply fold_first_nonempty. right.
    intros Hnil.
    assert (Hin : In col0 (filter (fun col => negb (String.eqb col zc)) cta)).
    { apply filter_In. split; [exact Hcol0 |].
      destruct (String.eqb_spec col0 zc); simpl; congruence. }
    rewrite Hnil in Hin. destruct Hin. }
  destruct (groupby_agg_ok dfc zc _ d Hzc Hok) as (cols & Hcols & Hgb).
  assert (Hidx : col_groups (str_column codes) = str_column keys).
  { unfold str_column. simpl. now rewrite groups_of_strings_sorted. }
  rewrite Hidx in *.
  exists cols. split; [| split; [| split]].
  - rewrite (aggregate_unfold df zc gc inc z g Hwf Hz Hg).
    fold dfc. fold cta. rewrite Hd. cbn [bind].
    destruct d; [congruence | exact Hgb].
  - now rewrite (mapM_agg_one_labels _ _ _ _ _ Hcols).
  - intros l c Hin. rewrite (mapM_agg_one_len _ _ _ _ _ Hcols l c Hin).
    unfold str_column. simpl. now rewrite !length_map.
  - intros col c Hcol Hcz Hc.
    rewrite (mapM_agg_one_get _ _ _ _ _ col Hcols), Hget, agg_dict_init_get.
    fold cta in Hcol. apply existsb_eqb_In in Hcol. rewrite Hcol.
    destruct (String.eqb_spec col zc) as [-> | _]; [congruence |].
    cbn [andb negb]. unfold numeric_in, dfc.
    rewrite (cleaned_other df zc col z g Hcz), Hc. cbn [bind].
    pose proof (agg_column_reduced codes keys (col_filter (surviving z g) c))
      as Hr.
    unfold str_column. cbn [col_hkeys]. rewrite !map_map.
    destruct (is_numeric_dtype (col_filter (surviving z g) c)); exact Hr.
Qed.

(** The same when the grouping column is not the postal-code column. *)
Lemma aggregate_grouped (df : frame) (zc gc : string) (inc : list string)
    (z g : column) :
  wf_frame df ->
  getitem df zc = Ok z ->
  getitem df gc = Ok g ->
  (forall c, In c inc -> has_column df c = true) ->
  gc <> zc ->
  exists cols,
    aggregate df zc gc (Some inc) =
    Ok ((zc, str_column (isort String.leb
                           (unique_by HStr (surviving_codes z g)))) :: cols) /\
    columns cols = map fst (agg_dict_init (columns_to_aggregate inc gc) zc) /\
    (forall l c, In (l, c) cols ->
       col_len c =
       List.length (isort String.leb (unique_by HStr (surviving_codes z g)))) /\
    (forall col c,
       In col (columns_to_aggregate inc gc) -> col <> zc ->
       getitem df col = Ok c ->
       getitem cols col =
       Ok (reduced (surviving_codes z g)
                   (isort String.leb (unique_by HStr (surviving_codes z g)))
                   (col_filter (surviving z g) c))).
Proof.
  intros Hwf Hz Hg Hinc Hne.
  apply (aggregate_grouped_some df zc gc inc z g); auto.
  exists gc. split; [apply columns_to_aggregate_group | exact Hne].
Qed.

End AggregatorGrouped.

Section Totals.

Lemma zsum_shift (l : list Z) (a : Z) : fold_left Z.add l a = (a + zsum l)%Z.
Proof.
  unfold zsum. revert a. induction l as [| x l IH]; intros a; simpl.
  - lia.
  - rewrite IH, (IH x). lia.
Qed.

Lemma zsum_cons (x : Z) (l : list Z) : zsum (x :: l) = (x + zsum l)%Z.
Proof. unfold zsum at 1. simpl. apply zsum_shift. Qed.

Lemma zsum_map_add {A} (f g : A -> Z) (l : list A) :
  zsum (map (fun k => f k + g k)%Z l) = (zsum (map f l) + zsum (map g l))%Z.
Proof.
  induction l as [| x l IH]; simpl; [reflexivity |].
  rewrite !zsum_cons, IH. lia.
Qed.

Lemma zsum_map_zero {A} (l : list A) : zsum (map (fun _ => 0%Z) l) = 0%Z.
Proof.
  induction l as [| x l IH]; simpl; [reflexivity |].
  rewrite zsum_cons, IH. lia.
Qed.

Lemma zsum_indicator (gs : list hkey) (k : hkey) (x : Z) :
  NoDup gs -> In k gs ->
  zsum (map (fun g => if hkey_eqb g k then x else 0%Z) gs) = x.
Proof.
  intros Hnd. induction Hnd as [| g gs Hg Hnd IH]; intros Hin; [destruct Hin |].
  simpl. rewrite zsum_cons.
  destruct Hin as [-> | Hin].
  - rewrite hkey_eqb_refl.
    rewrite (map_ext_in _ (fun _ => 0%Z)), zsum_map_zero; [lia |].
    intros g Hg'. replace (hkey_eqb g k) with false; auto.
    symmetry. apply hkey_eqb_neq. congruence.
  - rewrite IH by exact Hin.
    replace (hkey_eqb g k) with false; [lia |].
    symmetry. apply hkey_eqb_neq. congruence.
Qed.

Lemma hkey_eqb_sym_bool (a b : hkey) : hkey_eqb a b = hkey_eqb b a.
Proof.
  unfold hkey_eqb.
  destruct (hkey_eq_dec a b), (hkey_eq_dec b a); congruence.
Qed.

(** The groups partition the rows: summing a weight group by group and
    then over the groups gives its sum over all rows. *)
Lemma partition_sum {A} (w : A -> Z) (ks gs : list hkey) (xs : list A) :
  NoDup gs ->
  (forall k, In k ks -> In k gs) ->
  List.length ks = List.length xs ->
  zsum (map (fun g => zsum (map w (select ks g xs))) gs) = zsum (map w xs).
Proof.
  intros Hnd. revert xs.
  induction ks as [| k ks IH]; intros xs Hin Hlen.
  - destruct xs; [| discriminate]. unfold select. simpl.
    apply zsum_map_zero.
  - destruct xs as [| x xs]; [discriminate |].
    simpl. rewrite zsum_cons.
    rewrite <- (IH xs) by (simpl in *; auto; congruence).
    rewrite <- (zsum_indicator gs k (w x) Hnd) at 1 by (apply Hin; simpl; auto).
    rewrite <- zsum_map_add. f_equal. apply map_ext. intros g.
    unfold select. simpl.
    destruct (hkey_eqb g k); simpl; [now rewrite zsum_cons | reflexivity].
Qed.

Lemma wrap64_add_l (a b : Z) : wrap64 (wrap64 a + b) = wrap64 (a + b).
Proof.
  unfold wrap64. f_equal.
  replace ((a + 2 ^ 63) mod 2 ^ 64 - 2 ^ 63 + b + 2 ^ 63)%Z
    with ((a + 2 ^ 63) mod 2 ^ 64 + b)%Z by lia.
  rewrite Z.add_mod_idemp_l by lia. f_equal. lia.
Qed.

Lemma wrap64_add_r (a b : Z) : wrap64 (a + wrap64 b) = wrap64 (a + b).
Proof. rewrite Z.add_comm, wrap64_add_l. f_equal. lia. Qed.

Lemma wrap64_zsum_map {A} (f : A -> Z) (l : list A) :
  wrap64 (zsum (map (fun k => wrap64 (f k)) l)) = wrap64 (zsum (map f l)).
Proof.
  induction l as [| x l IH]; simpl; [reflexivity |].
  rewrite !zsum_cons, wrap64_add_l.
  rewrite <- wrap64_add_r, IH, wrap64_add_r. reflexivity.
Qed.

Lemma count_true_weight (l : list bool) :
  count_true l = zsum (map (fun b : bool => if b then 1%Z else 0%Z) l).
Proof.
  unfold count_true. induction l as [| b l IH]; [reflexivity |].
  cbn [map]. rewrite zsum_cons, <- IH.
  destruct b; cbn [filter List.length]; [rewrite Nat2Z.inj_succ |]; lia.
Qed.

End Totals.

Section AggregatorOutput.
Context {F : Float64Ops}.

Lemma insert_sorted_Sorted {A} (leb : A -> A -> bool) (x : A) (l : list A) :
  (forall a b, leb a b = true \/ leb b a = true) ->
  Sorted (fun a b => leb a b = true) l ->
  Sorted (fun a b => leb a b = true) (insert_sorted leb x l).
Proof.
  intros Htot. induction l as [| y l IH]; simpl; intros Hs.
  - repeat constructor.
  - destruct (leb x y) eqn:Hxy.
    + constructor; auto.
    + inversion Hs as [| ? ? Hs' Hhd]; subst.
      constructor; [now apply IH |].
      assert (Hyx : leb y x = true) by (destruct (Htot x y); congruence).
      destruct l as [| w l]; simpl; [now constructor |].
      destruct (leb x w); constructor; auto.
      now inversion Hhd.
Qed.

Lemma isort_Sorted {A} (leb : A -> A -> bool) (l : list A) :
  (forall a b, leb a b = true \/ leb b a = true) ->
  Sorted (fun a b => leb a b = true) (isort leb l).
Proof.
  intros Htot. induction l as [| x l IH]; simpl; [constructor |].
  now apply insert_sorted_Sorted.
Qed.

Lemma filter_all {A} (l : list A) : filter (fun _ => true) l = l.
Proof. induction l; simpl; congruence. Qed.

Lemma columns_to_aggregate_iff (inc : list string) (gc c : string) :
  In c (columns_to_aggregate inc gc) <-> In c inc \/ c = gc.
Proof.
  split; [apply columns_to_aggregate_In |].
  intros [H | ->]; [| apply columns_to_aggregate_group].
  destruct (string_dec c gc) as [-> | Hne];
    [apply columns_to_aggregate_group |].
  unfold columns_to_aggregate.
  assert (Hf : In c (filter (fun col => negb (String.eqb col gc)) inc)).
  { apply filter_In. split; auto.
    destruct (String.eqb_spec c gc); [congruence | reflexivity]. }
  destruct (existsb _ _); auto. apply in_app_iff. auto.
Qed.

(** The labels of the grouped table. *)
Lemma aggregated_schema_cols_some (df : frame) (zc gc : string)
    (inc : list string) (z g : column) :
  wf_frame df ->
  getitem df zc = Ok z ->
  getitem df gc = Ok g ->
  (forall c, In c inc -> has_column df c = true) ->
  (exists col, In col (columns_to_aggregate inc gc) /\ col <> zc) ->
  exists zip_data,
    aggregate df zc gc (Some inc) = Ok zip_data /\
    columns zip_data =
    zc :: unique_by HStr
            (filter (fun col => negb (String.eqb col zc))
                    (columns_to_aggregate inc gc)).
Proof.
  intros Hwf Hz Hg Hinc Hsome.
  destruct (aggregate_grouped_some df zc gc inc z g Hwf Hz Hg Hinc Hsome)
    as (cols & Hagg & Hlab & _ & _).
  eexists. split; [exact Hagg |].
  unfold columns in *. simpl. rewrite Hlab.
  unfold agg_dict_init. rewrite fold_first_keys. simpl.
  now rewrite filter_all.
Qed.

Lemma aggregated_schema_cols (df : frame) (zc gc : string) (inc : list string)
    (z g : column) :
  wf_frame df ->
  getitem df zc = Ok z ->
  getitem df gc = Ok g ->
  (forall c, In c inc -> has_column df c = true) ->
  gc <> zc ->
  exists zip_data,
    aggregate df zc gc (Some inc) = Ok zip_data /\
    columns zip_data =
    zc :: unique_by HStr
            (filter (fun col => negb (String.eqb col zc))
                    (columns_to_aggregate inc gc)).
Proof.
  intros Hwf Hz Hg Hinc Hne.
  apply (aggregated_schema_cols_some df zc gc inc z g); auto.
  exists gc. split; [apply columns_to_aggregate_group | exact Hne].
Qed.

(** Lines 49-51: the grouping column is taken out of the retain-list and
    put at its end, whether it was listed or not. *)
Lemma columns_to_aggregate_eq (inc : list string) (gc : string) :
  columns_to_aggregate inc gc =
  filter (fun col => negb (String.eqb col gc)) inc ++ [gc].
Proof.
  unfold columns_to_aggregate.
  destruct (existsb _ _) eqn:Hex; [| reflexivity].
  apply existsb_exists in Hex. destruct Hex as (x & Hin & Heq).
  apply String.eqb_eq in Heq. subst x.
  apply filter_In in Hin. destruct Hin as [_ Hin].
  rewrite String.eqb_refl in Hin. discriminate.
Qed.

Lemma unique_by_snoc (l : list string) (x : string) :
  ~ In x l -> unique_by HStr (l ++ [x]) = unique_by HStr l ++ [x].
Proof.
  induction l as [| y l IH]; simpl; intros Hx; [reflexivity |].
  rewrite IH by tauto. rewrite filter_app. simpl.
  rewrite hkey_eqb_HStr.
  destruct (String.eqb_spec x y) as [-> | _]; [tauto | reflexivity].
Qed.

(** The labels after the key: the retained columns other than the key and
    the grouping column, each once, then the grouping column. *)
Lemma kept_labels_last (inc : list string) (zc gc : string) :
  gc <> zc ->
  unique_by HStr (filter (fun col => negb (String.eqb col zc))
                         (columns_to_aggregate inc gc)) =
  unique_by HStr
    (filter (fun col => (negb (String.eqb col zc) &&
                         negb (String.eqb col gc))%bool) inc)
  ++ [gc].
Proof.
  intros Hne. rewrite columns_to_aggregate_eq, filter_app. simpl.
  destruct (String.eqb_spec gc zc) as [| _]; [contradiction |]. simpl.
  rewrite filter_filter_keys. apply unique_by_snoc.
  intros Hin. apply filter_In in Hin. destruct Hin as [_ Hin].
  rewrite String.eqb_refl, andb_false_r in Hin. discriminate.
Qed.

(** X3. Schema of the aggregated table.  When the grouping column is not
    the postal-code column, the aggregated table holds the postal-code
    column first, then the retained columns other than these two, each
    once and in order of first mention, and the grouping column last,
    whether or not the retain-list names it: its labels are pairwise
    distinct and are exactly the postal-code label, the grouping label and
    the labels of the retain-list. *)
Theorem aggregated_schema (df : frame) (zc gc : string) (inc : list string)
    (z g : column) :
  wf_frame df ->
  getitem df zc = Ok z ->
  getitem df gc = Ok g ->
  (forall c, In c inc -> has_column df c = true) ->
  gc <> zc ->
  exists zip_data,
    aggregate df zc gc (Some inc) = Ok zip_data /\
    columns zip_data =
    zc :: unique_by HStr
            (filter (fun col => (negb (String.eqb col zc) &&
                                 negb (String.eqb col gc))%bool) inc)
       ++ [gc] /\
    columns zip_data =
    zc :: unique_by HStr
            (filter (fun col => negb (String.eqb col zc))
                    (columns_to_aggregate inc gc)) /\
    NoDup (columns zip_data) /\
    (forall l, In l (columns zip_data) <-> l = zc \/ l = gc \/ In l inc).
Proof.
  intros Hwf Hz Hg Hinc Hne.
  destruct (aggregated_schema_cols df zc gc inc z g Hwf Hz Hg Hinc Hne)
    as (zip_data & Hagg & Hcols).
  assert (Hmem : forall l,
            In l (unique_by HStr
                    (filter (fun col => negb (String.eqb col zc))
                            (columns_to_aggregate inc gc))) <->
            In l (columns_to_aggregate inc gc) /\ l <> zc).
  { intros l. rewrite unique_by_strings_In, filter_In.
    destruct (String.eqb_spec l zc); simpl; intuition congruence. }
  exists zip_data. split; [exact Hagg |].
  split; [now rewrite Hcols, (kept_labels_last inc zc gc Hne) |].
  split; [exact Hcols |].
  rewrite Hcols. split.
  - constructor; [| apply unique_by_strings_NoDup].
    intros H. apply Hmem in H. tauto.
  - intros l. simpl. rewrite Hmem, columns_to_aggregate_iff.
    destruct (string_dec l zc) as [-> | Hl]; intuition congruence.
Qed.

Lemma unique_by_NoDup_id (l : list string) :
  NoDup l -> unique_by HStr l = l.
Proof.
  induction 1 as [| x l Hx Hnd IH]; simpl; auto.
  rewrite IH. f_equal.
  rewrite <- (filter_all l) at 2. apply filter_ext_in.
  intros y Hy. rewrite hkey_eqb_HStr.
  destruct (String.eqb_spec y x); [congruence | reflexivity].
Qed.

Lemma NoDup_filter {A} (p : A -> bool) (l : list A) :
  NoDup l -> NoDup (filter p l).
Proof.
  induction 1 as [| x l Hx Hnd IH]; simpl; [constructor |].
  destruct (p x); auto. constructor; auto.
  intros H. apply filter_In in H. tauto.
Qed.

Lemma default_metric_cols_In (cols : list string) (zc gc c : string) :
  In c (default_metric_cols cols zc gc) <-> In c cols /\ c <> zc /\ c <> gc.
Proof.
  unfold default_metric_cols. rewrite filter_In. simpl.
  destruct (String.eqb_spec c zc), (String.eqb_spec c gc); simpl;
    intuition congruence.
Qed.

Lemma filter_keep (p : string -> bool) (l : list string) :
  (forall c, In c l -> p c = true) -> filter p l = l.
Proof.
  induction l as [| x l IH]; simpl; intros H; [reflexivity |].
  rewrite (H x) by auto. f_equal. apply IH. auto.
Qed.

(** X4. The selection that the page proposes (every column but the
    postal-code and grouping columns), on a well-formed table whose labels
    are distinct.  When the grouping column is not the postal-code column,
    or the table has a further column, no input column is lost: the
    aggregated table has the postal-code column, then the proposed
    columns in their original order, then the grouping column if it is
    another one, which is a rearrangement of the labels of the input.  In
    the remaining case, a table with the postal-code column alone (which
    is then the grouping column too, as when the page opens), the result
    holds that column twice. *)
Theorem default_selection_keeps_every_column (df : frame) (zc gc : string)
    (z g : column) :
  wf_frame df ->
  NoDup (columns df) ->
  getitem df zc = Ok z ->
  getitem df gc = Ok g ->
  exists zip_data,
    aggregate df zc gc (Some (default_metric_cols (columns df) zc gc)) =
    Ok zip_data /\
    (gc <> zc \/ (exists c, In c (columns df) /\ c <> zc) ->
     columns zip_data =
     zc :: default_metric_cols (columns df) zc gc
        ++ (if String.eqb gc zc then [] else [gc]) /\
     Permutation (columns zip_data) (columns df)) /\
    (gc = zc -> columns df = [zc] -> columns zip_data = [zc; zc]).
Proof.
  intros Hwf Hnd Hz Hg.
  set (inc := default_metric_cols (columns df) zc gc).
  assert (Hinc : forall c, In c inc -> has_column df c = true).
  { intros c Hc. apply default_metric_cols_In in Hc.
    unfold has_column. apply existsb_eqb_In. tauto. }
  assert (Hzin : In zc (columns df)).
  { apply existsb_eqb_In. change (has_column df zc = true).
    apply has_column_getitem. eauto. }
  assert (Hgin : In gc (columns df)).
  { apply existsb_eqb_In. change (has_column df gc = true).
    apply has_column_getitem. eauto. }
  assert (Hcta : columns_to_aggregate inc gc = inc ++ [gc]).
  { rewrite columns_to_aggregate_eq. f_equal. apply filter_keep.
    intros c Hc. apply default_metric_cols_In in Hc.
    destruct (String.eqb_spec c gc); [tauto | reflexivity]. }
  assert (Hfz : filter (fun col => negb (String.eqb col zc)) (inc ++ [gc]) =
                inc ++ (if String.eqb gc zc then [] else [gc])).
  { rewrite filter_app. simpl. f_equal.
    - apply filter_keep. intros c Hc. apply default_metric_cols_In in Hc.
      destruct (String.eqb_spec c zc); [tauto | reflexivity].
    - destruct (String.eqb gc zc); reflexivity. }
  assert (Hnd' : NoDup (inc ++ (if String.eqb gc zc then [] else [gc]))).
  { destruct (String.eqb gc zc).
    - rewrite app_nil_r. apply NoDup_filter, Hnd.
    - eapply Permutation_NoDup; [apply Permutation_cons_append |].
      constructor.
      + intros H. apply default_metric_cols_In in H. tauto.
      + apply NoDup_filter, Hnd. }
  assert (Hgrouped :
            (exists col, In col (columns_to_aggregate inc gc) /\ col <> zc) ->
            exists zip_data,
              aggregate df zc gc (Some inc) = Ok zip_data /\
              columns zip_data =
              zc :: inc ++ (if String.eqb gc zc then [] else [gc]) /\
              Permutation (columns zip_data) (columns df)).
  { intros Hsome.
    destruct (aggregated_schema_cols_some df zc gc inc z g Hwf Hz Hg Hinc
                Hsome) as (zip_data & Hagg & Hcols).
    exists zip_data. split; [exact Hagg |].
    rewrite Hcols, Hcta, Hfz, unique_by_NoDup_id by exact Hnd'.
    split; [reflexivity |].
    apply NoDup_Permutation; [| exact Hnd |].
    - constructor; auto. intros H. apply in_app_iff in H.
      destruct H as [H | H].
      + apply default_metric_cols_In in H. tauto.
      + destruct (String.eqb_spec gc zc); [destruct H |].
        destruct H as [H | []]. congruence.
    - intros l. simpl. rewrite in_app_iff.
      unfold inc. rewrite default_metric_cols_In.
      destruct (String.eqb_spec gc zc) as [Heq | Hne]; simpl;
        destruct (string_dec l zc) as [Hlz | Hlz];
        destruct (string_dec l gc) as [Hlg | Hlg]; subst;
        intuition congruence. }
  destruct (string_dec gc zc) as [Heq | Hne].
  - destruct (filter (fun c => negb (String.eqb c zc)) (columns df))
      as [| c0 rest] eqn:Hoth.
    + (* the postal-code column alone: lines 60-61 *)
      assert (Hinc_nil : inc = []).
      { unfold inc, default_metric_cols.
        etransitivity; [| exact Hoth].
        apply filter_ext. intros c. cbn [existsb]. rewrite Heq.
        now destruct (String.eqb c zc). }
      assert (Hagg : aggregate df zc gc (Some inc) =
                     Ok (drop_duplicates
                           [(zc, str_column (surviving_codes z g));
                            (zc, str_column (surviving_codes z g))])).
      { rewrite (aggregate_unfold df zc gc inc z g Hwf Hz Hg).
        rewrite Hinc_nil, Heq.
        change (columns_to_aggregate [] zc) with [zc].
        unfold agg_dict_init. simpl. rewrite String.eqb_refl. simpl.
        rewrite (cleaned_zip df zc z g). simpl. unfold getitems. simpl.
        rewrite (cleaned_zip df zc z g). reflexivity. }
      eexists. split; [exact Hagg |]. split.
      * intros [Hne | (c & Hc & Hcz)]; [contradiction |]. exfalso.
        assert (Hin : In c (filter (fun c => negb (String.eqb c zc))
                                   (columns df))).
        { apply filter_In. split; auto.
          destruct (String.eqb_spec c zc); [contradiction | reflexivity]. }
        rewrite Hoth in Hin. destruct Hin.
      * intros _ _. unfold drop_duplicates.
        now rewrite columns_frame_filter.
    + (* a further column: the table is grouped *)
      assert (Hc0 : In c0 (columns df) /\ c0 <> zc).
      { assert (Hin : In c0 (filter (fun c => negb (String.eqb c zc))
                                    (columns df)))
          by (rewrite Hoth; simpl; auto).
        apply filter_In in Hin. destruct Hin as [Hin Hp]. split; auto.
        intros ->. rewrite String.eqb_refl in Hp. discriminate. }
      destruct Hc0 as [Hc0 Hcz].
      destruct Hgrouped as (zip_data & Hagg & Hcols & Hperm).
      { exists c0. split; [| exact Hcz]. rewrite Hcta. apply in_app_iff. left.
        apply default_metric_cols_In. repeat split; congruence. }
      exists zip_data. split; [exact Hagg |]. split; [auto |].
      intros _ Hone. exfalso.
      rewrite Hone in Hc0. destruct Hc0 as [H | []]. congruence.
  - destruct Hgrouped as (zip_data & Hagg & Hcols & Hperm).
    { exists gc. split; [apply columns_to_aggregate_group | exact Hne]. }
    exists zip_data. split; [exact Hagg |]. split; [auto |].
    intros Heq. contradiction.
Qed.

End AggregatorOutput.

Section AggregatorTotals.
Context {F : Float64Ops}.

Lemma block_partition {A} (w : A -> Z) (codes : list string) (xs : list A) :
  List.length codes = List.length xs ->
  zsum (map (fun k => zsum (map w (block codes k xs)))
            (isort String.leb (unique_by HStr codes))) =
  zsum (map w xs).
Proof.
  intros Hlen.
  rewrite <- (partition_sum w (map HStr codes)
                (map HStr (isort String.leb (unique_by HStr codes))) xs).
  - rewrite map_map. f_equal. apply map_ext. intros k.
    now rewrite select_block.
  - eapply Permutation_NoDup.
    + apply Permutation_map. symmetry. apply isort_perm.
    + apply unique_by_keys_NoDup.
  - intros h Hh. apply in_map_iff in Hh. destruct Hh as (c & <- & Hc).
    apply in_map. now apply sorted_codes_In.
  - now rewrite length_map.
Qed.

(** X5. Aggregation neither loses nor double counts: for a retained
    [int64] column the 64-bit total over the aggregated rows equals the
    64-bit total over the surviving records, and for a retained [bool]
    column the aggregated counts add up to the number of surviving records
    in which it is [True]. *)
Theorem aggregation_preserves_totals (df : frame) (zc gc : string)
    (inc : list string) (z g : column) (col : string) :
  wf_frame df ->
  getitem df zc = Ok z ->
  getitem df gc = Ok g ->
  (forall c, In c inc -> has_column df c = true) ->
  gc <> zc ->
  In col (columns_to_aggregate inc gc) ->
  col <> zc ->
  exists zip_data,
    aggregate df zc gc (Some inc) = Ok zip_data /\
    (forall xs, getitem df col = Ok (Int64 xs) ->
       exists ys,
         getitem zip_data col = Ok (Int64 ys) /\
         wrap64 (zsum ys) = wrap64 (zsum (filter_mask (surviving z g) xs))) /\
    (forall bs, getitem df col = Ok (Bool bs) ->
       exists ys,
         getitem zip_data col = Ok (Int64 ys) /\
         zsum ys = count_true (filter_mask (surviving z g) bs)).
Proof.
  intros Hwf Hz Hg Hinc Hne Hcol Hcz.
  destruct (aggregate_grouped df zc gc inc z g Hwf Hz Hg Hinc Hne)
    as (cols & Hagg & _ & _ & Hrule).
  assert (Hlz : col_len z = nrows df) by (eapply Hwf, getitem_In, Hz).
  assert (Hlg : col_len g = nrows df) by (eapply Hwf, getitem_In, Hg).
  assert (Hsl : List.length (surviving z g) = nrows df).
  { rewrite surviving_length; congruence. }
  assert (Hcl : forall c, getitem df col = Ok c ->
            List.length (surviving_codes z g) =
            col_len (col_filter (surviving z g) c)).
  { intros c Hc. unfold surviving_codes.
    rewrite length_map, filter_mask_length
      by (rewrite col_len_astype_str; congruence).
    rewrite col_len_filter; auto.
    rewrite Hsl. symmetry. eapply Hwf, getitem_In, Hc. }
  eexists. split; [exact Hagg |].
  assert (Hget : forall c, getitem df col = Ok c ->
            getitem ((zc, str_column
                            (isort String.leb
                               (unique_by HStr (surviving_codes z g)))) :: cols)
                    col =
            Ok (reduced (surviving_codes z g)
                        (isort String.leb
                           (unique_by HStr (surviving_codes z g)))
                        (col_filter (surviving z g) c))).
  { intros c Hc. simpl.
    destruct (String.eqb_spec zc col); [congruence |]. now apply Hrule. }
  split.
  - intros xs Hc. eexists. split; [apply (Hget _ Hc) |].
    rewrite wrap64_zsum_map. f_equal.
    transitivity (zsum (map (fun x => x) (filter_mask (surviving z g) xs)));
      [| now rewrite map_id].
    rewrite <- (block_partition (fun x => x) (surviving_codes z g))
      by apply (Hcl _ Hc).
    f_equal. apply map_ext. intros k. now rewrite map_id.
  - intros bs Hc. eexists. split; [apply (Hget _ Hc) |].
    rewrite count_true_weight.
    rewrite <- (block_partition (fun b : bool => if b then 1%Z else 0%Z)
                  (surviving_codes z g))
      by apply (Hcl _ Hc).
    f_equal. apply map_ext. intros k. apply count_true_weight.
Qed.

(** X6. Order of the aggregated rows.  When the grouping column is not
    the postal-code column, the aggregated rows come in ascending order of
    their normalized postal code (compared character by character),
    whatever the order of the input records; the codes are those of the
    surviving records, each once. *)
Theorem aggregated_rows_sorted (df : frame) (zc gc : string)
    (inc : list string) (z g : column) :
  wf_frame df ->
  getitem df zc = Ok z ->
  getitem df gc = Ok g ->
  (forall c, In c inc -> has_column df c = true) ->
  gc <> zc ->
  exists zip_data keys,
    aggregate df zc gc (Some inc) = Ok zip_data /\
    getitem zip_data zc = Ok (str_column keys) /\
    Sorted (fun a b => String.leb a b = true) keys /\
    NoDup keys /\
    (forall k, In k keys <-> In k (surviving_codes z g)).
Proof.
  intros Hwf Hz Hg Hinc Hne.
  destruct (aggregate_grouped df zc gc inc z g Hwf Hz Hg Hinc Hne)
    as (cols & Hagg & _).
  eexists. exists (isort String.leb (unique_by HStr (surviving_codes z g))).
  split; [exact Hagg |].
  split; [simpl; now rewrite String.eqb_refl |].
  split; [apply isort_Sorted, String.leb_total |].
  split; [apply sorted_codes_NoDup | apply sorted_codes_In].
Qed.

End AggregatorTotals.

Lemma clean_keeps_shape_witness :
  exists df_clean,
    clean scenario_df "zip" "state" = Ok df_clean /\
    columns df_clean = columns scenario_df /\
    (forall i,
       nth_error (surviving (Object [OStr "501"; OStr "00544"; OStr "90210"])
                            (Object [OStr "NY"; OStr "NY"; OStr "CA"])) i =
       Some true <->
       exists a b,
         nth_error (col_hkeys (Object [OStr "501"; OStr "00544"; OStr "90210"]))
                   i = Some a /\
         nth_error (col_hkeys (Object [OStr "NY"; OStr "NY"; OStr "CA"])) i =
         Some b /\
         a <> HNaN /\ b <> HNaN) /\
    getitem df_clean "zip" =
    Ok (str_column
          (map (zfill 5)
               (filter_mask
                  (surviving (Object [OStr "501"; OStr "00544"; OStr "90210"])
                             (Object [OStr "NY"; OStr "NY"; OStr "CA"]))
                  (astype_str
                     (Object [OStr "501"; OStr "00544"; OStr "90210"]))))) /\
    (forall l c, l <> "zip" -> getitem scenario_df l = Ok c ->
       getitem df_clean l =
       Ok (col_filter
             (surviving (Object [OStr "501"; OStr "00544"; OStr "90210"])
                        (Object [OStr "NY"; OStr "NY"; OStr "CA"])) c)) /\
    wf_frame df_clean /\
    nrows df_clean =
    List.length
      (filter (fun b => b)
         (surviving (Object [OStr "501"; OStr "00544"; OStr "90210"])
                    (Object [OStr "NY"; OStr "NY"; OStr "CA"]))) /\
    (nrows df_clean <= nrows scenario_df)%nat /\
    (forall c, getitem df_clean "state" = Ok c -> ~ In HNaN (col_hkeys c)).
Proof.
  apply (clean_keeps_shape (F := example_floats) scenario_df "zip" "state").
  - apply wf_frame_forallb. reflexivity.
  - reflexivity.
  - reflexivity.
Defined.

Lemma missing_retained_column_raises_witness :
  exists l,
    In l ["pop"; "income"] /\ has_column scenario_df l = false /\
    aggregate scenario_df "zip" "state" (Some ["pop"; "income"]) =
    Raise (KeyError l) /\
    forall provider,
      create_full_geographic_data (G := example_geometries) scenario_df
        "zip" "state" (Some ["pop"; "income"]) provider =
      Raise (KeyError l).
Proof.
  apply (missing_retained_column_raises (F := example_floats)
           (G := example_geometries) scenario_df "zip" "state"
           ["pop"; "income"]
           (Object [OStr "501"; OStr "00544"; OStr "90210"])
           (Object [OStr "NY"; OStr "NY"; OStr "CA"])).
  - apply wf_frame_forallb. reflexivity.
  - reflexivity.
  - reflexivity.
  - exists "income". split; [simpl; auto | reflexivity].
Defined.

Lemma aggregated_schema_witness :
  exists zip_data,
    aggregate scenario_df "zip" "state" (Some ["pop"]) = Ok zip_data /\
    columns zip_data =
    "zip" :: unique_by HStr
               (filter (fun col => (negb (String.eqb col "zip") &&
                                    negb (String.eqb col "state"))%bool)
                       ["pop"])
          ++ ["state"] /\
    columns zip_data =
    "zip" :: unique_by HStr
               (filter (fun col => negb (String.eqb col "zip"))
                       (columns_to_aggregate ["pop"] "state")) /\
    NoDup (columns zip_data) /\
    (forall l, In l (columns zip_data) <->
               l = "zip" \/ l = "state" \/ In l ["pop"]).
Proof.
  apply (aggregated_schema (F := example_floats) scenario_df "zip" "state"
           ["pop"]
           (Object [OStr "501"; OStr "00544"; OStr "90210"])
           (Object [OStr "NY"; OStr "NY"; OStr "CA"])).
  - apply wf_frame_forallb. reflexivity.
  - reflexivity.
  - reflexivity.
  - intros c [<- | []]. reflexivity.
  - discriminate.
Defined.

Lemma default_selection_keeps_every_column_witness :
  exists zip_data,
    aggregate scenario_df "zip" "state"
      (Some (default_metric_cols (columns scenario_df) "zip" "state")) =
    Ok zip_data /\
    ("state" <> "zip" \/
     (exists c, In c (columns scenario_df) /\ c <> "zip") ->
     columns zip_data =
     "zip" :: default_metric_cols (columns scenario_df) "zip" "state"
           ++ (if String.eqb "state" "zip" then [] else ["state"]) /\
     Permutation (columns zip_data) (columns scenario_df)) /\
    ("state" = "zip" -> columns scenario_df = ["zip"] ->
     columns zip_data = ["zip"; "zip"]).
Proof.
  apply (default_selection_keeps_every_column (F := example_floats)
           scenario_df "zip" "state"
           (Object [OStr "501"; OStr "00544"; OStr "90210"])
           (Object [OStr "NY"; OStr "NY"; OStr "CA"])).
  - apply wf_frame_forallb. reflexivity.
  - apply NoDup_by_nodup. reflexivity.
  - reflexivity.
  - reflexivity.
Defined.

Lemma aggregation_preserves_totals_witness :
  exists zip_data,
    aggregate scenario_df "zip" "state" (Some ["pop"]) = Ok zip_data /\
    (forall xs, getitem scenario_df "pop" = Ok (Int64 xs) ->
       exists ys,
         getitem zip_data "pop" = Ok (Int64 ys) /\
         wrap64 (zsum ys) =
         wrap64 (zsum (filter_mask
                         (surviving
                            (Object [OStr "501"; OStr "00544"; OStr "90210"])
                            (Object [OStr "NY"; OStr "NY"; OStr "CA"]))
                         xs))) /\
    (forall bs, getitem scenario_df "pop" = Ok (Bool bs) ->
       exists ys,
         getitem zip_data "pop" = Ok (Int64 ys) /\
         zsum ys =
         count_true (filter_mask
                       (surviving
                          (Object [OStr "501"; OStr "00544"; OStr "90210"])
                          (Object [OStr "NY"; OStr "NY"; OStr "CA"]))
                       bs)).
Proof.
  apply (aggregation_preserves_totals (F := example_floats) scenario_df
           "zip" "state" ["pop"]
           (Object [OStr "501"; OStr "00544"; OStr "90210"])
           (Object [OStr "NY"; OStr "NY"; OStr "CA"]) "pop").
  - apply wf_frame_forallb. reflexivity.
  - reflexivity.
  - reflexivity.
  - intros c [<- | []]. reflexivity.
  - discriminate.
  - simpl. auto.
  - discriminate.
Defined.

Lemma aggregated_rows_sorted_witness :
  exists zip_data keys,
    aggregate scenario_df "zip" "state" (Some ["pop"]) = Ok zip_data /\
    getitem zip_data "zip" = Ok (str_column keys) /\
    Sorted (fun a b => String.leb a b = true) keys /\
    NoDup keys /\
    (forall k, In k keys <->
       In k (surviving_codes
               (Object [OStr "501"; OStr "00544"; OStr "90210"])
               (Object [OStr "NY"; OStr "NY"; OStr "CA"]))).
Proof.
  apply (aggregated_rows_sorted (F := example_floats) scenario_df
           "zip" "state" ["pop"]).
  - apply wf_frame_forallb. reflexivity.
  - reflexivity.
  - reflexivity.
  - intros c [<- | []]. reflexivity.
  - discriminate.
Defined.

(* ================================================================= *)
(** ** The join with the boundaries *)

Section JoinMore.
Context {F : Float64Ops} {G : GeometryOps}.

Lemma merge_block_nonempty (rkeys : list string)
    (rgeom : list (option geometry)) (k : string) :
  (1 <= List.length (merge_block rkeys rgeom k))%nat.
Proof.
  unfold merge_block. destruct (filter_mask _ _); simpl; lia.
Qed.

Lemma repeat_rows_length {A} (counts : list nat) (xs : list A) :
  List.length xs = List.length counts ->
  List.length (repeat_rows counts xs) = list_sum counts.
Proof.
  unfold repeat_rows. revert xs.
  induction counts as [| n counts IH]; intros [| x xs] Hlen; simpl in *;
    try discriminate; auto.
  rewrite length_app, repeat_length, IH; auto.
Qed.

Lemma col_repeat_length (counts : list nat) (c : column) :
  col_len c = List.length counts ->
  col_len (col_repeat counts c) = list_sum counts.
Proof. destruct c; simpl; apply repeat_rows_length. Qed.

Lemma flat_map_length_sum {A B} (f : A -> list B) (l : list A) :
  List.length (flat_map f l) = list_sum (map (fun a => List.length (f a)) l).
Proof.
  induction l as [| a l IH]; simpl; auto.
  now rewrite length_app, IH.
Qed.

Lemma list_sum_ge (l : list nat) :
  Forall (fun n => 1 <= n)%nat l -> (List.length l <= list_sum l)%nat.
Proof. induction 1; simpl; lia. Qed.

Lemma repeat_rows_In {A} (counts : list nat) (xs : list A) (x : A) :
  Forall (fun n => 1 <= n)%nat counts ->
  List.length xs = List.length counts ->
  (In x (repeat_rows counts xs) <-> In x xs).
Proof.
  unfold repeat_rows. intros Hc. revert xs.
  induction Hc as [| n counts Hn Hc IH]; intros [| y xs] Hlen; simpl in *;
    try discriminate; [tauto |].
  rewrite in_app_iff, IH by congruence.
  split.
  - intros [H | H]; auto. apply repeat_spec in H. auto.
  - intros [-> | H]; auto. left. destruct n; [lia |]. simpl. auto.
Qed.

Lemma rename_columns_absent (df : frame) (old new : string) :
  old <> new -> has_column (rename old new df) old = false.
Proof.
  intros Hne. apply not_true_is_false. intros H.
  unfold has_column, columns, rename in H. rewrite map_map in H.
  apply existsb_exists in H. destruct H as (l & Hin & Heq).
  apply String.eqb_eq in Heq. subst l.
  apply in_map_iff in Hin. destruct Hin as ([l c] & Hl & _). simpl in Hl.
  destruct (String.eqb_spec l old); congruence.
Qed.

Lemma repeat_rows_map {A B} (f : A -> B) (counts : list nat) (xs : list A) :
  repeat_rows counts (map f xs) = map f (repeat_rows counts xs).
Proof.
  unfold repeat_rows. revert xs.
  induction counts as [| n counts IH]; intros [| x xs]; simpl; auto.
  rewrite map_app, IH. f_equal.
  induction n; simpl; congruence.
Qed.

Lemma getitem_map_columns (f : column -> column) (df : frame) (l : string)
    (c : column) :
  getitem df l = Ok c ->
  getitem (map (fun lc => (fst lc, f (snd lc))) df) l = Ok (f c).
Proof.
  induction df as [| [l' c'] df IH]; simpl; [discriminate |].
  destruct (String.eqb l' l); auto. intros H. now inversion H.
Qed.

Lemma suffix_x_not_key (l : string) : (l ++ "_x")%string <> "ZCTA5CE20".
Proof.
  intros H. pose proof (f_equal String.length H) as Hlen.
  rewrite append_length in Hlen. simpl in Hlen.
  do 8 (destruct l as [| ? l]; [simpl in H; try discriminate |];
        simpl in Hlen; try lia).
Qed.

Lemma overlap_In (llabels rlabels : list string) (l : string) :
  In l (overlap llabels rlabels) <-> In l llabels /\ In l rlabels.
Proof.
  unfold overlap. rewrite filter_In. split; intros [H1 H2]; split; auto.
  - apply existsb_exists in H2. destruct H2 as (x & Hx & Heq).
    apply String.eqb_eq in Heq. now subst.
  - apply existsb_exists. exists l. split; auto. apply String.eqb_refl.
Qed.

Lemma key_not_clashing (zip_data : frame) (zc : string) (b : boundaries) :
  ~ In "ZCTA5CE20" (map fst (boundary_fields b)) ->
  ~ In "ZCTA5CE20" (clashing zip_data zc b).
Proof.
  intros Hk Hin. apply overlap_In in Hin. destruct Hin as [_ Hin].
  unfold right_labels in Hin. apply in_app_iff in Hin.
  destruct Hin as [Hin | [Heq | []]]; [auto | discriminate].
Qed.

Lemma with_suffix_key (tr : list string) (l : string) :
  ~ In "ZCTA5CE20" tr ->
  String.eqb (with_suffix tr "_x" l) "ZCTA5CE20" = String.eqb l "ZCTA5CE20".
Proof.
  intros Hk. unfold with_suffix.
  destruct (existsb (String.eqb l) tr) eqn:Hex; [| reflexivity].
  apply existsb_exists in Hex. destruct Hex as (x & Hx & Heq).
  apply String.eqb_eq in Heq. subst x.
  destruct (String.eqb_spec (l ++ "_x") "ZCTA5CE20") as [H | _];
    [now apply suffix_x_not_key in H |].
  destruct (String.eqb_spec l "ZCTA5CE20"); [congruence | reflexivity].
Qed.

(** The key column of the merged table is the left one. *)
Lemma getitem_merged_key (tr : list string) (f : column -> column)
    (df more : frame) (c : column) :
  ~ In "ZCTA5CE20" tr ->
  getitem df "ZCTA5CE20" = Ok c ->
  getitem (map (fun lc => (with_suffix tr "_x" (fst lc), f (snd lc))) df
           ++ more) "ZCTA5CE20" = Ok (f c).
Proof.
  intros Hk. induction df as [| [l c'] df IH]; simpl; [discriminate |].
  rewrite (with_suffix_key tr l Hk).
  destruct (String.eqb l "ZCTA5CE20"); auto.
  intros H. now inversion H.
Qed.

Lemma filter_mask_length_eq {A B} (m : list bool) (xs : list A) (ys : list B) :
  List.length xs = List.length ys ->
  List.length (filter_mask m xs) = List.length (filter_mask m ys).
Proof.
  revert xs ys. induction m as [| b m IH]; intros [| x xs] [| y ys] H;
    simpl in *; try discriminate; auto.
  destruct b; simpl; auto.
Qed.

(** A left row gets as many cells of a field as it gets geometries. *)
Lemma merge_cells_length {A} (rkeys : list string) (xs : list A)
    (rgeom : list (option geometry)) (k : string) :
  List.length xs = List.length rgeom ->
  List.length (merge_cells rkeys xs k) =
  List.length (merge_block rkeys rgeom k).
Proof.
  intros Hlen. unfold merge_cells, merge_block.
  pose proof (filter_mask_length_eq (map (String.eqb k) rkeys) xs rgeom Hlen)
    as H.
  destruct (filter_mask _ xs), (filter_mask _ rgeom); simpl in *;
    try discriminate; auto.
  now rewrite length_map.
Qed.

Lemma flat_map_length_ext {A B C} (f : A -> list B) (g : A -> list C)
    (l : list A) :
  (forall a, List.length (f a) = List.length (g a)) ->
  List.length (flat_map f l) = List.length (flat_map g l).
Proof.
  intros H. induction l as [| a l IH]; simpl; auto.
  now rewrite !length_app, H, IH.
Qed.

Lemma field_merge_length (rkeys lkeys : list string) (f : field)
    (rgeom : list (option geometry)) :
  field_len f = List.length rgeom ->
  col_len (field_merge rkeys lkeys f) =
  List.length (flat_map (merge_block rkeys rgeom) lkeys).
Proof.
  intros Hlen. destruct f as [xs | xs | xs]; simpl in *.
  - rewrite length_map. apply flat_map_length_ext.
    intros k. now apply merge_cells_length.
  - destruct (all_some _); simpl; rewrite length_map;
      apply flat_map_length_ext; intros k; now apply merge_cells_length.
  - rewrite length_map. apply flat_map_length_ext.
    intros k. now apply merge_cells_length.
Qed.

Lemma field_len_filter (m : list bool) (f : field) :
  field_len (field_filter m f) =
  List.length (filter_mask m (repeat tt (field_len f))).
Proof.
  destruct f as [xs | xs | xs]; simpl;
    apply filter_mask_length_eq; now rewrite repeat_length.
Qed.

(** X7. The join never drops an aggregated row, whatever the provider
    returns (duplicate keys included): for a well-formed census table and
    labels that the merge accepts (a unique key label, no ['geometry']
    column, no two labels made equal by the suffixes) it succeeds, every
    aggregated code is a code of the enriched table and conversely, the
    enriched table has at least as many rows as the aggregated one, and
    all its columns, census fields and geometry included, are equally
    long. *)
Theorem merge_never_drops_rows (zip_data : frame) (zc : string)
    (zcta_gdf : boundaries) (keys : list string) :
  wf_frame zip_data ->
  getitem zip_data zc = Ok (str_column keys) ->
  List.length (filter (String.eqb "ZCTA5CE20")
                 (columns (rename zc "ZCTA5CE20" zip_data))) = 1%nat ->
  has_column (rename zc "ZCTA5CE20" zip_data) "geometry" = false ->
  merge_duplicates (left_labels zip_data zc)
                   (right_labels (boundary_fields zcta_gdf)) = [] ->
  wf_boundaries zcta_gdf ->
  exists final_gdf codes,
    filter_and_merge zip_data zc zcta_gdf = Ok final_gdf /\
    getitem (data final_gdf) "ZCTA5CE20" = Ok (str_column codes) /\
    (forall k, In k codes <-> In k keys) /\
    (nrows zip_data <= List.length (geometry_col final_gdf))%nat /\
    (forall l c, In (l, c) (data final_gdf) ->
                 col_len c = List.length (geometry_col final_gdf)).
Proof.
  intros Hwf Hz Hlab Hgeo Hdup (Hbk & Hbf & Hbz).
  rewrite (filter_and_merge_unfold zip_data zc zcta_gdf keys Hz Hlab Hgeo Hdup).
  set (mask := isin (map HStr (astype_str (ZCTA5CE20 zcta_gdf)))
                    (map HStr keys)).
  set (rk := filter_mask mask (astype_str (ZCTA5CE20 zcta_gdf))).
  set (rg := filter_mask mask (boundary_geometry zcta_gdf)).
  set (counts := map (fun k => List.length (merge_block rk rg k)) keys).
  assert (Hrows : List.length keys = nrows zip_data).
  { rewrite <- (Hwf zc (str_column keys) (getitem_In _ _ _ Hz)).
    unfold str_column. simpl. now rewrite length_map. }
  assert (Hcounts : Forall (fun n => 1 <= n)%nat counts).
  { apply Forall_forall. intros n Hn. apply in_map_iff in Hn.
    destruct Hn as (k & <- & _). apply merge_block_nonempty. }
  assert (Hlk : getitem (rename zc "ZCTA5CE20" zip_data) "ZCTA5CE20" =
                Ok (str_column keys))
    by now apply getitem_rename_unique.
  assert (Hglen : List.length (flat_map (merge_block rk rg) keys) =
                  list_sum counts).
  { unfold counts. apply flat_map_length_sum. }
  eexists. exists (repeat_rows counts keys).
  split; [reflexivity |]. cbn [data geometry_col].
  split; [| split; [| split]].
  - rewrite (getitem_merged_key _ (col_repeat counts) _ _ _
               (key_not_clashing zip_data zc zcta_gdf Hbz) Hlk).
    unfold str_column. simpl. now rewrite repeat_rows_map.
  - intros k. apply repeat_rows_In; auto.
    unfold counts. now rewrite length_map.
  - rewrite Hglen, <- Hrows.
    replace (List.length keys) with (List.length counts)
      by (unfold counts; apply length_map).
    now apply list_sum_ge.
  - intros l c Hin. apply in_app_iff in Hin. destruct Hin as [Hin | Hin].
    + apply in_map_iff in Hin.
      destruct Hin as ([l' c'] & Heq & Hin). inversion Heq; subst. simpl.
      rewrite Hglen. apply col_repeat_length.
      unfold counts. rewrite length_map, Hrows.
      destruct (rename_In _ _ _ _ _ Hin) as [l0 Hin0]. eapply Hwf, Hin0.
    + unfold census_columns in Hin. apply in_map_iff in Hin.
      destruct Hin as ([l' f] & Heq & Hin). inversion Heq; subst l c.
      fold mask. fold rk. apply field_merge_length.
      rewrite field_len_filter. unfold rg.
      apply filter_mask_length_eq. rewrite repeat_length. cbn [snd].
      eapply Hbf, Hin.
Qed.

End JoinMore.

Section JoinProvenance.
Context {F : Float64Ops} {G : GeometryOps}.

Lemma combine_app_same {A B} (a b : list A) (c d : list B) :
  List.length a = List.length c ->
  combine (a ++ b) (c ++ d) = combine a c ++ combine b d.
Proof.
  revert c. induction a as [| x a IH]; intros [| y c] H; simpl in *;
    try discriminate; auto.
  f_equal. apply IH. congruence.
Qed.

Lemma combine_repeat {A B} (k : A) (l : list B) :
  combine (repeat k (List.length l)) l = map (pair k) l.
Proof. induction l as [| x l IH]; simpl; congruence. Qed.

Lemma combine_repeat_rows {A B} (f : A -> list B) (keys : list A) :
  combine (repeat_rows (map (fun k => List.length (f k)) keys) keys)
          (flat_map f keys) =
  flat_map (fun k => map (pair k) (f k)) keys.
Proof.
  unfold repeat_rows. induction keys as [| k keys IH]; simpl; auto.
  rewrite combine_app_same by apply repeat_length.
  now rewrite combine_repeat, IH.
Qed.

Lemma block_In_combine {A} (rkeys : list string) (k : string) (xs : list A)
    (x : A) :
  In x (block rkeys k xs) -> In (k, x) (combine rkeys xs).
Proof.
  unfold block. revert xs.
  induction rkeys as [| r rkeys IH]; intros [| y xs]; simpl; try tauto.
  destruct (String.eqb_spec k r) as [-> | Hne]; simpl.
  - intros [-> | H]; auto.
  - intros H. right. now apply IH.
Qed.

Lemma block_empty_absent {A} (rkeys : list string) (k : string)
    (xs : list A) :
  List.length rkeys = List.length xs ->
  block rkeys k xs = [] -> ~ In k rkeys.
Proof.
  unfold block. revert xs.
  induction rkeys as [| r rkeys IH]; intros [| y xs] Hlen; simpl in *;
    try discriminate; auto.
  destruct (String.eqb_spec k r) as [-> | Hne]; simpl; [discriminate |].
  intros H [Heq | Hin]; [congruence |].
  apply (IH xs); auto.
Qed.

(** X8. The join assigns no polygon to the wrong code and invents none:
    in the enriched table (of a merge that the labels let through, with a
    census table whose key label is not repeated among its fields), a row
    either carries a (key, geometry) pair of the provider's table, or
    carries no geometry and its code is no key of the provider's table. *)
Theorem merge_geometry_provenance (zip_data : frame) (zc : string)
    (zcta_gdf : boundaries) (keys : list string) :
  getitem zip_data zc = Ok (str_column keys) ->
  List.length (filter (String.eqb "ZCTA5CE20")
                 (columns (rename zc "ZCTA5CE20" zip_data))) = 1%nat ->
  has_column (rename zc "ZCTA5CE20" zip_data) "geometry" = false ->
  merge_duplicates (left_labels zip_data zc)
                   (right_labels (boundary_fields zcta_gdf)) = [] ->
  ~ In "ZCTA5CE20" (map fst (boundary_fields zcta_gdf)) ->
  col_len (ZCTA5CE20 zcta_gdf) = List.length (boundary_geometry zcta_gdf) ->
  exists final_gdf codes,
    filter_and_merge zip_data zc zcta_gdf = Ok final_gdf /\
    getitem (data final_gdf) "ZCTA5CE20" = Ok (str_column codes) /\
    List.length codes = List.length (geometry_col final_gdf) /\
    (forall k go,
       In (k, go) (combine codes (geometry_col final_gdf)) ->
       In (k, go) (combine (astype_str (ZCTA5CE20 zcta_gdf))
                           (boundary_geometry zcta_gdf)) \/
       (go = None /\ ~ In k (astype_str (ZCTA5CE20 zcta_gdf)))).
Proof.
  intros Hz Hlab Hgeo Hdup Hbz Hlen.
  rewrite (filter_and_merge_unfold zip_data zc zcta_gdf keys Hz Hlab Hgeo Hdup).
  set (rkeys := astype_str (ZCTA5CE20 zcta_gdf)).
  set (rgeom := boundary_geometry zcta_gdf).
  set (mask := isin (map HStr rkeys) (map HStr keys)).
  set (f := merge_block (filter_mask mask rkeys) (filter_mask mask rgeom)).
  assert (Hlk : getitem (rename zc "ZCTA5CE20" zip_data) "ZCTA5CE20" =
                Ok (str_column keys))
    by now apply getitem_rename_unique.
  eexists. exists (repeat_rows (map (fun k => List.length (f k)) keys) keys).
  split; [reflexivity |]. cbn [data geometry_col].
  split; [| split].
  - rewrite (getitem_merged_key _
               (col_repeat (map (fun k => List.length (f k)) keys)) _ _ _
               (key_not_clashing zip_data zc zcta_gdf Hbz) Hlk).
    unfold str_column. simpl. now rewrite repeat_rows_map.
  - rewrite repeat_rows_length by now rewrite length_map.
    now rewrite flat_map_length_sum.
  - intros k go Hin. rewrite combine_repeat_rows in Hin.
    apply in_flat_map in Hin. destruct Hin as (k' & Hk' & Hin).
    apply in_map_iff in Hin. destruct Hin as (go' & Heq & Hgo).
    inversion Heq; subst k' go'. clear Heq.
    unfold f, merge_block in Hgo.
    fold (block (filter_mask mask rkeys) k (filter_mask mask rgeom)) in Hgo.
    unfold mask in Hgo. rewrite block_isin in Hgo by now apply in_map.
    destruct (block rkeys k rgeom) as [| g0 m] eqn:Hb.
    + right. destruct Hgo as [<- | []]. split; auto.
      apply (block_empty_absent rkeys k rgeom); auto.
      unfold rkeys, rgeom. now rewrite col_len_astype_str.
    + left. apply block_In_combine. now rewrite Hb.
Qed.




(** The labels of the enriched table: those of the aggregated table as
    the merge sees them, then the fields of the census table, a label that
    both have with the suffix ['_x'] on the left and ['_y'] on the right. *)
Lemma merged_columns (zip_data : frame) (zc : string)
    (zcta_gdf : boundaries) (final_gdf : geoframe) :
  filter_and_merge zip_data zc zcta_gdf = Ok final_gdf ->
  columns (data final_gdf) =
  map (with_suffix (clashing zip_data zc zcta_gdf) "_x")
      (left_labels zip_data zc)
  ++ map (with_suffix (clashing zip_data zc zcta_gdf) "_y")
         (map fst (boundary_fields zcta_gdf)).
Proof.
  intros Hm. unfold filter_and_merge in Hm.
  destruct (getitem zip_data zc) as [c |]; cbn [bind] in Hm;
    [| discriminate].
  destruct (negb _); [discriminate |].
  destruct (getitem (rename zc "ZCTA5CE20" zip_data) "ZCTA5CE20")
    as [lk |] eqn:Hlk; cbn [bind] in Hm; [| discriminate].
  assert (Hcols : columns (setitem (rename zc "ZCTA5CE20" zip_data)
                                   "ZCTA5CE20" (str_column (astype_str lk))) =
                  columns (rename zc "ZCTA5CE20" zip_data)).
  { apply columns_setitem. apply has_column_getitem. eauto. }
  unfold merge_left in Hm. rewrite right_labels_filter, Hcols in Hm.
  destruct (merge_duplicates _ _); [| discriminate]. cbn [bind] in Hm.
  destruct (has_column _ "geometry"); [discriminate |].
  inversion Hm; subst final_gdf. clear Hm. cbn [data].
  unfold columns at 1. rewrite map_app, !map_map. cbn [fst].
  unfold clashing, left_labels. f_equal.
  rewrite <- Hcols. unfold columns. now rewrite map_map.
Qed.

(** A label that the renaming removed does not come back, unless the
    census table, or a suffix put on one of its labels, brings it. *)
Lemma lost_label_absent (zip_data : frame) (zc : string)
    (zcta_gdf : boundaries) (final_gdf : geoframe) :
  filter_and_merge zip_data zc zcta_gdf = Ok final_gdf ->
  zc <> "ZCTA5CE20" ->
  (forall r, In r (right_labels (boundary_fields zcta_gdf)) ->
             zc <> r /\ zc <> (r ++ "_x")%string /\ zc <> (r ++ "_y")%string) ->
  getitem (data final_gdf) zc = Raise (KeyError zc).
Proof.
  intros Hm Hne Hcensus.
  apply getitem_missing. apply not_true_is_false. intros Hhas.
  unfold has_column in Hhas. rewrite (merged_columns _ _ _ _ Hm) in Hhas.
  apply existsb_exists in Hhas. destruct Hhas as (x & Hin & Heq).
  apply String.eqb_eq in Heq. subst x.
  apply in_app_iff in Hin. destruct Hin as [Hin | Hin];
    apply in_map_iff in Hin; destruct Hin as (l & Hl & Hin);
    unfold with_suffix in Hl;
    destruct (existsb (String.eqb l) (clashing zip_data zc zcta_gdf)) eqn:Hex.
  - apply existsb_exists in Hex. destruct Hex as (y & Hy & Heq).
    apply String.eqb_eq in Heq. subst y.
    apply overlap_In in Hy. destruct Hy as [_ Hr].
    destruct (Hcensus l Hr) as (_ & Hx & _). congruence.
  - subst l. unfold left_labels in Hin.
    pose proof (rename_columns_absent zip_data zc "ZCTA5CE20" Hne) as Habs.
    unfold has_column in Habs.
    assert (Hex' : existsb (String.eqb zc)
                     (columns (rename zc "ZCTA5CE20" zip_data)) = true).
    { apply existsb_exists. exists zc. split; auto. apply String.eqb_refl. }
    congruence.
  - assert (Hr : In l (right_labels (boundary_fields zcta_gdf))).
    { unfold right_labels. apply in_app_iff. auto. }
    destruct (Hcensus l Hr) as (_ & _ & Hy). congruence.
  - assert (Hr : In l (right_labels (boundary_fields zcta_gdf))).
    { unfold right_labels. apply in_app_iff. auto. }
    destruct (Hcensus l Hr) as (Hx & _). congruence.
Qed.

(** X10. After the join the postal-code column is labelled
    ['ZCTA5CE20'] and its former label is gone, unless the census table
    brings it back: the enriched table has the labels of the aggregated
    table with that one replaced, followed by the fields of the census
    table (clashing labels with the suffixes ['_x'] and ['_y']); when the
    former label is neither ['ZCTA5CE20'] nor a label of the census table
    (['geometry'] included) nor such a label with a suffix, looking the
    postal-code column up by it raises [KeyError], and so does the
    visualization when asked to group by it. *)
Theorem merged_table_loses_zip_label (zip_data : frame) (zc : string)
    (zcta_gdf : boundaries) (final_gdf : geoframe) :
  filter_and_merge zip_data zc zcta_gdf = Ok final_gdf ->
  zc <> "ZCTA5CE20" ->
  (forall r, In r (right_labels (boundary_fields zcta_gdf)) ->
             zc <> r /\ zc <> (r ++ "_x")%string /\ zc <> (r ++ "_y")%string) ->
  columns (data final_gdf) =
  map (with_suffix (clashing zip_data zc zcta_gdf) "_x")
      (columns (rename zc "ZCTA5CE20" zip_data))
  ++ map (with_suffix (clashing zip_data zc zcta_gdf) "_y")
         (map fst (boundary_fields zcta_gdf)) /\
  getitem (data final_gdf) zc = Raise (KeyError zc) /\
  forall perm, visualize perm final_gdf zc = Raise (KeyError zc).
Proof.
  intros Hm Hne Hcensus.
  pose proof (lost_label_absent zip_data zc zcta_gdf final_gdf Hm Hne Hcensus)
    as Hget.
  split; [exact (merged_columns _ _ _ _ Hm) |]. split; [exact Hget |].
  intros perm. unfold visualize. now rewrite Hget.
Qed.

Lemma caused_duplicates_same (seen l : list string) :
  caused_duplicates seen seen l l = [].
Proof.
  revert seen. induction l as [| x l IH]; intros seen; simpl; auto.
  rewrite IH. now destruct (existsb (String.eqb x) seen).
Qed.

Lemma with_suffix_none (suffix : string) (l : list string) :
  map (with_suffix [] suffix) l = l.
Proof. rewrite <- (map_id l) at 2. apply map_ext. reflexivity. Qed.

(** Labels that do not clash are left alone and raise no error. *)
Lemma merge_duplicates_no_clash (llabels rlabels : list string) :
  overlap llabels rlabels = [] -> merge_duplicates llabels rlabels = [].
Proof.
  intros H. unfold merge_duplicates. rewrite H, !with_suffix_none.
  now rewrite !caused_duplicates_same.
Qed.

Lemma getitem_app_absent (a b : frame) (l : string) :
  has_column a l = false -> getitem (a ++ b) l = getitem b l.
Proof.
  unfold has_column. induction a as [| [l' c] a IH]; simpl; auto.
  rewrite String.eqb_sym.
  destruct (String.eqb l' l); simpl; [discriminate | exact IH].
Qed.

Lemma getitem_census (h : field -> column) (fields : list (string * field))
    (l : string) (f : field) :
  NoDup (map fst fields) ->
  In (l, f) fields ->
  getitem (map (fun lf => (with_suffix [] "_y" (fst lf), h (snd lf))) fields) l
  = Ok (h f).
Proof.
  induction fields as [| [l' f'] fields IH]; simpl; intros Hnd Hin;
    [contradiction |].
  inversion Hnd as [| ? ? Hl' Hnd']; subst.
  change (with_suffix [] "_y" l') with l'.
  destruct Hin as [Heq | Hin].
  - inversion Heq; subst. now rewrite String.eqb_refl.
  - destruct (String.eqb_spec l' l) as [-> | _]; [| now apply IH].
    exfalso. apply Hl'. apply in_map_iff. exists (l, f). auto.
Qed.

Lemma repeat_rows_incl {A} (counts : list nat) (xs : list A) (x : A) :
  In x (repeat_rows counts xs) -> In x xs.
Proof.
  unfold repeat_rows. revert xs.
  induction counts as [| n counts IH]; intros [| y xs]; simpl; try tauto.
  rewrite in_app_iff. intros [H | H].
  - apply repeat_spec in H. auto.
  - right. now apply IH.
Qed.

(** X23. A postal-code column labelled like a field of the census table
    (say [GEOID20]): the renaming frees the label and the merge brings it
    back with the census table.  When no other label clashes, looking the
    former label up in the enriched table succeeds and gives that field of
    the census table, row by row for the aggregated codes and missing
    where the code has no boundary; the postal codes themselves are under
    ['ZCTA5CE20']. *)
Theorem census_label_comes_back (zip_data : frame) (zc : string)
    (zcta_gdf : boundaries) (keys : list string) (f : field) :
  getitem zip_data zc = Ok (str_column keys) ->
  List.length (filter (String.eqb "ZCTA5CE20")
                 (columns (rename zc "ZCTA5CE20" zip_data))) = 1%nat ->
  has_column (rename zc "ZCTA5CE20" zip_data) "geometry" = false ->
  clashing zip_data zc zcta_gdf = [] ->
  zc <> "ZCTA5CE20" ->
  NoDup (map fst (boundary_fields zcta_gdf)) ->
  In (zc, f) (boundary_fields zcta_gdf) ->
  exists final_gdf,
    filter_and_merge zip_data zc zcta_gdf = Ok final_gdf /\
    getitem (data final_gdf) zc =
    Ok (field_merge
          (filter_mask (isin (map HStr (astype_str (ZCTA5CE20 zcta_gdf)))
                             (map HStr keys))
                       (astype_str (ZCTA5CE20 zcta_gdf)))
          keys
          (field_filter (isin (map HStr (astype_str (ZCTA5CE20 zcta_gdf)))
                              (map HStr keys)) f)) /\
    exists codes,
      getitem (data final_gdf) "ZCTA5CE20" = Ok (str_column codes) /\
      (forall k, In k codes -> In k keys).
Proof.
  intros Hz Hlab Hgeo Hclash Hne Hnd Hin.
  assert (Hdup : merge_duplicates (left_labels zip_data zc)
                   (right_labels (boundary_fields zcta_gdf)) = [])
    by now apply merge_duplicates_no_clash.
  rewrite (filter_and_merge_unfold zip_data zc zcta_gdf keys Hz Hlab Hgeo Hdup).
  rewrite Hclash.
  assert (Hlk : getitem (rename zc "ZCTA5CE20" zip_data) "ZCTA5CE20" =
                Ok (str_column keys))
    by now apply getitem_rename_unique.
  eexists. split; [reflexivity |]. cbn [data]. split.
  - rewrite getitem_app_absent.
    + unfold census_columns.
      now apply (getitem_census
                   (fun f0 =>
                      field_merge
                        (filter_mask
                           (isin (map HStr (astype_str (ZCTA5CE20 zcta_gdf)))
                                 (map HStr keys))
                           (astype_str (ZCTA5CE20 zcta_gdf)))
                        keys
                        (field_filter
                           (isin (map HStr (astype_str (ZCTA5CE20 zcta_gdf)))
                                 (map HStr keys)) f0))).
    + unfold has_column, columns. rewrite map_map. cbn [fst].
      change (fun x : string * column => with_suffix [] "_x" (fst x))
        with (fun x : string * column => fst x).
      now apply rename_columns_absent.
  - set (counts := map _ keys).
    exists (repeat_rows counts keys). split.
    + rewrite (getitem_merged_key [] (col_repeat counts) _ _ _
                 (fun H => H) Hlk).
      unfold str_column. simpl. now rewrite repeat_rows_map.
    + intros k. apply repeat_rows_incl.
Qed.

End JoinProvenance.

Section GroupingByZip.
Context {F : Float64Ops} {G : GeometryOps} {E : ExportOps}.

(** X11. Choosing the postal-code column as the grouping column gives
    downloads but no map, unless the census table brings a column of that
    label: whenever the page is built in that case, the label being
    neither ['ZCTA5CE20'] nor a label of the census table (['geometry']
    included) nor such a label with the suffix ['_x'] or ['_y'], its visual
    part is the [KeyError] raised on looking up the grouping column,
    whatever the sampler draws. *)
Theorem grouping_by_zip_column_shows_no_map (df : frame) (zc : string)
    (cols : list string) (zcta_gdf : boundaries) (perm : list nat)
    (pg : page) :
  zc <> "ZCTA5CE20" ->
  (forall r, In r (right_labels (boundary_fields zcta_gdf)) ->
             zc <> r /\ zc <> (r ++ "_x")%string /\ zc <> (r ++ "_y")%string) ->
  generate df zc zc cols (Some zcta_gdf) perm = Ok (Some pg) ->
  page_visual pg = Raise (KeyError zc) /\
  exists final_gdf,
    create_full_geographic_data df zc zc (Some cols) (Some zcta_gdf) =
    Ok final_gdf /\
    page_downloads pg = export final_gdf.
Proof.
  intros Hne Hcensus. unfold generate.
  destruct (create_full_geographic_data df zc zc (Some cols) (Some zcta_gdf))
    as [final_gdf |] eqn:Hfull; cbn [bind]; [| discriminate].
  destruct (gdf_empty final_gdf); [discriminate |].
  intros H. inversion H; subst pg. clear H. cbn [page_visual page_downloads].
  split; [| eauto].
  unfold create_full_geographic_data in Hfull.
  destruct (aggregate df zc zc (Some cols)) as [zip_data |];
    cbn [bind] in Hfull; [| discriminate].
  unfold visualize.
  now rewrite (lost_label_absent zip_data zc zcta_gdf final_gdf Hfull Hne
                 Hcensus).
Qed.

End GroupingByZip.

Lemma scenario_census_labels (r : string) :
  In r (right_labels (boundary_fields scenario_boundaries)) ->
  "zip" <> r /\ "zip" <> (r ++ "_x")%string /\ "zip" <> (r ++ "_y")%string.
Proof.
  intros [<- | [<- | [<- | []]]]; repeat split; discriminate.
Qed.

Lemma scenario_boundaries_wf : wf_boundaries scenario_boundaries.
Proof.
  split; [reflexivity |]. split.
  - intros l f [H | [H | []]]; inversion H; reflexivity.
  - simpl. intuition discriminate.
Qed.

Lemma merge_never_drops_rows_witness :
  exists final_gdf codes,
    filter_and_merge scenario_zip_data "zip" scenario_boundaries =
    Ok final_gdf /\
    getitem (data final_gdf) "ZCTA5CE20" = Ok (str_column codes) /\
    (forall k, In k codes <-> In k ["00501"; "00544"; "90210"]) /\
    (nrows scenario_zip_data <= List.length (geometry_col final_gdf))%nat /\
    (forall l c, In (l, c) (data final_gdf) ->
                 col_len c = List.length (geometry_col final_gdf)).
Proof.
  apply (merge_never_drops_rows (F := example_floats)
           (G := example_geometries) scenario_zip_data "zip"
           scenario_boundaries ["00501"; "00544"; "90210"]).
  - apply wf_frame_forallb. reflexivity.
  - reflexivity.
  - reflexivity.
  - reflexivity.
  - reflexivity.
  - apply scenario_boundaries_wf.
Defined.

Lemma merge_geometry_provenance_witness :
  exists final_gdf codes,
    filter_and_merge scenario_zip_data "zip" scenario_boundaries =
    Ok final_gdf /\
    getitem (data final_gdf) "ZCTA5CE20" = Ok (str_column codes) /\
    List.length codes = List.length (geometry_col final_gdf) /\
    (forall k go,
       In (k, go) (combine codes (geometry_col final_gdf)) ->
       In (k, go) (combine (astype_str (ZCTA5CE20 scenario_boundaries))
                           (boundary_geometry scenario_boundaries)) \/
       (go = None /\ ~ In k (astype_str (ZCTA5CE20 scenario_boundaries)))).
Proof.
  apply (merge_geometry_provenance (F := example_floats)
           (G := example_geometries) scenario_zip_data "zip"
           scenario_boundaries ["00501"; "00544"; "90210"]).
  - reflexivity.
  - reflexivity.
  - reflexivity.
  - reflexivity.
  - simpl. intuition discriminate.
  - reflexivity.
Defined.


Lemma merged_table_loses_zip_label_witness :
  columns (data scenario_final_gdf) =
  map (with_suffix (clashing scenario_zip_data "zip" scenario_boundaries) "_x")
      (columns (rename "zip" "ZCTA5CE20" scenario_zip_data))
  ++ map (with_suffix (clashing scenario_zip_data "zip" scenario_boundaries)
                      "_y")
         (map fst (boundary_fields scenario_boundaries)) /\
  getitem (data scenario_final_gdf) "zip" = Raise (KeyError "zip") /\
  forall perm, visualize perm scenario_final_gdf "zip" = Raise (KeyError "zip").
Proof.
  apply (merged_table_loses_zip_label (F := example_floats)
           (G := example_geometries) scenario_zip_data "zip"
           scenario_boundaries scenario_final_gdf).
  - reflexivity.
  - discriminate.
  - apply scenario_census_labels.
Defined.

Lemma grouping_by_zip_column_shows_no_map_witness :
  page_visual scenario_zip_page = Raise (KeyError "zip") /\
  exists final_gdf,
    create_full_geographic_data scenario_df "zip" "zip" (Some ["pop"])
      (Some scenario_boundaries) = Ok final_gdf /\
    page_downloads scenario_zip_page = export final_gdf.
Proof.
  apply (grouping_by_zip_column_shows_no_map (F := example_floats)
           (G := example_geometries) (E := example_exports)
           scenario_df "zip" ["pop"] scenario_boundaries [0]%nat
           scenario_zip_page).
  - discriminate.
  - apply scenario_census_labels.
  - reflexivity.
Defined.

Lemma census_label_comes_back_witness :
  exists final_gdf,
    filter_and_merge geoid_zip_data "GEOID20" scenario_boundaries =
    Ok final_gdf /\
    getitem (data final_gdf) "GEOID20" =
    Ok (field_merge
          (filter_mask
             (isin (map HStr (astype_str (ZCTA5CE20 scenario_boundaries)))
                   (map HStr ["00501"; "00544"]))
             (astype_str (ZCTA5CE20 scenario_boundaries)))
          ["00501"; "00544"]
          (field_filter
             (isin (map HStr (astype_str (ZCTA5CE20 scenario_boundaries)))
                   (map HStr ["00501"; "00544"]))
             (TextField [OStr "00501"; OStr "90210"; OStr "12345"]))) /\
    exists codes,
      getitem (data final_gdf) "ZCTA5CE20" = Ok (str_column codes) /\
      (forall k, In k codes -> In k ["00501"; "00544"]).
Proof.
  apply (census_label_comes_back (F := example_floats)
           (G := example_geometries) geoid_zip_data "GEOID20"
           scenario_boundaries ["00501"; "00544"]
           (TextField [OStr "00501"; OStr "90210"; OStr "12345"])).
  - reflexivity.
  - reflexivity.
  - reflexivity.
  - reflexivity.
  - discriminate.
  - apply NoDup_by_nodup. reflexivity.
  - left. reflexivity.
Defined.

(** The two behaviours on concrete tables: grouping by a postal-code
    column labelled [GEOID20] finds the census field of that name, with a
    missing cell for the code without boundary; two labels that the
    suffix ['_x'] makes equal stop the merge. *)
Example census_label_lookup :
  exists final_gdf,
    filter_and_merge geoid_zip_data "GEOID20" scenario_boundaries =
    Ok final_gdf /\
    getitem (data final_gdf) "GEOID20" = Ok (Object [OStr "00501"; ONaN]) /\
    getitem (data final_gdf) "ZCTA5CE20" =
    Ok (Object [OStr "00501"; OStr "00544"]).
Proof. eexists. repeat split; reflexivity. Qed.

Example suffix_clash_stops_merge :
  merge_duplicates (left_labels suffix_clash_zip_data "zip")
                   (right_labels (boundary_fields scenario_boundaries)) =
  ["ALAND20_x"] /\
  filter_and_merge suffix_clash_zip_data "zip" scenario_boundaries =
  Raise ValueError.
Proof. split; reflexivity. Qed.


(* ================================================================= *)
(** ** The visualization: few groups, and totals under [dissolve] *)

Section Visualization.
Context {F : Float64Ops} {G : GeometryOps}.

Lemma filter_mask_all_true {A} (m : list bool) (xs : list A) :
  Forall (fun b => b = true) m ->
  List.length m = List.length xs ->
  filter_mask m xs = xs.
Proof.
  revert xs. induction m as [| b m IH]; intros [| x xs] Hall Hlen;
    simpl in *; try discriminate; auto.
  inversion Hall; subst. rewrite IH; auto.
Qed.

Lemma col_filter_all_true (m : list bool) (c : column) :
  Forall (fun b => b = true) m ->
  List.length m = col_len c ->
  col_filter m c = c.
Proof.
  intros Hall Hlen.
  destruct c; simpl in *; f_equal; now apply filter_mask_all_true.
Qed.

Lemma frame_filter_all_true (m : list bool) (df : frame) :
  Forall (fun b => b = true) m ->
  (forall l c, In (l, c) df -> col_len c = List.length m) ->
  frame_filter m df = df.
Proof.
  intros Hall Hlen. unfold frame_filter.
  rewrite <- (map_id df) at 2. apply map_ext_in. intros [l c] Hin. simpl.
  rewrite col_filter_all_true; auto. symmetry. eauto.
Qed.

Lemma isin_unique_all_true (c : column) :
  Forall (fun b => b = true) (isin (col_hkeys c) (col_hkeys (col_unique c))).
Proof.
  unfold isin. apply Forall_map, Forall_forall. intros k Hk.
  destruct (in_dec hkey_eq_dec k (col_hkeys (col_unique c))) as [| Hn];
    [reflexivity |].
  exfalso. apply Hn. now apply col_unique_In.
Qed.

(** X12. With at most five distinct grouping values the sampler filters
    nothing: the map is built from the whole enriched table, whatever the
    generator draws.  (The values counted are those of [unique()], a
    missing value included.) *)
Theorem few_groups_map_whole_table (perm : list nat) (final_gdf : geoframe)
    (gc : string) (gcol : column) :
  getitem (data final_gdf) gc = Ok gcol ->
  (forall l c, In (l, c) (data final_gdf) ->
               col_len c = List.length (geometry_col final_gdf)) ->
  (col_len (col_unique gcol) <= 5)%nat ->
  visualize perm final_gdf gc =
  if gdf_empty final_gdf then Ok None
  else v <- dissolve gc final_gdf ;;
       Ok (Some {| sampled_groups := col_unique gcol; visual_gdf := v |}).
Proof.
  intros Hg Hlen Hfew. unfold visualize. rewrite Hg. cbn [bind].
  assert (Hs : sample perm (col_unique gcol) = col_unique gcol).
  { unfold sample. destruct (Nat.ltb_spec 5 (col_len (col_unique gcol)));
      [lia | reflexivity]. }
  rewrite Hs.
  assert (Hml : List.length (isin (col_hkeys gcol)
                                  (col_hkeys (col_unique gcol))) =
                List.length (geometry_col final_gdf)).
  { unfold isin. rewrite length_map, col_len_hkeys.
    eapply Hlen, getitem_In, Hg. }
  assert (Hsame : geoframe_filter
                    (isin (col_hkeys gcol) (col_hkeys (col_unique gcol)))
                    final_gdf = final_gdf).
  { unfold geoframe_filter. destruct final_gdf as [d geo]. simpl in *.
    f_equal.
    - apply frame_filter_all_true; [apply isin_unique_all_true |].
      intros l c Hin. rewrite Hml. eauto.
    - apply filter_mask_all_true; [apply isin_unique_all_true | exact Hml]. }
  now rewrite Hsame.
Qed.

(** X13. [dissolve] neither loses nor double counts: when no row has a
    missing grouping value, the 64-bit total of an [int64] attribute over
    the dissolved rows equals its 64-bit total over the rows dissolved,
    and for a [bool] attribute the dissolved counts add up to the number
    of rows in which it is [True]. *)
Theorem dissolve_preserves_totals (by_ : string) (gdf v : geoframe)
    (kc : column) (col : string) :
  getitem (data gdf) by_ = Ok kc ->
  dissolve by_ gdf = Ok v ->
  ~ In HNaN (col_hkeys kc) ->
  col <> by_ ->
  (forall xs, getitem (data gdf) col = Ok (Int64 xs) ->
     col_len kc = List.length xs ->
     exists ys, getitem (data v) col = Ok (Int64 ys) /\
                wrap64 (zsum ys) = wrap64 (zsum xs)) /\
  (forall bs, getitem (data gdf) col = Ok (Bool bs) ->
     col_len kc = List.length bs ->
     exists ys, getitem (data v) col = Ok (Int64 ys) /\
                zsum ys = count_true bs).
Proof.
  intros Hk Hd Hnan Hne.
  destruct (dissolve_inv by_ gdf v kc Hk Hd) as (cols & Hcols & ->).
  cbn [data].
  assert (Hget : forall c, getitem (data gdf) col = Ok c ->
            getitem ((by_, col_groups kc) :: cols) col =
            agg_column Sum (col_hkeys kc) (col_hkeys (col_groups kc)) c).
  { intros c Hc. simpl.
    destruct (String.eqb_spec by_ col) as [Heq | _]; [congruence |].
    rewrite (mapM_agg_one_get _ _ _ _ _ col Hcols).
    rewrite dict_get_all_sum.
    assert (Hh : existsb (String.eqb col) (columns (data gdf)) = true).
    { apply has_column_getitem. eauto. }
    rewrite Hh.
    destruct (String.eqb_spec col by_); [congruence |]. simpl.
    rewrite Hc. reflexivity. }
  assert (Hpart : forall A (w : A -> Z) (xs : list A),
            col_len kc = List.length xs ->
            zsum (map (fun g => zsum (map w (select (col_hkeys kc) g xs)))
                      (col_hkeys (col_groups kc))) =
            zsum (map w xs)).
  { intros A w xs Hl. apply partition_sum.
    - apply col_groups_keys_NoDup.
    - intros k Hin. apply col_groups_keys_In. split; auto.
      intros ->. now apply Hnan.
    - now rewrite col_len_hkeys. }
  split.
  - intros xs Hc Hl. eexists. split; [rewrite (Hget _ Hc); reflexivity |].
    rewrite wrap64_zsum_map. f_equal.
    transitivity (zsum (map (fun x => x) xs)); [| now rewrite map_id].
    rewrite <- (Hpart _ (fun x => x) xs Hl).
    f_equal. apply map_ext. intros g. now rewrite map_id.
  - intros bs Hc Hl. eexists. split; [rewrite (Hget _ Hc); reflexivity |].
    rewrite count_true_weight.
    rewrite <- (Hpart _ (fun b : bool => if b then 1%Z else 0%Z) bs Hl).
    f_equal. apply map_ext. intros g. apply count_true_weight.
Qed.

End Visualization.

Lemma few_groups_map_whole_table_witness :
  visualize [0%nat] scenario_final_gdf "state" =
  if gdf_empty scenario_final_gdf then Ok None
  else v <- dissolve "state" scenario_final_gdf ;;
       Ok (Some {| sampled_groups :=
                     col_unique (Object [OStr "NY"; OStr "NY"; OStr "CA"]);
                   visual_gdf := v |}).
Proof.
  apply (few_groups_map_whole_table (F := example_floats)
           (G := example_geometries) [0%nat] scenario_final_gdf "state"
           (Object [OStr "NY"; OStr "NY"; OStr "CA"])).
  - reflexivity.
  - intros l c Hin. simpl in Hin.
    destruct Hin as [H | [H | [H | [H | [H | []]]]]]; inversion H;
      reflexivity.
  - simpl. lia.
Defined.

Lemma dissolve_preserves_totals_witness :
  (forall xs, getitem (data scenario_final_gdf) "pop" = Ok (Int64 xs) ->
     col_len (Object [OStr "NY"; OStr "NY"; OStr "CA"]) = List.length xs ->
     exists ys, getitem (data (visual_gdf scenario_visual)) "pop" =
                Ok (Int64 ys) /\
                wrap64 (zsum ys) = wrap64 (zsum xs)) /\
  (forall bs, getitem (data scenario_final_gdf) "pop" = Ok (Bool bs) ->
     col_len (Object [OStr "NY"; OStr "NY"; OStr "CA"]) = List.length bs ->
     exists ys, getitem (data (visual_gdf scenario_visual)) "pop" =
                Ok (Int64 ys) /\
                zsum ys = count_true bs).
Proof.
  apply (dissolve_preserves_totals (F := example_floats)
           (G := example_geometries) "state" scenario_final_gdf
           (visual_gdf scenario_visual)
           (Object [OStr "NY"; OStr "NY"; OStr "CA"]) "pop").
  - reflexivity.
  - reflexivity.
  - simpl. intros [H | [H | [H | []]]]; discriminate.
  - discriminate.
Defined.

(* ================================================================= *)
(** ** Integer postal codes *)

Section IntegerCodes.

Lemma of_uint_lead0 (n : nat) (d : Decimal.uint) :
  Z.of_uint (lead0 n d) = Z.of_uint d.
Proof. induction n; simpl; auto. Qed.

Lemma uint_of_string_zeros (n : nat) (s : string) (u : Decimal.uint) :
  NilEmpty.uint_of_string s = Some u ->
  NilEmpty.uint_of_string (zeros n ++ s) = Some (lead0 n u).
Proof.
  intros H. induction n as [| n IH]; simpl; [exact H |].
  now rewrite IH.
Qed.

Lemma nz_uint_of_string (s : string) (u : Decimal.uint) :
  NilZero.uint_of_string s = Some u ->
  s <> EmptyString /\ NilEmpty.uint_of_string s = Some u.
Proof. destruct s; simpl; [discriminate |]. split; [discriminate | auto]. Qed.

Lemma nz_uint_of_string_zeros (n : nat) (s : string) (u : Decimal.uint) :
  NilZero.uint_of_string s = Some u ->
  NilZero.uint_of_string (zeros n ++ s) = Some (lead0 n u).
Proof.
  intros H. destruct (nz_uint_of_string s u H) as [Hne He].
  pose proof (uint_of_string_zeros n s u He) as Hz.
  destruct (zeros n ++ s)%string eqn:Hs; [| exact Hz].
  destruct n; simpl in Hs; [congruence | discriminate].
Qed.

Lemma uint_of_char_plus (d : option Decimal.uint) : uint_of_char "+" d = None.
Proof. destruct d; reflexivity. Qed.

(** Padding a decimal string keeps the integer it denotes. *)
Lemma zfill_keeps_int (w : nat) (s : string) (z : Z) :
  int_of_str s = Some z -> int_of_str (zfill w s) = Some z.
Proof.
  unfold int_of_str, zfill. intros H.
  destruct (w <=? String.length s)%nat; [exact H |].
  destruct s as [| a s']; [discriminate |].
  cbn [NilZero.int_of_string] in H.
  destruct (Ascii.eqb_spec a "-") as [-> | Hminus].
  - cbn [is_sign Ascii.eqb orb]. simpl is_sign.
    destruct (NilZero.uint_of_string s') as [u |] eqn:Hu; [| discriminate].
    change (is_sign "-") with true. cbv iota.
    cbn [NilZero.int_of_string]. rewrite Ascii.eqb_refl.
    rewrite (nz_uint_of_string_zeros _ _ _ Hu). simpl in *.
    now rewrite of_uint_lead0.
  - destruct (is_sign a) eqn:Hsign.
    + exfalso. unfold is_sign in Hsign. apply orb_true_iff in Hsign.
      destruct Hsign as [Hp | Hm].
      * apply Ascii.eqb_eq in Hp. subst a.
        simpl in H. rewrite uint_of_char_plus in H. discriminate.
      * apply Ascii.eqb_eq in Hm. contradiction.
    + destruct (NilZero.uint_of_string (String a s')) as [u |] eqn:Hu;
        [| discriminate].
      set (k := (w - String.length (String a s'))%nat).
      pose proof (nz_uint_of_string_zeros k _ _ Hu) as Hz.
      destruct (zeros k ++ String a s')%string as [| b t] eqn:Hs.
      * destruct k; simpl in Hs; discriminate.
      * cbn [NilZero.int_of_string].
        assert (Hb : Ascii.eqb b "-" = false).
        { destruct k; simpl in Hs; inversion Hs; subst.
          - now apply Ascii.eqb_neq.
          - reflexivity. }
        rewrite Hb, Hz. simpl in *. now rewrite of_uint_lead0.
Qed.

Lemma int_of_str_of_int (z : Z) : int_of_str (str_of_int z) = Some z.
Proof.
  unfold int_of_str, str_of_int. rewrite NilZero.isi.
  - simpl. now rewrite DecimalZ.of_to.
  - destruct z; simpl; try discriminate.
    intros H. inversion H. now apply Unsigned.to_uint_nonnil in H1.
  - destruct z; simpl; try discriminate.
    intros H. inversion H. now apply Unsigned.to_uint_nonnil in H1.
Qed.

Context {F : Float64Ops}.

(** X14. Normalizing an integer postal code never changes its value: the
    normalized code of every cell of an [int64] column, read back as a
    decimal number, is the integer of that cell (negative ones included:
    the zeros go after the sign). *)
Theorem normalized_integer_keeps_value (xs : list Z) :
  map int_of_str (normalize_zip (Int64 xs)) = map Some xs.
Proof.
  unfold normalize_zip. simpl. rewrite !map_map. apply map_ext.
  intros z. apply zfill_keeps_int, int_of_str_of_int.
Qed.

Lemma five_digits_from_sound (n : nat) (z0 z : Z) :
  five_digits_from n z0 = true ->
  (z0 <= z < z0 + Z.of_nat n)%Z ->
  five_digits (zfill 5 (str_of_int z)) = true.
Proof.
  revert z0. induction n as [| n IH]; intros z0 Hc Hz; [lia |].
  cbn [five_digits_from] in Hc. apply andb_true_iff in Hc.
  destruct Hc as [H0 Hrest].
  destruct (Z.eq_dec z z0) as [-> | Hne]; [exact H0 |].
  apply (IH (z0 + 1)%Z Hrest). lia.
Qed.

Lemma five_digits_up_to_99999 :
  five_digits_from (Z.to_nat 100000) 0 = true.
Proof. vm_compute. reflexivity. Qed.

(** X15. Every integer postal code from 0 to 99999 is normalized to
    exactly five decimal digits. *)
Theorem integer_codes_get_five_digits (xs : list Z) :
  Forall (fun z => (0 <= z <= 99999)%Z) xs ->
  Forall (fun s => five_digits s = true) (normalize_zip (Int64 xs)).
Proof.
  intros H. unfold normalize_zip. simpl. rewrite map_map.
  apply Forall_map. eapply Forall_impl; [| exact H].
  intros z Hz. cbv beta in Hz |- *.
  apply (five_digits_from_sound (Z.to_nat 100000) 0 z
           five_digits_up_to_99999).
  rewrite Z2Nat.id; lia.
Qed.

End IntegerCodes.

Lemma integer_codes_get_five_digits_witness :
  Forall (fun s => five_digits s = true)
         (normalize_zip (F := example_floats) (Int64 [501; 90210; 0]%Z)).
Proof.
  apply (integer_codes_get_five_digits (F := example_floats)
           [501; 90210; 0]%Z).
  repeat (apply Forall_cons; [lia |]). apply Forall_nil.
Defined.

(* ================================================================= *)
(** ** Download links: the base64 payload *)

Section DownloadLinks.

Lemma b64_char_nat (n : nat) :
  (n < 64)%nat ->
  b64_index (b64_char (N.of_nat n)) = Some (N.of_nat n) /\
  Ascii.eqb (b64_char (N.of_nat n)) b64_pad = false /\
  Ascii.eqb (b64_char (N.of_nat n)) (ascii_of_nat 34) = false.
Proof.
  intros H.
  do 64 (destruct n as [| n]; [repeat split; reflexivity |]).
  lia.
Qed.

Lemma b64_char_spec (i : N) :
  (i < 64)%N ->
  b64_index (b64_char i) = Some i /\
  Ascii.eqb (b64_char i) b64_pad = false /\
  Ascii.eqb (b64_char i) (ascii_of_nat 34) = false.
Proof.
  intros H. rewrite <- (N2Nat.id i). apply b64_char_nat. lia.
Qed.

Lemma b64_digits_bounded (x y z : N) :
  (x < 256)%N -> (y < 256)%N -> (z < 256)%N ->
  (b64_digit0 x < 64)%N /\ (b64_digit1 x y < 64)%N /\
  (b64_digit2 y z < 64)%N /\ (b64_digit3 z < 64)%N.
Proof.
  unfold b64_digit0, b64_digit1, b64_digit2, b64_digit3. intros Hx Hy Hz.
  repeat split; zify; Z.to_euclidean_division_equations; lia.
Qed.

Lemma b64_digits_bytes (x y z : N) :
  (x < 256)%N -> (y < 256)%N -> (z < 256)%N ->
  (b64_digit0 x * 4 + b64_digit1 x y / 16 = x)%N /\
  ((b64_digit1 x y mod 16) * 16 + b64_digit2 y z / 4 = y)%N /\
  ((b64_digit2 y z mod 4) * 64 + b64_digit3 z = z)%N.
Proof.
  unfold b64_digit0, b64_digit1, b64_digit2, b64_digit3. intros Hx Hy Hz.
  repeat split; zify; Z.to_euclidean_division_equations; lia.
Qed.

Lemma b64_induction (P : string -> Prop) :
  P EmptyString ->
  (forall a, P (String a EmptyString)) ->
  (forall a b, P (String a (String b EmptyString))) ->
  (forall a b c rest, P rest -> P (String a (String b (String c rest)))) ->
  forall s, P s.
Proof.
  intros H0 H1 H2 H3.
  assert (H : forall s, P s /\ (forall a, P (String a s)) /\
                        (forall a b, P (String a (String b s)))).
  { induction s as [| c s (IH0 & IH1 & IH2)]; [auto |].
    split; [apply IH1 |]. split; [intros a; apply IH2 |].
    intros a b. now apply H3. }
  intros s. apply H.
Qed.

Lemma b64encode_three (a b c : ascii) (rest : string) :
  b64encode (String a (String b (String c rest))) =
  String (b64_char (b64_digit0 (N_of_ascii a)))
    (String (b64_char (b64_digit1 (N_of_ascii a) (N_of_ascii b)))
       (String (b64_char (b64_digit2 (N_of_ascii b) (N_of_ascii c)))
          (String (b64_char (b64_digit3 (N_of_ascii c))) (b64encode rest)))).
Proof. reflexivity. Qed.

Lemma b64decode_four (c0 c1 c2 c3 : ascii) (rest : string) :
  b64decode (String c0 (String c1 (String c2 (String c3 rest)))) =
  match b64_index c0, b64_index c1 with
  | Some d0, Some d1 =>
      let x := ascii_of_N (d0 * 4 + d1 / 16) in
      if Ascii.eqb c2 b64_pad then
        if (Ascii.eqb c3 b64_pad && is_empty rest)%bool
        then Some (String x EmptyString)
        else None
      else
        match b64_index c2 with
        | Some d2 =>
            let y := ascii_of_N ((d1 mod 16) * 16 + d2 / 4) in
            if Ascii.eqb c3 b64_pad then
              if is_empty rest
              then Some (String x (String y EmptyString))
              else None
            else
              match b64_index c3 with
              | Some d3 =>
                  let z := ascii_of_N ((d2 mod 4) * 64 + d3) in
                  option_map
                    (fun r => String x (String y (String z r)))
                    (b64decode rest)
              | None => None
              end
        | None => None
        end
  | _, _ => None
  end.
Proof. reflexivity. Qed.

(** Decoding undoes encoding. *)
Lemma b64decode_b64encode (s : string) : b64decode (b64encode s) = Some s.
Proof.
  induction s as [| a | a b | a b c rest IH] using b64_induction.
  - reflexivity.
  - pose proof (N_ascii_bounded a) as Ha.
    assert (H0 : (0 < 256)%N) by lia.
    destruct (b64_digits_bounded _ _ _ Ha H0 H0) as (B0 & B1 & _ & _).
    destruct (b64_digits_bytes _ _ _ Ha H0 H0) as (E0 & _ & _).
    destruct (b64_char_spec _ B0) as (I0 & _ & _).
    destruct (b64_char_spec _ B1) as (I1 & _ & _).
    cbn [b64encode]. rewrite b64decode_four, I0, I1.
    cbv zeta. rewrite Ascii.eqb_refl. cbn [andb is_empty].
    now rewrite E0, ascii_N_embedding.
  - pose proof (N_ascii_bounded a) as Ha.
    pose proof (N_ascii_bounded b) as Hb.
    assert (H0 : (0 < 256)%N) by lia.
    destruct (b64_digits_bounded _ _ _ Ha Hb H0) as (B0 & B1 & B2 & _).
    destruct (b64_digits_bytes _ _ _ Ha Hb H0) as (E0 & E1 & _).
    destruct (b64_char_spec _ B0) as (I0 & _ & _).
    destruct (b64_char_spec _ B1) as (I1 & _ & _).
    destruct (b64_char_spec _ B2) as (I2 & P2 & _).
    cbn [b64encode]. rewrite b64decode_four, I0, I1, I2, P2.
    cbv zeta. rewrite Ascii.eqb_refl. cbn [is_empty].
    now rewrite E0, E1, !ascii_N_embedding.
  - pose proof (N_ascii_bounded a) as Ha.
    pose proof (N_ascii_bounded b) as Hb.
    pose proof (N_ascii_bounded c) as Hc.
    destruct (b64_digits_bounded _ _ _ Ha Hb Hc) as (B0 & B1 & B2 & B3).
    destruct (b64_digits_bytes _ _ _ Ha Hb Hc) as (E0 & E1 & E2).
    destruct (b64_char_spec _ B0) as (I0 & _ & _).
    destruct (b64_char_spec _ B1) as (I1 & _ & _).
    destruct (b64_char_spec _ B2) as (I2 & P2 & _).
    destruct (b64_char_spec _ B3) as (I3 & P3 & _).
    rewrite b64encode_three, b64decode_four, I0, I1, I2, I3, P2, P3, IH.
    cbv zeta. cbn [option_map].
    now rewrite E0, E1, E2, !ascii_N_embedding.
Qed.

Lemma strip_prefix_app (p s : string) : strip_prefix p (p ++ s) = Some s.
Proof.
  induction p as [| a p IH]; simpl; [reflexivity |].
  now rewrite Ascii.eqb_refl.
Qed.

(** The encoding holds no double quote: reading up to the first one
    stops right after it. *)
Lemma until_quote_b64encode (s t : string) :
  until_quote (b64encode s ++ String (ascii_of_nat 34) t) = b64encode s.
Proof.
  assert (Hpad : Ascii.eqb b64_pad (ascii_of_nat 34) = false) by reflexivity.
  assert (H0 : (0 < 256)%N) by lia.
  induction s as [| a | a b | a b c rest IH] using b64_induction.
  - reflexivity.
  - pose proof (N_ascii_bounded a) as Ha.
    destruct (b64_digits_bounded _ _ _ Ha H0 H0) as (B0 & B1 & _ & _).
    destruct (b64_char_spec _ B0) as (_ & _ & Q0).
    destruct (b64_char_spec _ B1) as (_ & _ & Q1).
    cbn [b64encode append until_quote]. now rewrite Q0, Q1, Hpad.
  - pose proof (N_ascii_bounded a) as Ha.
    pose proof (N_ascii_bounded b) as Hb.
    destruct (b64_digits_bounded _ _ _ Ha Hb H0) as (B0 & B1 & B2 & _).
    destruct (b64_char_spec _ B0) as (_ & _ & Q0).
    destruct (b64_char_spec _ B1) as (_ & _ & Q1).
    destruct (b64_char_spec _ B2) as (_ & _ & Q2).
    cbn [b64encode append until_quote]. now rewrite Q0, Q1, Q2, Hpad.
  - pose proof (N_ascii_bounded a) as Ha.
    pose proof (N_ascii_bounded b) as Hb.
    pose proof (N_ascii_bounded c) as Hc.
    destruct (b64_digits_bounded _ _ _ Ha Hb Hc) as (B0 & B1 & B2 & B3).
    destruct (b64_char_spec _ B0) as (_ & _ & Q0).
    destruct (b64_char_spec _ B1) as (_ & _ & Q1).
    destruct (b64_char_spec _ B2) as (_ & _ & Q2).
    destruct (b64_char_spec _ B3) as (_ & _ & Q3).
    rewrite b64encode_three. cbn [append until_quote].
    now rewrite Q0, Q1, Q2, Q3, IH.
Qed.

Lemma b64encode_length (s : string) :
  String.length (b64encode s) = (4 * ((String.length s + 2) / 3))%nat.
Proof.
  induction s as [| a | a b | a b c rest IH] using b64_induction;
    try reflexivity.
  rewrite b64encode_three. cbn [String.length]. rewrite IH.
  replace (S (S (S (String.length rest))) + 2)%nat
    with (1 * 3 + (String.length rest + 2))%nat by lia.
  rewrite Nat.div_add_l by lia. lia.
Qed.

(** X16. The download link carries the file unchanged: the payload of
    its [href], read up to the closing quote and decoded as base64, is
    the file's content byte for byte, whatever the label and the file
    name are. *)
Theorem download_link_carries_file (file_data file_label file_name : string) :
  data_uri_payload
    (get_binary_file_downloader_html file_data file_label file_name) =
  Some (b64encode file_data) /\
  b64decode (b64encode file_data) = Some file_data.
Proof.
  split; [| apply b64decode_b64encode].
  unfold data_uri_payload, get_binary_file_downloader_html.
  rewrite strip_prefix_app. cbn [option_map]. f_equal.
  unfold dquote at 1. cbn [append].
  apply until_quote_b64encode.
Qed.

(** X17. Size of the download link: 64 characters of markup, the label,
    the file name, and four characters for every three bytes of the file,
    the last group rounded up. *)
Theorem download_link_length (file_data file_label file_name : string) :
  String.length
    (get_binary_file_downloader_html file_data file_label file_name) =
  (64 + 4 * ((String.length file_data + 2) / 3)
   + String.length file_name + String.length file_label)%nat.
Proof.
  unfold get_binary_file_downloader_html.
  rewrite !append_length, b64encode_length.
  change (String.length href_prefix) with 46%nat.
  change (String.length dquote) with 1%nat.
  change (String.length " download=") with 10%nat.
  change (String.length ">") with 1%nat.
  change (String.length "</a>") with 4%nat.
  lia.
Qed.

End DownloadLinks.

(* ================================================================= *)
(** ** The shapefile archive *)

Section ArchiveContents.
Context {F : Float64Ops} {G : GeometryOps} {ZO : Archive.ZipOps}.

Lemma Permutation_filter {A} (p : A -> bool) (l l' : list A) :
  Permutation l l' -> Permutation (filter p l) (filter p l').
Proof.
  induction 1 as [| x l l' _ IH | x y l | l l' l'' _ IH1 _ IH2]; simpl.
  - constructor.
  - destruct (p x); auto.
  - destruct (p x), (p y); auto. constructor.
  - now transitivity (filter p l').
Qed.

Lemma filter_keeps {A} (p : A -> bool) (l : list A) :
  (forall x, In x l -> p x = true) -> filter p l = l.
Proof.
  induction l as [| x l IH]; simpl; intros H; [reflexivity |].
  rewrite (H x) by auto. f_equal. apply IH. auto.
Qed.

Lemma write_new (d : Archive.directory) (n c : string) :
  ~ In n (map fst d) -> Archive.write d n c = d ++ [(n, c)].
Proof.
  induction d as [| [n0 c0] d IH]; simpl; intros Hn; [reflexivity |].
  destruct (String.eqb_spec n0 n) as [-> | _]; [tauto |].
  rewrite IH; tauto.
Qed.

Lemma write_has (d : Archive.directory) (n c : string) :
  In n (map fst (Archive.write d n c)).
Proof.
  induction d as [| [n0 c0] d IH]; simpl; auto.
  destruct (String.eqb_spec n0 n) as [-> | _]; simpl; auto.
Qed.

Lemma read_listed (d : Archive.directory) :
  NoDup (map fst d) ->
  map (fun f => (f, Archive.read d f)) (map fst d) = d.
Proof.
  induction d as [| [n c] d IH]; simpl; intros Hnd; [reflexivity |].
  inversion Hnd as [| ? ? Hn Hd]; subst.
  rewrite String.eqb_refl. f_equal.
  rewrite <- (IH Hd) at 2. apply map_ext_in. intros f Hf.
  destruct (String.eqb_spec n f) as [-> | _]; [contradiction | reflexivity].
Qed.

Lemma read_app_l (d d' : Archive.directory) (f : string) :
  In f (map fst d) -> Archive.read (d ++ d') f = Archive.read d f.
Proof.
  induction d as [| [n c] d IH]; simpl; intros Hin; [contradiction |].
  destruct (String.eqb_spec n f) as [| Hne]; [reflexivity |].
  apply IH. destruct Hin; congruence.
Qed.

(** The files that the driver leaves in the fresh directory. *)
Lemma written_components (l : list (string * string)) (d : Archive.directory) :
  NoDup (map fst l) ->
  (forall e, In e (map fst l) -> ~ In ("output" ++ e)%string (map fst d)) ->
  fold_left (fun d p => Archive.write d ("output" ++ fst p)%string (snd p))
            l d =
  d ++ map (fun p => (("output" ++ fst p)%string, snd p)) l.
Proof.
  revert d. induction l as [| [e c] l IH]; simpl; intros d Hnd Hfresh.
  - now rewrite app_nil_r.
  - inversion Hnd as [| ? ? He Hl]; subst.
    rewrite write_new by (apply Hfresh; auto).
    rewrite IH; [now rewrite <- app_assoc | exact Hl |].
    intros e' He' Hin. rewrite map_app, in_app_iff in Hin.
    destruct Hin as [Hin | [Heq | []]].
    + apply (Hfresh e'); auto.
    + simpl in Heq. inversion Heq. congruence.
Qed.

(** The members are the listed files whose name starts with ["output."]. *)
Lemma fold_members (g : string -> string * Archive.source)
    (l : list string) (acc : list (string * Archive.source)) :
  fold_left (fun members file =>
               if String.prefix "output." file
               then members ++ [g file] else members) l acc =
  acc ++ map g (filter (String.prefix "output.") l).
Proof.
  revert acc. induction l as [| f l IH]; simpl; intros acc.
  - now rewrite app_nil_r.
  - rewrite IH. destruct (String.prefix "output." f); simpl; auto.
    now rewrite <- app_assoc.
Qed.

Lemma zip_members_eq (gdf : geoframe) (name : string) :
  Archive.zip_members gdf name =
  map (fun file =>
         (file, if String.eqb file name then Archive.ArchiveItself
                else Archive.FileContent
                       (Archive.read
                          (Archive.write (Archive.shapefile_written gdf)
                                         name EmptyString) file)))
      (filter (String.prefix "output.")
              (Archive.listdir_order
                 (map fst (Archive.write (Archive.shapefile_written gdf)
                                         name EmptyString)))).
Proof.
  unfold Archive.zip_members. cbv zeta. now rewrite fold_members.
Qed.

Lemma contents_files (h : string -> string) (l : list string) :
  Archive.contents (map (fun f => (f, Archive.FileContent (h f))) l) =
  Some (map (fun f => (f, h f)) l).
Proof. induction l as [| f l IH]; simpl; [| rewrite IH]; reflexivity. Qed.

Lemma contents_itself (members : list (string * Archive.source))
    (n : string) :
  In (n, Archive.ArchiveItself) members -> Archive.contents members = None.
Proof.
  induction members as [| [m [c |]] members IH]; simpl; intros Hin.
  - contradiction.
  - destruct Hin as [Heq | Hin]; [discriminate |].
    now rewrite IH.
  - reflexivity.
Qed.

Lemma prefix_output (e : string) :
  String.prefix "output." ("output" ++ e) = String.prefix "." e.
Proof. reflexivity. Qed.

(** X18. The archive holds the shapefile components and nothing else:
    when the archive's name does not start with ["output."] (as
    ["output_shapefile.zip"] does not), its members are exactly the files
    [output<ext>] that the driver wrote, each under its bare name with its
    content, in the order in which the directory lists them. *)
Theorem archive_holds_shapefile_components (gdf : geoframe) (name : string) :
  String.prefix "output." name = false ->
  (forall e, In e (map fst (Archive.to_file gdf)) ->
             String.prefix "." e = true) ->
  NoDup (map fst (Archive.to_file gdf)) ->
  (forall l, Permutation (Archive.listdir_order l) l) ->
  exists members,
    Archive.create_zip_file gdf name = Some (Archive.zip_bytes members) /\
    Permutation members
      (map (fun p => (("output" ++ fst p)%string, snd p))
           (Archive.to_file gdf)).
Proof.
  intros Hname Hext Hnd Hlist.
  set (sw := map (fun p => (("output" ++ fst p)%string, snd p))
                 (Archive.to_file gdf)).
  assert (Hsw : Archive.shapefile_written gdf = sw).
  { unfold Archive.shapefile_written.
    rewrite written_components; [reflexivity | exact Hnd | auto]. }
  assert (Hpre : forall f, In f (map fst sw) ->
                           String.prefix "output." f = true).
  { intros f Hf. unfold sw in Hf. rewrite map_map in Hf.
    apply in_map_iff in Hf. destruct Hf as ([e c] & <- & Hin). cbn [fst].
    rewrite prefix_output. apply Hext. apply in_map_iff.
    exists (e, c). auto. }
  assert (Hfresh : ~ In name (map fst sw)).
  { intros Hin. apply Hpre in Hin. congruence. }
  assert (Hsnd : NoDup (map fst sw)).
  { unfold sw. rewrite map_map. cbn [fst].
    rewrite <- (map_map fst (fun e => ("output" ++ e)%string)).
    apply Finite.Injective_map_NoDup; [| exact Hnd].
    intros a b Hab. now inversion Hab. }
  set (temp_dir := Archive.write sw name EmptyString).
  assert (Htd : temp_dir = sw ++ [(name, EmptyString)]).
  { unfold temp_dir. now apply write_new. }
  set (listed := filter (String.prefix "output.")
                        (Archive.listdir_order (map fst temp_dir))).
  assert (Hperm : Permutation listed (map fst sw)).
  { unfold listed.
    rewrite (Permutation_filter _ _ _ (Hlist (map fst temp_dir))).
    rewrite Htd, map_app, filter_app. simpl. rewrite Hname, app_nil_r.
    rewrite filter_keeps; [reflexivity |].
    intros f Hf. now apply Hpre. }
  assert (Hmem : Archive.zip_members gdf name =
                 map (fun f => (f, Archive.FileContent
                                     (Archive.read temp_dir f))) listed).
  { rewrite zip_members_eq, Hsw. fold temp_dir. fold listed.
    apply map_ext_in. intros f Hf.
    destruct (String.eqb_spec f name) as [-> | _]; [| reflexivity].
    exfalso. apply Hfresh.
    eapply Permutation_in; [exact Hperm | exact Hf]. }
  exists (map (fun f => (f, Archive.read temp_dir f)) listed). split.
  - unfold Archive.create_zip_file.
    now rewrite Hmem, contents_files.
  - rewrite (Permutation_map _ Hperm).
    assert (Heq : map (fun f => (f, Archive.read temp_dir f)) (map fst sw) =
                  map (fun f => (f, Archive.read sw f)) (map fst sw)).
    { apply map_ext_in. intros f Hf. rewrite Htd. f_equal.
      now apply read_app_l. }
    rewrite Heq, (read_listed sw Hsnd). reflexivity.
Qed.

(** X19. An archive named ["output.<something>"] is asked to add
    itself: its own name passes the test of the loop, so it is among the
    files handed to [zf.write] while it is still being written. *)
Theorem archive_named_output_adds_itself (gdf : geoframe) (name : string) :
  String.prefix "output." name = true ->
  (forall l, Permutation (Archive.listdir_order l) l) ->
  In (name, Archive.ArchiveItself) (Archive.zip_members gdf name) /\
  Archive.create_zip_file gdf name = None.
Proof.
  intros Hname Hlist.
  assert (Hin : In (name, Archive.ArchiveItself)
                   (Archive.zip_members gdf name)).
  { rewrite zip_members_eq. apply in_map_iff. exists name.
    rewrite String.eqb_refl. split; [reflexivity |].
    apply filter_In. split; [| exact Hname].
    eapply Permutation_in; [symmetry; apply Hlist |]. apply write_has. }
  split; [exact Hin |].
  unfold Archive.create_zip_file.
  now rewrite (contents_itself _ _ Hin).
Qed.

End ArchiveContents.

Lemma archive_holds_shapefile_components_witness :
  exists members,
    Archive.create_zip_file (ZO := example_zip) scenario_final_gdf
      "output_shapefile.zip" = Some (Archive.zip_bytes members) /\
    Permutation members
      (map (fun p => (("output" ++ fst p)%string, snd p))
           (Archive.to_file scenario_final_gdf)).
Proof.
  apply (archive_holds_shapefile_components (F := example_floats)
           (G := example_geometries) (ZO := example_zip)
           scenario_final_gdf "output_shapefile.zip").
  - reflexivity.
  - intros e He. simpl in He.
    destruct He as [<- | [<- | [<- | []]]]; reflexivity.
  - apply NoDup_by_nodup. reflexivity.
  - intros l. symmetry. apply Permutation_rev.
Defined.

Lemma archive_named_output_adds_itself_witness :
  In ("output.zip", Archive.ArchiveItself)
     (Archive.zip_members (ZO := example_zip) scenario_final_gdf
        "output.zip") /\
  Archive.create_zip_file (ZO := example_zip) scenario_final_gdf
    "output.zip" = None.
Proof.
  apply (archive_named_output_adds_itself (F := example_floats)
           (G := example_geometries) (ZO := example_zip)
           scenario_final_gdf "output.zip").
  - reflexivity.
  - intros l. symmetry. apply Permutation_rev.
Defined.

(* ================================================================= *)
(** ** The whole function: success, reserved labels, empty uploads *)

Section Pipeline.
Context {F : Float64Ops} {G : GeometryOps} {E : ExportOps}.

(** The columns kept beside the postal-code column. *)
Lemma kept_columns_In (inc : list string) (zc gc l : string) :
  In l (unique_by HStr
          (filter (fun col => negb (String.eqb col zc))
                  (columns_to_aggregate inc gc))) <->
  (In l inc \/ l = gc) /\ l <> zc.
Proof.
  rewrite unique_by_strings_In, filter_In, columns_to_aggregate_iff.
  destruct (String.eqb_spec l zc); simpl; intuition congruence.
Qed.

Lemma rename_columns_fresh (old new : string) (df : frame) :
  ~ In old (columns df) -> columns (rename old new df) = columns df.
Proof.
  unfold columns, rename. rewrite map_map. intros Hn.
  apply map_ext_in. intros [l c] Hin. simpl.
  destruct (String.eqb_spec l old) as [-> | _]; [| reflexivity].
  exfalso. apply Hn. apply in_map_iff. exists (old, c). auto.
Qed.

Lemma filter_eqb_absent (k : string) (l : list string) :
  ~ In k l -> filter (String.eqb k) l = [].
Proof.
  induction l as [| x l IH]; simpl; intros Hn; [reflexivity |].
  destruct (String.eqb_spec k x) as [-> | _]; [tauto |].
  apply IH. tauto.
Qed.

Lemma filter_eqb_present (k : string) (l : list string) :
  In k l -> (1 <= List.length (filter (String.eqb k) l))%nat.
Proof.
  induction l as [| x l IH]; simpl; intros Hin; [contradiction |].
  destruct (String.eqb_spec k x) as [-> | Hne]; simpl; [lia |].
  apply IH. destruct Hin; congruence.
Qed.

(** The aggregated table, with its labels after the renaming. *)
Lemma aggregate_renamed (df : frame) (zc gc : string) (inc : list string)
    (z g : column) :
  wf_frame df ->
  getitem df zc = Ok z ->
  getitem df gc = Ok g ->
  (forall c, In c inc -> has_column df c = true) ->
  gc <> zc ->
  exists cols,
    aggregate df zc gc (Some inc) =
    Ok ((zc, str_column (isort String.leb
                           (unique_by HStr (surviving_codes z g)))) :: cols) /\
    columns (rename zc "ZCTA5CE20"
               ((zc, str_column (isort String.leb
                                   (unique_by HStr (surviving_codes z g))))
                :: cols)) =
    "ZCTA5CE20" ::
      unique_by HStr (filter (fun col => negb (String.eqb col zc))
                             (columns_to_aggregate inc gc)).
Proof.
  intros Hwf Hz Hg Hinc Hne.
  destruct (aggregate_grouped df zc gc inc z g Hwf Hz Hg Hinc Hne)
    as (cols & Hagg & Hlab & _ & _).
  exists cols. split; [exact Hagg |].
  assert (Hcols : columns cols =
                  unique_by HStr (filter (fun col => negb (String.eqb col zc))
                                         (columns_to_aggregate inc gc))).
  { rewrite Hlab. unfold agg_dict_init. rewrite fold_first_keys. simpl.
    now rewrite filter_all. }
  change (columns (rename zc "ZCTA5CE20" ((zc, ?k) :: cols)))
    with ((if String.eqb zc zc then "ZCTA5CE20" else zc)
          :: columns (rename zc "ZCTA5CE20" cols)).
  rewrite String.eqb_refl, rename_columns_fresh; [now rewrite Hcols |].
  rewrite Hcols. intros Hin. apply kept_columns_In in Hin. tauto.
Qed.

Lemma with_suffix_nil (suffix : string) (l : list string) :
  map (with_suffix [] suffix) l = l.
Proof. rewrite <- (map_id l) at 2. apply map_ext. reflexivity. Qed.

(** The whole function on an upload whose labels the merge accepts. *)
Lemma pipeline_merged (df : frame) (zc gc : string) (inc : list string)
    (z g : column) (zcta_gdf : boundaries) :
  wf_frame df ->
  getitem df zc = Ok z ->
  getitem df gc = Ok g ->
  (forall c, In c inc -> has_column df c = true) ->
  gc <> zc ->
  (forall l, In l inc \/ l = gc -> l <> zc ->
             l <> "ZCTA5CE20" /\ l <> "geometry") ->
  merge_duplicates (aggregated_labels inc zc gc)
                   (right_labels (boundary_fields zcta_gdf)) = [] ->
  exists zip_data final_gdf,
    aggregate df zc gc (Some inc) = Ok zip_data /\
    left_labels zip_data zc = aggregated_labels inc zc gc /\
    filter_and_merge zip_data zc zcta_gdf = Ok final_gdf /\
    create_full_geographic_data df zc gc (Some inc) (Some zcta_gdf) =
    Ok final_gdf /\
    geometry_col final_gdf =
    flat_map
      (merge_block
         (filter_mask
            (isin (map HStr (astype_str (ZCTA5CE20 zcta_gdf)))
                  (map HStr (isort String.leb
                               (unique_by HStr (surviving_codes z g)))))
            (astype_str (ZCTA5CE20 zcta_gdf)))
         (filter_mask
            (isin (map HStr (astype_str (ZCTA5CE20 zcta_gdf)))
                  (map HStr (isort String.leb
                               (unique_by HStr (surviving_codes z g)))))
            (boundary_geometry zcta_gdf)))
      (isort String.leb (unique_by HStr (surviving_codes z g))).
Proof.
  intros Hwf Hz Hg Hinc Hne Hres Hdup.
  destruct (aggregate_renamed df zc gc inc z g Hwf Hz Hg Hinc Hne)
    as (cols & Hagg & Hren).
  set (keys := isort String.leb (unique_by HStr (surviving_codes z g))) in *.
  fold (aggregated_labels inc zc gc) in Hren.
  assert (Hfree : forall r, r = "ZCTA5CE20" \/ r = "geometry" ->
                            ~ In r (tl (aggregated_labels inc zc gc))).
  { intros r Hr Hin. apply kept_columns_In in Hin. destruct Hin as [Hl Hlz].
    destruct (Hres r Hl Hlz). destruct Hr; congruence. }
  assert (Hget : getitem ((zc, str_column keys) :: cols) zc =
                 Ok (str_column keys)).
  { simpl. now rewrite String.eqb_refl. }
  assert (Hlab : List.length
                   (filter (String.eqb "ZCTA5CE20")
                      (columns (rename zc "ZCTA5CE20"
                                  ((zc, str_column keys) :: cols)))) = 1%nat).
  { rewrite Hren. unfold aggregated_labels. cbn [filter].
    rewrite String.eqb_refl.
    rewrite filter_eqb_absent; [reflexivity |]. apply Hfree. auto. }
  assert (Hgeo : has_column (rename zc "ZCTA5CE20"
                               ((zc, str_column keys) :: cols))
                            "geometry" = false).
  { unfold has_column. rewrite Hren.
    change (existsb (String.eqb "geometry") (aggregated_labels inc zc gc))
      with (existsb (String.eqb "geometry")
                    (tl (aggregated_labels inc zc gc))).
    apply not_true_is_false. intros Hex. apply existsb_exists in Hex.
    destruct Hex as (x & Hin & Heq). apply String.eqb_eq in Heq. subst x.
    revert Hin. apply Hfree. auto. }
  assert (Hdup' : merge_duplicates
                    (left_labels ((zc, str_column keys) :: cols) zc)
                    (right_labels (boundary_fields zcta_gdf)) = []).
  { unfold left_labels. now rewrite Hren. }
  pose proof (filter_and_merge_unfold _ zc zcta_gdf keys Hget Hlab Hgeo Hdup')
    as Hm.
  eexists. eexists. split; [exact Hagg |]. split; [exact Hren |].
  split; [exact Hm |]. split; [| reflexivity].
  unfold create_full_geographic_data. rewrite Hagg. cbn [bind]. exact Hm.
Qed.

(** X20. The whole function returns a table: on a well-formed upload
    with the chosen columns present, a grouping column other than the
    postal-code column, no other chosen column labelled ['ZCTA5CE20'] or
    ['geometry'], and no two labels made equal by the suffixes of the
    merge, it succeeds whenever the boundaries were downloaded; the
    enriched table has the key ['ZCTA5CE20'] first, then the retained
    columns and the grouping column, then the fields of the census table
    (a label on both sides with the suffix ['_x'] on the left and ['_y']
    on the right, none when no label clashes), and at least one row per
    distinct normalized postal code of the surviving records. *)
Theorem pipeline_returns_table (df : frame) (zc gc : string)
    (inc : list string) (z g : column) (zcta_gdf : boundaries) :
  wf_frame df ->
  getitem df zc = Ok z ->
  getitem df gc = Ok g ->
  (forall c, In c inc -> has_column df c = true) ->
  gc <> zc ->
  (forall l, In l inc \/ l = gc -> l <> zc ->
             l <> "ZCTA5CE20" /\ l <> "geometry") ->
  merge_duplicates (aggregated_labels inc zc gc)
                   (right_labels (boundary_fields zcta_gdf)) = [] ->
  exists final_gdf,
    create_full_geographic_data df zc gc (Some inc) (Some zcta_gdf) =
    Ok final_gdf /\
    columns (data final_gdf) =
    map (with_suffix (overlap (aggregated_labels inc zc gc)
                              (right_labels (boundary_fields zcta_gdf))) "_x")
        (aggregated_labels inc zc gc)
    ++ map (with_suffix (overlap (aggregated_labels inc zc gc)
                                 (right_labels (boundary_fields zcta_gdf)))
                        "_y")
           (map fst (boundary_fields zcta_gdf)) /\
    (overlap (aggregated_labels inc zc gc)
             (right_labels (boundary_fields zcta_gdf)) = [] ->
     columns (data final_gdf) =
     aggregated_labels inc zc gc ++ map fst (boundary_fields zcta_gdf)) /\
    (List.length (unique_by HStr (surviving_codes z g)) <=
     List.length (geometry_col final_gdf))%nat.
Proof.
  intros Hwf Hz Hg Hinc Hne Hres Hdup.
  destruct (pipeline_merged df zc gc inc z g zcta_gdf Hwf Hz Hg Hinc Hne
              Hres Hdup)
    as (zip_data & final_gdf & _ & Hlabels & Hm & Hfull & Hgeom).
  assert (Hcols := merged_columns _ _ _ _ Hm).
  unfold clashing in Hcols. rewrite Hlabels in Hcols.
  exists final_gdf. split; [exact Hfull |]. split; [exact Hcols |]. split.
  - intros Hnone. rewrite Hcols, Hnone. now rewrite !with_suffix_nil.
  - rewrite Hgeom, flat_map_length_sum.
    etransitivity; [| apply list_sum_ge].
    + rewrite length_map.
      now rewrite (Permutation_length (isort_perm String.leb _)).
    + apply Forall_map, Forall_forall. intros k _.
      apply merge_block_nonempty.
Qed.

Lemma filter_mask_none {A} (m : list bool) (xs : list A) :
  Forall (fun keep => keep = false) m -> filter_mask m xs = [].
Proof.
  intros H. revert xs. induction H as [| b m Hb _ IH]; intros [| x xs];
    simpl; auto.
  rewrite Hb. apply IH.
Qed.

(** X21. An upload without a usable record shows nothing: when every
    record misses its postal code or its grouping value (the grouping
    column being another column than the postal-code column, and the
    labels being such that the merge accepts them), the function still
    succeeds, the enriched table is empty, and the handler shows neither
    downloads nor a map nor a message of its own. *)
Theorem no_surviving_record_shows_nothing (df : frame) (zc gc : string)
    (inc : list string) (z g : column) (zcta_gdf : boundaries)
    (perm : list nat) :
  wf_frame df ->
  getitem df zc = Ok z ->
  getitem df gc = Ok g ->
  (forall c, In c inc -> has_column df c = true) ->
  gc <> zc ->
  (forall l, In l inc \/ l = gc -> l <> zc ->
             l <> "ZCTA5CE20" /\ l <> "geometry") ->
  merge_duplicates (aggregated_labels inc zc gc)
                   (right_labels (boundary_fields zcta_gdf)) = [] ->
  Forall (fun keep => keep = false) (surviving z g) ->
  (exists final_gdf,
     create_full_geographic_data df zc gc (Some inc) (Some zcta_gdf) =
     Ok final_gdf /\ geometry_col final_gdf = []) /\
  generate df zc gc inc (Some zcta_gdf) perm = Ok None.
Proof.
  intros Hwf Hz Hg Hinc Hne Hres Hdup Hnone.
  destruct (pipeline_merged df zc gc inc z g zcta_gdf Hwf Hz Hg Hinc Hne
              Hres Hdup)
    as (zip_data & final_gdf & _ & _ & _ & Hfull & Hgeom).
  assert (Hcodes : surviving_codes z g = []).
  { unfold surviving_codes. now rewrite filter_mask_none. }
  rewrite Hcodes in Hgeom. cbn [unique_by isort fold_right flat_map] in Hgeom.
  split.
  - exists final_gdf. split; [exact Hfull | exact Hgeom].
  - unfold generate. rewrite Hfull. cbn [bind].
    unfold gdf_empty. now rewrite Hgeom.
Qed.

Lemma merge_left_raises (lkeys : list string) (left : frame)
    (rkeys : list string) (rfields : list (string * field))
    (rgeom : list (option geometry)) :
  (exists v, merge_left lkeys left rkeys rfields rgeom = Ok v) \/
  merge_left lkeys left rkeys rfields rgeom = Raise ValueError.
Proof.
  unfold merge_left. destruct (merge_duplicates _ _); eauto.
Qed.

(** X22. Reserved labels.  A retained or grouping column labelled
    ['ZCTA5CE20'] or ['geometry'] (the postal-code column apart, and the
    grouping column being another column than it) makes the merge step
    raise [ValueError], on every upload that gets that far. *)
Theorem reserved_label_raises (df : frame) (zc gc : string)
    (inc : list string) (z g : column) (zcta_gdf : boundaries) (l : string) :
  wf_frame df ->
  getitem df zc = Ok z ->
  getitem df gc = Ok g ->
  (forall c, In c inc -> has_column df c = true) ->
  gc <> zc ->
  In l inc \/ l = gc ->
  l <> zc ->
  l = "ZCTA5CE20" \/ l = "geometry" ->
  create_full_geographic_data df zc gc (Some inc) (Some zcta_gdf) =
  Raise ValueError.
Proof.
  intros Hwf Hz Hg Hinc Hne Hl Hlz Hres.
  destruct (aggregate_renamed df zc gc inc z g Hwf Hz Hg Hinc Hne)
    as (cols & Hagg & Hren).
  set (keys := isort String.leb (unique_by HStr (surviving_codes z g))) in *.
  set (others := unique_by HStr _) in Hren.
  assert (Hin : In l others) by (apply kept_columns_In; auto).
  unfold create_full_geographic_data. rewrite Hagg. cbn [bind].
  unfold filter_and_merge.
  replace (getitem ((zc, str_column keys) :: cols) zc)
    with (Ok (str_column keys)) by (simpl; now rewrite String.eqb_refl).
  cbn [bind].
  destruct (Nat.eqb_spec
              (List.length
                 (filter (String.eqb "ZCTA5CE20")
                    (columns (rename zc "ZCTA5CE20"
                                ((zc, str_column keys) :: cols))))) 1)
    as [Hone | _]; [| reflexivity].
  cbn [negb].
  rewrite (getitem_rename_unique _ zc "ZCTA5CE20" (str_column keys))
    by (auto; simpl; now rewrite String.eqb_refl).
  cbn [bind].
  assert (Hgeom : l = "geometry").
  { destruct Hres as [-> | ->]; [| reflexivity]. exfalso.
    rewrite Hren in Hone. cbn [filter] in Hone.
    rewrite String.eqb_refl in Hone. cbn [List.length] in Hone.
    pose proof (filter_eqb_present _ _ Hin). lia. }
  subst l.
  match goal with
  | |- bind (merge_left ?a ?b ?c ?d ?e) _ = _ =>
      destruct (merge_left_raises a b c d e) as [[v Hv] | Hv]; rewrite Hv
  end; cbn [bind]; [| reflexivity].
  replace (has_column _ "geometry") with true; [reflexivity |].
  symmetry. unfold has_column.
  rewrite columns_setitem.
  - rewrite Hren. apply existsb_exists. exists "geometry".
    split; [right; exact Hin | reflexivity].
  - apply has_column_getitem. exists (str_column keys).
    apply getitem_rename_unique; auto. simpl. now rewrite String.eqb_refl.
Qed.

End Pipeline.

Lemma pipeline_returns_table_witness :
  exists final_gdf,
    create_full_geographic_data scenario_df "zip" "state" (Some ["pop"])
      (Some scenario_boundaries) = Ok final_gdf /\
    columns (data final_gdf) =
    map (with_suffix
           (overlap (aggregated_labels ["pop"] "zip" "state")
                    (right_labels (boundary_fields scenario_boundaries)))
           "_x")
        (aggregated_labels ["pop"] "zip" "state")
    ++ map (with_suffix
              (overlap (aggregated_labels ["pop"] "zip" "state")
                       (right_labels (boundary_fields scenario_boundaries)))
              "_y")
           (map fst (boundary_fields scenario_boundaries)) /\
    (overlap (aggregated_labels ["pop"] "zip" "state")
             (right_labels (boundary_fields scenario_boundaries)) = [] ->
     columns (data final_gdf) =
     aggregated_labels ["pop"] "zip" "state"
     ++ map fst (boundary_fields scenario_boundaries)) /\
    (List.length
       (unique_by HStr
          (surviving_codes
             (Object [OStr "501"; OStr "00544"; OStr "90210"])
             (Object [OStr "NY"; OStr "NY"; OStr "CA"]))) <=
     List.length (geometry_col final_gdf))%nat.
Proof.
  apply (pipeline_returns_table (F := example_floats)
           (G := example_geometries) scenario_df "zip" "state" ["pop"]
           (Object [OStr "501"; OStr "00544"; OStr "90210"])
           (Object [OStr "NY"; OStr "NY"; OStr "CA"]) scenario_boundaries).
  - apply wf_frame_forallb. reflexivity.
  - reflexivity.
  - reflexivity.
  - intros c [<- | []]. reflexivity.
  - discriminate.
  - intros l [[<- | []] | ->] _; split; discriminate.
  - reflexivity.
Defined.

Lemma no_surviving_record_shows_nothing_witness :
  (exists final_gdf,
     create_full_geographic_data all_missing_df "zip" "state" (Some ["pop"])
       (Some scenario_boundaries) = Ok final_gdf /\
     geometry_col final_gdf = []) /\
  generate all_missing_df "zip" "state" ["pop"] (Some scenario_boundaries)
    [0%nat] = Ok None.
Proof.
  apply (no_surviving_record_shows_nothing (F := example_floats)
           (G := example_geometries) (E := example_exports)
           all_missing_df "zip" "state" ["pop"]
           (Object [ONaN; OStr "501"]) (Object [OStr "NY"; ONaN])
           scenario_boundaries [0%nat]).
  - apply wf_frame_forallb. reflexivity.
  - reflexivity.
  - reflexivity.
  - intros c [<- | []]. reflexivity.
  - discriminate.
  - intros l [[<- | []] | ->] _; split; discriminate.
  - reflexivity.
  - repeat constructor.
Defined.

Lemma reserved_label_raises_witness :
  create_full_geographic_data reserved_label_df "zip" "state"
    (Some ["ZCTA5CE20"]) (Some scenario_boundaries) = Raise ValueError.
Proof.
  apply (reserved_label_raises (F := example_floats)
           (G := example_geometries) reserved_label_df "zip" "state"
           ["ZCTA5CE20"] (Object [OStr "501"; OStr "90210"])
           (Object [OStr "NY"; OStr "CA"]) scenario_boundaries "ZCTA5CE20").
  - apply wf_frame_forallb. reflexivity.
  - reflexivity.
  - reflexivity.
  - intros c [<- | []]. reflexivity.
  - discriminate.
  - left. left. reflexivity.
  - discriminate.
  - left. reflexivity.
Defined.
